(** * spack: versioned binary serialization, verified against its Go source

    A shallow embedding of the field codec ([encodeFieldInner],
    [decodeFieldInner] and their safe wrappers) and of the versioned-type
    registry ([getVersion], [AddVersion], [EncodeObj], [DecodeObj],
    [upgradeObj], [DecodeInto]), followed by the properties of the
    specification that concern them.

    Conventions of the embedding
    - a byte is a [Z] in [0, 256); a byte stream is a [list Z];
    - a [bufio.Reader] over a [bytes.Buffer] is the list of bytes still to
      be read, a [bufio.Writer] is the list of bytes written;
    - a Go value behind [interface{}] is a [Value]; a pointer carries the
      static type of its pointee, so that the reflection the codec performs
      on its targets can be replayed;
    - a Go panic is an outcome of its own; the safe wrappers turn it into a
      [TypeError], as [recover] does;
    - recursion through the struct table is not structural: the codec takes
      a fuel argument and [OutOfFuel] stands for a traversal that has not
      returned within it. *)

From Stdlib Require Import ZArith List String Ascii Lia Bool.
From stdpp Require Import base option list gmap strings.
Import ListNotations.

Set Warnings "-register-all".

Open Scope Z_scope.

(** ** Bytes, big-endian integers, varints, UTF-8 *)

Abbreviation bytes := (list Z).

Definition bytes_of_string (s : string) : bytes :=
  map (fun c => Z.of_N (N_of_ascii c)) (list_ascii_of_string s).

Definition string_of_bytes (bs : bytes) : string :=
  string_of_list_ascii (map (fun b => ascii_of_N (Z.to_N b)) bs).

(** [n] bytes of [x], most significant first ([binary.BigEndian]). *)
Fixpoint be_bytes (n : nat) (x : Z) : bytes :=
  match n with
  | O => []
  | S n' => Z.land (Z.shiftr x (8 * Z.of_nat n')) 255 :: be_bytes n' x
  end.

Definition be_value (bs : bytes) : Z :=
  fold_left (fun acc b => acc * 256 + b) bs 0.

(** [io.ReadFull]: exactly [n] bytes, or nothing. *)
Definition readFull (n : nat) (r : bytes) : option (bytes * bytes) :=
  if (n <=? length r)%nat then Some (firstn n r, skipn n r) else None.

(** [binary.Read(buf, binary.BigEndian, &version)] on a [bytes.Buffer], its
    error dropped as the callers drop it: with fewer than two bytes left the
    buffer is drained and [version] keeps its zero value. *)
Definition readVersion (encObj : bytes) : Z * bytes :=
  match encObj with
  | hi :: lo :: rest => (hi * 256 + lo, rest)
  | _ => (0, [])
  end.

(** [binary.PutUvarint]. *)
Fixpoint PutUvarint_loop (n : nat) (x : Z) : bytes :=
  match n with
  | O => [Z.land x 255]
  | S n' =>
      if 128 <=? x
      then Z.lor (Z.land x 255) 128 :: PutUvarint_loop n' (Z.shiftr x 7)
      else [x]
  end.

Definition PutUvarint (x : Z) : bytes := PutUvarint_loop 9 x.

Inductive IOError := EOF | ErrUnexpectedEOF | ErrOverflow | ErrInvalidType.

(** [binary.ReadUvarint]. *)
Fixpoint ReadUvarint_loop (n : nat) (i x s : Z) (r : bytes)
  : IOError + (Z * bytes) :=
  match n with
  | O => inl ErrOverflow
  | S n' =>
      match r with
      | [] => inl (if 0 <? i then ErrUnexpectedEOF else EOF)
      | b :: r' =>
          if b <? 128 then
            if (i =? 9) && (1 <? b) then inl ErrOverflow
            else inr (Z.lor x (Z.shiftl b s), r')
          else ReadUvarint_loop n' (i + 1) (Z.lor x (Z.shiftl (Z.land b 127) s))
                                (s + 7) r'
      end
  end.

Definition ReadUvarint (r : bytes) : IOError + (Z * bytes) :=
  ReadUvarint_loop 10 0 0 0 r.

(** [int(x)] for an [x uint64], and the fixed-width conversions. *)
Definition wrap_signed (bits : Z) (x : Z) : Z :=
  let m := x mod 2 ^ bits in
  if m <? 2 ^ (bits - 1) then m else m - 2 ^ bits.

Definition wrap_unsigned (bits : Z) (x : Z) : Z := x mod 2 ^ bits.

Definition RuneError : Z := 65533.

Definition cont (b : Z) : bool := (128 <=? b) && (b <=? 191).

(** [utf8.DecodeRune] on the bytes available: the rune and its width. An
    ill-formed or truncated sequence yields [RuneError] of width 1. *)
Definition DecodeRune (p : bytes) : Z * nat :=
  match p with
  | [] => (RuneError, 0%nat)
  | p0 :: t =>
      if p0 <? 128 then (p0, 1%nat)
      else if (194 <=? p0) && (p0 <=? 223) then
        match t with
        | b1 :: _ =>
            if cont b1
            then (Z.lor (Z.shiftl (Z.land p0 31) 6) (Z.land b1 63), 2%nat)
            else (RuneError, 1%nat)
        | _ => (RuneError, 1%nat)
        end
      else if (224 <=? p0) && (p0 <=? 239) then
        let lo := if p0 =? 224 then 160 else 128 in
        let hi := if p0 =? 237 then 159 else 191 in
        match t with
        | b1 :: b2 :: _ =>
            if (lo <=? b1) && (b1 <=? hi) && cont b2
            then (Z.lor (Z.shiftl (Z.land p0 15) 12)
                    (Z.lor (Z.shiftl (Z.land b1 63) 6) (Z.land b2 63)), 3%nat)
            else (RuneError, 1%nat)
        | _ => (RuneError, 1%nat)
        end
      else if (240 <=? p0) && (p0 <=? 244) then
        let lo := if p0 =? 240 then 144 else 128 in
        let hi := if p0 =? 244 then 143 else 191 in
        match t with
        | b1 :: b2 :: b3 :: _ =>
            if (lo <=? b1) && (b1 <=? hi) && cont b2 && cont b3
            then (Z.lor (Z.shiftl (Z.land p0 7) 18)
                    (Z.lor (Z.shiftl (Z.land b1 63) 12)
                       (Z.lor (Z.shiftl (Z.land b2 63) 6) (Z.land b3 63))),
                  4%nat)
            else (RuneError, 1%nat)
        | _ => (RuneError, 1%nat)
        end
      else (RuneError, 1%nat)
  end.

(** [bufio.Reader.ReadRune]. *)
Definition ReadRune (r : bytes) : IOError + (Z * Z * bytes) :=
  match r with
  | [] => inl EOF
  | _ => let '(c, size) := DecodeRune r in
         inr (c, Z.of_nat size, skipn size r)
  end.

(** The UTF-8 bytes of one rune, as [string(runes)] writes them. *)
Definition EncodeRune (c : Z) : bytes :=
  if (c <? 0) || (1114111 <? c) || ((55296 <=? c) && (c <=? 57343))
  then [239; 191; 189]
  else if c <? 128 then [c]
  else if c <? 2048 then
    [Z.lor 192 (Z.shiftr c 6); Z.lor 128 (Z.land c 63)]
  else if c <? 65536 then
    [Z.lor 224 (Z.shiftr c 12); Z.lor 128 (Z.land (Z.shiftr c 6) 63);
     Z.lor 128 (Z.land c 63)]
  else
    [Z.lor 240 (Z.shiftr c 18); Z.lor 128 (Z.land (Z.shiftr c 12) 63);
     Z.lor 128 (Z.land (Z.shiftr c 6) 63); Z.lor 128 (Z.land c 63)].

Definition string_of_runes (runes : list Z) : string :=
  string_of_bytes (concat (map EncodeRune runes)).

(** ** Kinds, schema nodes and type specs *)

Module Reflect.

(** [reflect.Kind], with the two kinds the package adds to it. *)
Inductive Kind :=
| Invalid | Bool | Int | Int8 | Int16 | Int32 | Int64
| Uint | Uint8 | Uint16 | Uint32 | Uint64 | Uintptr
| Float32 | Float64 | Complex64 | Complex128
| Array | Chan | Func | Interface | Map | Ptr | Slice | String | Struct
| UnsafePointer
| IGNORED_FIELD | STRUCT_REFERENCE
| Unknown (n : Z).

Definition to_uint8 (k : Kind) : Z :=
  match k with
  | Invalid => 0 | Bool => 1 | Int => 2 | Int8 => 3 | Int16 => 4
  | Int32 => 5 | Int64 => 6 | Uint => 7 | Uint8 => 8 | Uint16 => 9
  | Uint32 => 10 | Uint64 => 11 | Uintptr => 12 | Float32 => 13
  | Float64 => 14 | Complex64 => 15 | Complex128 => 16 | Array => 17
  | Chan => 18 | Func => 19 | Interface => 20 | Map => 21 | Ptr => 22
  | Slice => 23 | String => 24 | Struct => 25 | UnsafePointer => 26
  | IGNORED_FIELD => 254 | STRUCT_REFERENCE => 255
  | Unknown n => n
  end.

(** The conversion [reflect.Kind(ft.Kind)] of a stored [uint8]. *)
Definition of_uint8 (n : Z) : Kind :=
  match n with
  | 0 => Invalid | 1 => Bool | 2 => Int | 3 => Int8 | 4 => Int16
  | 5 => Int32 | 6 => Int64 | 7 => Uint | 8 => Uint8 | 9 => Uint16
  | 10 => Uint32 | 11 => Uint64 | 12 => Uintptr | 13 => Float32
  | 14 => Float64 | 15 => Complex64 | 16 => Complex128 | 17 => Array
  | 18 => Chan | 19 => Func | 20 => Interface | 21 => Map | 22 => Ptr
  | 23 => Slice | 24 => String | 25 => Struct | 26 => UnsafePointer
  | 254 => IGNORED_FIELD | 255 => STRUCT_REFERENCE
  | _ => Unknown n
  end.

#[global] Instance Kind_eq_dec : EqDecision Kind.
Proof. solve_decision. Defined.

(** The kinds the codec hands to [encoding/binary]. *)
Definition fixedSize (k : Kind) : bool :=
  match k with
  | Int8 | Int16 | Int32 | Int64 | Uint8 | Uint16 | Uint32 | Uint64
  | Float32 | Float64 | Complex64 | Complex128 => true
  | _ => false
  end.

(** Width in bytes of a fixed-size kind. *)
Definition size (k : Kind) : nat :=
  match k with
  | Int8 | Uint8 => 1 | Int16 | Uint16 => 2
  | Int32 | Uint32 | Float32 => 4
  | Int64 | Uint64 | Float64 | Complex64 => 8
  | Complex128 => 16
  | _ => 0
  end%nat.

Definition signed (k : Kind) : bool :=
  match k with Int8 | Int16 | Int32 | Int64 => true | _ => false end.

(** [Type.Name()] of the predeclared type of a kind. *)
Definition name (k : Kind) : string :=
  match k with
  | Bool => "bool" | Int => "int" | Int8 => "int8" | Int16 => "int16"
  | Int32 => "int32" | Int64 => "int64" | Uint => "uint"
  | Uint8 => "uint8" | Uint16 => "uint16" | Uint32 => "uint32"
  | Uint64 => "uint64" | Uintptr => "uintptr" | Float32 => "float32"
  | Float64 => "float64" | Complex64 => "complex64"
  | Complex128 => "complex128" | String => "string"
  | _ => ""
  end%string.

End Reflect.

(** [fieldType]: [Kind] is the stored [uint8]. *)
Inductive fieldType := FieldType {
  Kind : Z;
  Elem : list fieldType;
  Label : string;
  StructName : string
}.

(** [structMap]: a key bound to [None] is the nil sentinel that
    [makeFieldType] installs while a struct body is being built. *)
Abbreviation structMap := (gmap string (option fieldType)).

Record TypeSpec := {
  Structs : structMap;
  Top : fieldType
}.

Definition kind_node (k : Reflect.Kind) : fieldType :=
  FieldType (Reflect.to_uint8 k) [] "" "".

(** ** Go types and values *)

(** The static types the codec meets. A struct type is named by its
    identity key [PkgPath + "/" + Name]; its fields are looked up in the
    program's declarations. *)
Inductive GoType :=
| TBasic (k : Reflect.Kind)          (* bool, int, int8 ... complex128, string *)
| TSlice (elem : GoType)
| TMap (key elem : GoType)
| TPtr (elem : GoType)
| TStruct (key : string)
| TInterface
| TOther (k : Reflect.Kind).         (* arrays, channels, functions, ... *)

#[global] Instance GoType_eq_dec : EqDecision GoType.
Proof. solve_decision. Defined.

Record StructField := {
  FieldName : string;
  FieldTag : string;                  (* the value of the [spack] tag *)
  FieldType_ : GoType
}.

(** The struct declarations of the program, by identity key. *)
Abbreviation Decls := (gmap string (list StructField)).

Inductive Value :=
| VNil                                              (* the nil interface *)
| VBool (b : bool)
| VInt (n : Z)                                      (* int *)
| VNum (k : Reflect.Kind) (n : Z)                   (* fixed-size number *)
| VString (s : string)
| VSlice (elem : GoType) (l : option (list Value))  (* None: nil slice *)
| VMap (key elem : GoType) (m : option (list (Value * Value)))
| VAttrs (m : gmap string Value)                    (* map[string]interface{} *)
| VPtr (elem : GoType) (p : option Value)           (* None: nil pointer *)
| VStruct (key : string) (fields : list Value).

(** A [VNum k n] of an integer kind holds the integer [n]; of a float or
    complex kind, the IEEE-754 bit pattern as [binary.Write] lays it out
    (real part first). A [VMap] lists its entries in the order a traversal
    enumerates them; a non-nil [map[string]interface{}] is always a
    [VAttrs]. *)

Abbreviation TString := (TBasic Reflect.String).
Abbreviation TAttrs := (TMap TString TInterface).

Definition is_nil (v : Value) : bool :=
  match v with VNil => true | _ => false end.

(** [reflect.TypeOf]; [None] is the nil [reflect.Type] of a nil interface. *)
Definition TypeOf (v : Value) : option GoType :=
  match v with
  | VNil => None
  | VBool _ => Some (TBasic Reflect.Bool)
  | VInt _ => Some (TBasic Reflect.Int)
  | VNum k _ => Some (TBasic k)
  | VString _ => Some TString
  | VSlice e _ => Some (TSlice e)
  | VMap k e _ => Some (TMap k e)
  | VAttrs _ => Some TAttrs
  | VPtr e _ => Some (TPtr e)
  | VStruct key _ => Some (TStruct key)
  end.

(** [typ.Kind()]. *)
Definition KindOf (t : GoType) : Reflect.Kind :=
  match t with
  | TBasic k => k
  | TSlice _ => Reflect.Slice
  | TMap _ _ => Reflect.Map
  | TPtr _ => Reflect.Ptr
  | TStruct _ => Reflect.Struct
  | TInterface => Reflect.Interface
  | TOther k => k
  end.

(** [typ.PkgPath() + "/" + typ.Name()]: the identity key of a struct, and
    ["/"] followed by the name for a predeclared type; unnamed types have
    neither path nor name. *)
Definition typeKey (t : GoType) : string :=
  match t with
  | TStruct key => key
  | TBasic k => "/" ++ Reflect.name k
  | _ => "/"
  end.

(** Panics: one constructor per message the package raises, and
    [RuntimePanic] for those of the Go runtime and of [reflect] (failed type
    assertion, nil dereference, index out of range, misuse of a
    [reflect.Value]). *)
Inductive Panic :=
| BoolEncodeError
| BoolDecodeError (err : IOError)
| BoolByteNeither0Nor1 (b : Z)
| StringLengthEncodeError
| CouldntReadStringLength (err : IOError)
| RuneReadError (err : IOError)
| CouldntReadSliceLength (err : IOError)
| CouldntReadKeyCount (err : IOError)
| CouldntReadPtrNilByte (err : IOError)
| FixedSizeEncodeError (err : IOError)
| FixedSizeDecodeError (err : IOError)
| IncompatibleStructs (valName structName : string)
| UnsupportedEncodeKind (kind : Z)
| UnsupportedDecodeKind (kind : Z)
| CantCreateMapValue (ft : fieldType)
| CantMakeFieldType (k : Reflect.Kind)
| RuntimePanic (what : string).

(** [TypeError], by message. *)
Inductive TypeError :=
| NoVersionsRegistered (name : string)      (* "No versions registered for %s" *)
| ObjectVersionHasNoExemplar (version : Z)  (* "Object version has no exemplar: %d" *)
| VersionNotRegistered (version : Z)        (* "Version not registered: %d" *)
| ErrorDecodingInitialVersion (version : Z) (err : TypeError)
                                  (* "Error decoding initial version %d: %v" *)
| NoUpgrader (vfrom vto objectVersion : Z)
                      (* "No upgrader for %d -> %d (object version %d)" *)
| UpgraderError (err : string)              (* "Upgrader error: %v" *)
| VersionAlreadyExists                      (* "Version already exists" *)
| EncodingFailed (e : Panic)                (* "Encoding failed: %v" *)
| DecodingFailed (e : Panic).               (* "Decoding failed: %v" *)

(** What a call can come to: a result, an error return, a panic that
    leaves the function, or no return within the fuel. *)
Inductive Outcome (A : Type) :=
| Ok (a : A)
| Err (e : TypeError)
| Panicked (p : Panic)
| OutOfFuel.

Arguments Ok {A} a.
Arguments Err {A} e.
Arguments Panicked {A} p.
Arguments OutOfFuel {A}.

Definition bind {A B} (m : Outcome A) (k : A -> Outcome B) : Outcome B :=
  match m with
  | Ok a => k a
  | Err e => Err e
  | Panicked p => Panicked p
  | OutOfFuel => OutOfFuel
  end.

Notation "'let*' x ':=' m 'in' k" := (bind m (fun x => k))
  (at level 10, x name, m at level 100, k at level 200).

Notation "'let*' ( x , y ) ':=' m 'in' k" :=
  (bind m (fun xy => let '(x, y) := xy in k))
  (at level 10, x name, y name, m at level 100, k at level 200).

(** A loop over a slice that threads a state and stops at the first
    outcome that is not a result. *)
Fixpoint foldM {A S} (f : S -> A -> Outcome S) (l : list A) (s : S)
  : Outcome S :=
  match l with
  | [] => Ok s
  | x :: l' => let* s' := f s x in foldM f l' s'
  end.

Fixpoint mapM {A B} (f : A -> Outcome B) (l : list A) : Outcome (list B) :=
  match l with
  | [] => Ok []
  | x :: l' => let* y := f x in let* ys := mapM f l' in Ok (y :: ys)
  end.

(** [ft.Elem[i]], which panics out of range. *)
Definition ElemAt (ft : fieldType) (i : nat) : Outcome fieldType :=
  match nth_error (Elem ft) i with
  | Some e => Ok e
  | None => Panicked (RuntimePanic "index out of range")
  end.

(** [structs[name].Elem]: a missing key and the nil sentinel both yield a
    nil [*fieldType], whose dereference panics. *)
Definition structElems (structs : structMap) (name : string)
  : Outcome (list fieldType) :=
  match structs !! name with
  | Some (Some structFt) => Ok (Elem structFt)
  | _ => Panicked (RuntimePanic "nil pointer dereference")
  end.

Definition isIgnored (ft : fieldType) : bool :=
  bool_decide (Reflect.of_uint8 (Kind ft) = Reflect.IGNORED_FIELD).

Section Codec.

(** The struct declarations of the program the codec runs in. *)
Variable decls : Decls.

(** The zero value of a type. *)
Fixpoint Zero (fuel : nat) (t : GoType) : Outcome Value :=
  match fuel with
  | O => OutOfFuel
  | S n =>
      match t with
      | TBasic Reflect.Bool => Ok (VBool false)
      | TBasic Reflect.Int => Ok (VInt 0)
      | TBasic Reflect.String => Ok (VString "")
      | TBasic k => Ok (VNum k 0)
      | TSlice e => Ok (VSlice e None)
      | TMap k e => Ok (VMap k e None)
      | TPtr e => Ok (VPtr e None)
      | TStruct key =>
          match decls !! key with
          | Some fs =>
              let* zs := mapM (fun f => Zero n (FieldType_ f)) fs in
              Ok (VStruct key zs)
          | None => Panicked (RuntimePanic "undeclared struct type")
          end
      | TInterface => Ok VNil
      | TOther _ => Ok VNil
      end
  end.

(** [reflect.New(t).Interface()]: a pointer to a fresh zero value. *)
Definition reflect_New (fuel : nat) (t : GoType) : Outcome Value :=
  let* z := Zero fuel t in Ok (VPtr t (Some z)).

(** *** The type-spec builder *)

Definition structReference (structName : string) : fieldType :=
  FieldType (Reflect.to_uint8 Reflect.STRUCT_REFERENCE) [] "" structName.

Definition setLabel (ft : fieldType) (name : string) : fieldType :=
  FieldType (Kind ft) (Elem ft) name (StructName ft).

Fixpoint makeFieldType (fuel : nat) (typ : GoType) (structs : structMap)
  : Outcome (fieldType * structMap) :=
  match fuel with
  | O => OutOfFuel
  | S n =>
      match typ with
      | TBasic k =>
          if Reflect.fixedSize k
             || bool_decide (k = Reflect.Bool)
             || bool_decide (k = Reflect.String)
          then Ok (kind_node k, structs)
          else Panicked (CantMakeFieldType k)
      | TSlice e =>
          let* (elemType, structs) := makeFieldType n e structs in
          Ok (FieldType (Reflect.to_uint8 Reflect.Slice) [elemType] "" "",
              structs)
      | TPtr e =>
          let* (elemType, structs) := makeFieldType n e structs in
          Ok (FieldType (Reflect.to_uint8 Reflect.Ptr) [elemType] "" "",
              structs)
      | TStruct structName =>
          match structs !! structName with
          | Some _ => Ok (structReference structName, structs)
          | None =>
              match decls !! structName with
              | None => Panicked (RuntimePanic "undeclared struct type")
              | Some fields =>
                  let structs := <[structName := None]> structs in
                  let* (elems, structs) :=
                    foldM (fun '(elems, structs) field =>
                             if String.eqb (FieldTag field) "ignore" then
                               Ok (elems ++
                                   [FieldType
                                      (Reflect.to_uint8 Reflect.IGNORED_FIELD)
                                      [] (FieldName field) ""], structs)
                             else
                               let* (ft, structs) :=
                                 makeFieldType n (FieldType_ field) structs in
                               Ok (elems ++ [setLabel ft (FieldName field)],
                                   structs))
                          fields ([], structs) in
                  let structFt :=
                    FieldType (Reflect.to_uint8 Reflect.Struct) elems "" "" in
                  Ok (structReference structName,
                      <[structName := Some structFt]> structs)
              end
          end
      | TMap k e =>
          let* (keyType, structs) := makeFieldType n k structs in
          let* (valType, structs) := makeFieldType n e structs in
          Ok (FieldType (Reflect.to_uint8 Reflect.Map) [keyType; valType] "" "",
              structs)
      | TInterface | TOther _ => Panicked (CantMakeFieldType (KindOf typ))
      end
  end.

(** [MakeTypeSpec]: a nil exemplar has a nil [reflect.Type], whose [Kind()]
    panics. *)
Definition MakeTypeSpec (fuel : nat) (exemplar : Value) : Outcome TypeSpec :=
  match TypeOf exemplar with
  | None => Panicked (RuntimePanic "nil pointer dereference")
  | Some typ =>
      let* (top, structs) := makeFieldType fuel typ ∅ in
      Ok {| Structs := structs; Top := top |}
  end.

(** *** Encoding *)

(** [int(f)] for an [f float64] given by its bit pattern: truncation toward
    zero; a value that does not fit yields the smallest [int], as the
    conversion does on amd64. *)
Definition float64_to_int (bits : Z) : Z :=
  let e := Z.land (Z.shiftr bits 52) 2047 in
  let m := Z.land bits (2 ^ 52 - 1) in
  if e =? 0 then 0
  else if e =? 2047 then - 2 ^ 63
  else
    let mag := if 1075 <=? e then Z.shiftl (2 ^ 52 + m) (e - 1075)
               else Z.shiftr (2 ^ 52 + m) (1075 - e) in
    let v := if Z.testbit bits 63 then - mag else mag in
    if (- 2 ^ 63 <=? v) && (v <? 2 ^ 63) then v else - 2 ^ 63.

Definition convertIntToFixedSize (field : Z) (kind : Reflect.Kind) : Value :=
  match kind with
  | Reflect.Int8 => VNum Reflect.Int8 (wrap_signed 8 field)
  | Reflect.Int16 => VNum Reflect.Int16 (wrap_signed 16 field)
  | Reflect.Int32 => VNum Reflect.Int32 (wrap_signed 32 field)
  | Reflect.Int64 => VNum Reflect.Int64 (wrap_signed 64 field)
  | Reflect.Uint8 => VNum Reflect.Uint8 (wrap_unsigned 8 field)
  | Reflect.Uint16 => VNum Reflect.Uint16 (wrap_unsigned 16 field)
  | Reflect.Uint32 => VNum Reflect.Uint32 (wrap_unsigned 32 field)
  | Reflect.Uint64 => VNum Reflect.Uint64 (wrap_unsigned 64 field)
  | _ => VInt field
  end.

Definition convertFloatToFixedSize (field : Z) (kind : Reflect.Kind) : Value :=
  match kind with
  | Reflect.Int8 | Reflect.Int16 | Reflect.Int32 | Reflect.Int64
  | Reflect.Uint8 | Reflect.Uint16 | Reflect.Uint32 | Reflect.Uint64 =>
      convertIntToFixedSize (float64_to_int field) kind
  | _ => VNum Reflect.Float64 field
  end.

(** [binary.Write(writer, binary.BigEndian, data)] on the scalar data of
    this model: a fixed-size number, a boolean, or a pointer to one. Its
    width is that of the dynamic type of [data]. *)
Definition binary_Write (data : Value) : IOError + bytes :=
  let scalar v :=
    match v with
    | VNum k n =>
        if Reflect.fixedSize k then inr (be_bytes (Reflect.size k) n)
        else inl ErrInvalidType
    | VBool b => inr [if b then 1 else 0]
    | _ => inl ErrInvalidType
    end in
  match data with
  | VPtr _ (Some v) => scalar v
  | _ => scalar data
  end.

Definition encodeFixedSize (field : Value) (kind : Z) : Outcome bytes :=
  let field :=
    match field with
    | VInt n => convertIntToFixedSize n (Reflect.of_uint8 kind)
    | VNum Reflect.Float64 f => convertFloatToFixedSize f (Reflect.of_uint8 kind)
    | _ => field
    end in
  match binary_Write field with
  | inr out => Ok out
  | inl err => Panicked (FixedSizeEncodeError err)
  end.

Definition writeLength (length : nat) : bytes := PutUvarint (Z.of_nat length).

(** [reflect.ValueOf(field).Len()], which panics on a value that has no
    length. *)
Definition reflect_Len (field : Value) : Outcome nat :=
  match field with
  | VString s => Ok (String.length s)
  | VSlice _ l => Ok (length (default [] l))
  | VMap _ _ m => Ok (length (default [] m))
  | VAttrs m => Ok (size m)
  | _ => Panicked (RuntimePanic "reflect: call of reflect.Value.Len")
  end.

(** The values [val.Index(i).Interface()] ranges over. *)
Definition reflect_Elems (field : Value) : Outcome (list Value) :=
  match field with
  | VString s => Ok (map (VNum Reflect.Uint8) (bytes_of_string s))
  | VSlice _ l => Ok (default [] l)
  | _ => Panicked (RuntimePanic "reflect: call of reflect.Value.Index")
  end.

(** The pairs [val.MapKeys()] and [val.MapIndex(key)] range over. Go leaves
    the order of [MapKeys] open; an attribute map is enumerated here in the
    order of [map_to_list]. *)
Definition reflect_MapEntries (field : Value) : Outcome (list (Value * Value)) :=
  match field with
  | VMap _ _ m => Ok (default [] m)
  | VAttrs m => Ok (map (fun kv => (VString kv.1, kv.2)) (map_to_list m))
  | _ => Panicked (RuntimePanic "reflect: call of reflect.Value.MapKeys")
  end.

(** [reflect.Indirect(reflect.ValueOf(field))]: the static type and the
    value behind a pointer, the value itself otherwise. [None] is the
    invalid [reflect.Value] of a nil interface or nil pointer. *)
Definition reflect_Indirect (field : Value) : option (GoType * Value) :=
  match field with
  | VNil => None
  | VPtr _ None => None
  | VPtr t (Some x) => Some (t, x)
  | _ => match TypeOf field with Some t => Some (t, field) | None => None end
  end.

(** [mapVal[label]] on the [map[string]interface{}] behind [x]. *)
Definition attrLookup (x : Value) (label : string) : Value :=
  match x with
  | VAttrs m => default VNil (m !! label)
  | _ => VNil
  end.

(** [val.Field(i)] for a [val] of static type [t], which panics unless
    [val] is a struct with more than [i] fields. *)
Definition reflect_Field (t : GoType) (x : Value) (i : nat) : Outcome Value :=
  match t, x with
  | TStruct _, VStruct _ fields =>
      match nth_error fields i with
      | Some f => Ok f
      | None => Panicked (RuntimePanic "reflect: Field index out of range")
      end
  | _, _ => Panicked (RuntimePanic "reflect: call of reflect.Value.Field")
  end.

Fixpoint encodeFieldInner (fuel : nat) (field : Value) (ft : fieldType)
  (structs : structMap) : Outcome bytes :=
  match fuel with
  | O => OutOfFuel
  | S n =>
      match Reflect.of_uint8 (Kind ft) with
      | Reflect.Int8 | Reflect.Int16 | Reflect.Int32 | Reflect.Int64
      | Reflect.Uint8 | Reflect.Uint16 | Reflect.Uint32 | Reflect.Uint64
      | Reflect.Float32 | Reflect.Float64
      | Reflect.Complex64 | Reflect.Complex128 =>
          encodeFixedSize field (Kind ft)

      | Reflect.Bool =>
          match field with
          | VBool true => Ok [1]
          | VBool false => Ok [0]
          | _ => Panicked (RuntimePanic "interface conversion")
          end

      | Reflect.String =>
          match field with
          | VString str =>
              Ok (writeLength (String.length str) ++ bytes_of_string str)
          | _ => Panicked (RuntimePanic "interface conversion")
          end

      | Reflect.Slice =>
          let* sliceLen := reflect_Len field in
          match sliceLen with
          | O => Ok (writeLength 0)
          | _ =>
              let* elems := reflect_Elems field in
              let* elemFt := ElemAt ft 0 in
              let* outs :=
                mapM (fun v => encodeFieldInner n v elemFt structs) elems in
              Ok (writeLength sliceLen ++ concat outs)
          end

      | Reflect.Map =>
          let* keyCount := reflect_Len field in
          let* entries := reflect_MapEntries field in
          let* outs :=
            mapM (fun kv : Value * Value =>
                    let* keyFt := ElemAt ft 0 in
                    let* k := encodeFieldInner n kv.1 keyFt structs in
                    let* valFt := ElemAt ft 1 in
                    let* v := encodeFieldInner n kv.2 valFt structs in
                    Ok (k ++ v))
                 entries in
          Ok (writeLength keyCount ++ concat outs)

      | Reflect.Ptr =>
          match field with
          | VNil | VPtr _ None | VMap _ _ None | VSlice _ None => Ok [0]
          | VPtr _ (Some v) =>
              let* elemFt := ElemAt ft 0 in
              let* out := encodeFieldInner n v elemFt structs in
              Ok (1 :: out)
          | VMap _ _ (Some _) | VAttrs _ | VSlice _ (Some _) =>
              let* elemFt := ElemAt ft 0 in
              let* out := encodeFieldInner n field elemFt structs in
              Ok (1 :: out)
          | _ => Panicked (RuntimePanic "reflect: call of reflect.Value.IsNil")
          end

      | Reflect.IGNORED_FIELD => Ok []

      | Reflect.STRUCT_REFERENCE =>
          match reflect_Indirect field with
          | None => Panicked (RuntimePanic "reflect: call of Type on zero Value")
          | Some (t, val) =>
              if bool_decide (KindOf t = Reflect.Map) then
                if bool_decide (t = TAttrs) then
                  let* elems := structElems structs (StructName ft) in
                  foldM (fun out fieldFt =>
                           if isIgnored fieldFt then Ok out
                           else
                             let fieldVal := attrLookup val (Label fieldFt) in
                             let* o :=
                               encodeFieldInner n fieldVal fieldFt structs in
                             Ok (out ++ o))
                        elems []
                else Panicked (RuntimePanic "interface conversion")
              else
                let valName := typeKey t in
                if negb (String.eqb valName (StructName ft)) then
                  Panicked (IncompatibleStructs valName (StructName ft))
                else
                  let* elems := structElems structs (StructName ft) in
                  let* (_, out) :=
                    foldM (fun '(i, out) fieldFt =>
                             if isIgnored fieldFt then Ok (S i, out)
                             else
                               let* fieldVal := reflect_Field t val i in
                               let* o :=
                                 encodeFieldInner n fieldVal fieldFt structs in
                               Ok (S i, out ++ o))
                          elems (O, []) in
                  Ok out
          end

      | _ => Panicked (UnsupportedEncodeKind (Kind ft))
      end
  end.

(** [SafeEncodeField]: a panic of the traversal is recovered into a
    [TypeError]; on success the bytes written are returned. *)
Definition SafeEncodeField (fuel : nat) (field : Value) (ts : TypeSpec)
  : Outcome bytes :=
  match encodeFieldInner fuel field (Top ts) (Structs ts) with
  | Panicked e => Err (EncodingFailed e)
  | r => r
  end.

(** [encodeField], the unprotected entry the tests use. *)
Definition encodeField (fuel : nat) (field : Value) (ts : TypeSpec)
  : Outcome bytes :=
  encodeFieldInner fuel field (Top ts) (Structs ts).

(** *** Decoding *)

(** [binary.Read(reader, binary.BigEndian, field)] on the scalar targets of
    this model: a pointer to a fixed-size number or to a boolean. The
    number of bytes read is the width of the pointee. *)
Definition binary_Read (field : Value) (reader : bytes)
  : Outcome (Value * bytes) :=
  let read (k : Reflect.Kind) (nonnil : bool) (mk : bytes -> Value) :=
    let size := if bool_decide (k = Reflect.Bool) then 1%nat
                else Reflect.size k in
    match readFull size reader with
    | None =>
        Panicked (FixedSizeDecodeError
                    (match reader with [] => EOF | _ => ErrUnexpectedEOF end))
    | Some (bs, rest) =>
        if nonnil then Ok (VPtr (TBasic k) (Some (mk bs)), rest)
        else Panicked (RuntimePanic "nil pointer dereference")
    end in
  match field with
  | VPtr (TBasic k) p =>
      if Reflect.fixedSize k then
        read k (bool_decide (p <> None))
             (fun bs => VNum k (if Reflect.signed k
                                then wrap_signed (8 * Z.of_nat (Reflect.size k))
                                                 (be_value bs)
                                else be_value bs))
      else if bool_decide (k = Reflect.Bool) then
        read k (bool_decide (p <> None))
             (fun bs => VBool (negb (be_value bs =? 0)))
      else Panicked (FixedSizeDecodeError ErrInvalidType)
  | _ => Panicked (FixedSizeDecodeError ErrInvalidType)
  end.

(** The runes of a string of [byteLen] bytes. The reader shrinks at every
    rune read, so its initial length bounds the loop; at the bound it is
    empty and [ReadRune] reports [EOF]. The allocation of the rune buffer,
    which precedes the loop, is taken to succeed. *)
Fixpoint readRunes (bound : nat) (byteLen byteCount : Z) (reader : bytes)
  (runes : list Z) : IOError + (list Z * bytes) :=
  if byteCount <? byteLen then
    match bound with
    | O => inl EOF
    | S bound' =>
        match ReadRune reader with
        | inl err => inl err
        | inr (rune, n, rest) =>
            readRunes bound' byteLen (byteCount + n) rest (runes ++ [rune])
        end
    end
  else inr (runes, reader).

(** Key equality of a Go map, on the comparable values of this model.
    A pointer a decode allocates is equal to no other; floats compare as
    IEEE-754 numbers. *)
Definition float_eqb (expBits manBits : Z) (a b : Z) : bool :=
  let isNaN x :=
    (Z.land (Z.shiftr x manBits) (2 ^ expBits - 1) =? 2 ^ expBits - 1)
    && negb (Z.land x (2 ^ manBits - 1) =? 0) in
  let isZero x := Z.land x (2 ^ (expBits + manBits) - 1) =? 0 in
  negb (isNaN a) && negb (isNaN b) && ((a =? b) || (isZero a && isZero b)).

Definition num_eqb (k : Reflect.Kind) (a b : Z) : bool :=
  match k with
  | Reflect.Float32 => float_eqb 8 23 a b
  | Reflect.Float64 => float_eqb 11 52 a b
  | Reflect.Complex64 =>
      float_eqb 8 23 (Z.shiftr a 32) (Z.shiftr b 32)
      && float_eqb 8 23 (Z.land a (2 ^ 32 - 1)) (Z.land b (2 ^ 32 - 1))
  | Reflect.Complex128 =>
      float_eqb 11 52 (Z.shiftr a 64) (Z.shiftr b 64)
      && float_eqb 11 52 (Z.land a (2 ^ 64 - 1)) (Z.land b (2 ^ 64 - 1))
  | _ => a =? b
  end.

Fixpoint key_eqb (a b : Value) {struct a} : bool :=
  match a, b with
  | VNil, VNil => true
  | VBool x, VBool y => Bool.eqb x y
  | VInt x, VInt y => x =? y
  | VNum k x, VNum k' y => bool_decide (k = k') && num_eqb k x y
  | VString x, VString y => String.eqb x y
  | VPtr _ None, VPtr _ None => true
  | VStruct k fs, VStruct k' gs =>
      String.eqb k k'
      && (fix all2 (fs gs : list Value) : bool :=
            match fs, gs with
            | [], [] => true
            | f :: fs', g :: gs' => key_eqb f g && all2 fs' gs'
            | _, _ => false
            end) fs gs
  | _, _ => false
  end.

(** [m[k] = v] on the entries of a map. *)
Fixpoint SetMapIndex (m : list (Value * Value)) (k v : Value)
  : list (Value * Value) :=
  match m with
  | [] => [(k, v)]
  | (k', v') :: m' =>
      if key_eqb k' k then (k', v) :: m' else (k', v') :: SetMapIndex m' k v
  end.

(** [createMapValue]: a pointer to the fresh cell that receives a field
    decoded into an attribute map. *)
Fixpoint createMapValue (ft : fieldType) : Outcome Value :=
  match ft with
  | FieldType kind elem _ _ =>
      match Reflect.of_uint8 kind with
      | Reflect.Bool =>
          Ok (VPtr (TBasic Reflect.Bool) (Some (VBool false)))
      | Reflect.String => Ok (VPtr TString (Some (VString "")))
      | Reflect.Slice =>
          Ok (VPtr (TSlice TInterface) (Some (VSlice TInterface (Some []))))
      | Reflect.Map =>
          Ok (VPtr (TMap TInterface TInterface)
                (Some (VMap TInterface TInterface (Some []))))
      | Reflect.Ptr =>
          match elem with
          | e :: _ => createMapValue e
          | [] => Panicked (RuntimePanic "index out of range")
          end
      | Reflect.STRUCT_REFERENCE => Ok (VPtr TAttrs (Some (VAttrs ∅)))
      | k =>
          if Reflect.fixedSize k then Ok (VPtr (TBasic k) (Some (VNum k 0)))
          else Panicked (CantCreateMapValue ft)
      end
  end.

(** The value a pointer points to, and the pointer with that value
    replaced. A value that is not a pointer stands for itself: a map
    handed to the decoder is written in place. *)
Definition pointee (p : Value) : Value :=
  match p with
  | VPtr _ (Some c) => c
  | _ => p
  end.

Definition setPointee (p c : Value) : Value :=
  match p with
  | VPtr t (Some _) => VPtr t (Some c)
  | _ => c
  end.

(** A [reflect.Value] is addressable when it was reached through a
    pointer. *)
Definition addressable (field : Value) : bool :=
  match field with
  | VPtr _ (Some _) => true
  | _ => false
  end.

(** [dst = src] is allowed by [reflect] when the types agree or [dst] is
    [interface{}]. *)
Definition assignable (src dst : GoType) : bool :=
  bool_decide (src = dst) || bool_decide (dst = TInterface).

(** [val.SetMapIndex(reflect.ValueOf(key), cell.Elem())] on a map [val]
    for a string [key] and the content of the pointer [cell]. *)
Definition setAttr (val : Value) (key : string) (cell : Value)
  : Outcome Value :=
  match val, cell with
  | VAttrs m, VPtr _ (Some c) => Ok (VAttrs (<[key := c]> m))
  | VMap kt vt (Some es), VPtr t (Some c) =>
      if assignable TString kt && assignable t vt
      then Ok (VMap kt vt (Some (SetMapIndex es (VString key) c)))
      else Panicked (RuntimePanic "reflect.Value.SetMapIndex: not assignable")
  | VMap _ _ None, _ =>
      Panicked (RuntimePanic "assignment to entry in nil map")
  | _, _ => Panicked (RuntimePanic "reflect: call of reflect.Value.Elem")
  end.

(** [resultv.Set(reflect.MakeMap(resultv.Type()))] when [resultv] is nil. *)
Definition makeMapIfNil (cell : Value) : Value :=
  match cell with
  | VMap kt vt None =>
      if bool_decide (TMap kt vt = TAttrs) then VAttrs ∅
      else VMap kt vt (Some [])
  | _ => cell
  end.

(** [resultv.SetMapIndex(keyp.Elem(), valp.Elem())]. *)
Definition setEntry (cell k v : Value) : Value :=
  match cell with
  | VAttrs m =>
      match k with VString s => VAttrs (<[s := v]> m) | _ => cell end
  | VMap kt vt m => VMap kt vt (Some (SetMapIndex (default [] m) k v))
  | _ => cell
  end.

Fixpoint repeatM {S} (count : nat) (f : S -> Outcome S) (s : S) : Outcome S :=
  match count with
  | O => Ok s
  | S count' => let* s' := f s in repeatM count' f s'
  end.

(** The static type of field [i] of the struct declared under [key]. *)
Definition fieldTypeAt (key : string) (i : nat) : Outcome GoType :=
  match decls !! key with
  | Some fs =>
      match nth_error fs i with
      | Some f => Ok (FieldType_ f)
      | None => Panicked (RuntimePanic "reflect: Field index out of range")
      end
  | None => Panicked (RuntimePanic "undeclared struct type")
  end.

(** [decodeFieldInner]: the target [field] as the traversal leaves it and
    the bytes not yet read. What a panic leaves behind in the target is not
    recorded. *)
Fixpoint decodeFieldInner (fuel : nat) (field : Value) (ft : fieldType)
  (structs : structMap) (reader : bytes) : Outcome (Value * bytes) :=
  match fuel with
  | O => OutOfFuel
  | S n =>
      match Reflect.of_uint8 (Kind ft) with
      | Reflect.Int8 | Reflect.Int16 | Reflect.Int32 | Reflect.Int64
      | Reflect.Uint8 | Reflect.Uint16 | Reflect.Uint32 | Reflect.Uint64
      | Reflect.Float32 | Reflect.Float64
      | Reflect.Complex64 | Reflect.Complex128 =>
          binary_Read field reader

      | Reflect.Bool =>
          match reader with
          | [] => Panicked (BoolDecodeError EOF)
          | byte :: rest =>
              let store (b : bool) :=
                match field with
                | VPtr (TBasic Reflect.Bool) (Some _) =>
                    Ok (VPtr (TBasic Reflect.Bool) (Some (VBool b)), rest)
                | VPtr (TBasic Reflect.Bool) None =>
                    Panicked (RuntimePanic "nil pointer dereference")
                | _ => Panicked (RuntimePanic "interface conversion")
                end in
              if byte =? 0 then store false
              else if byte =? 1 then store true
              else Panicked (BoolByteNeither0Nor1 byte)
          end

      | Reflect.String =>
          match ReadUvarint reader with
          | inl err => Panicked (CouldntReadStringLength err)
          | inr (byteLen, reader) =>
              match readRunes (length reader) byteLen 0 reader [] with
              | inl err => Panicked (RuneReadError err)
              | inr (runes, rest) =>
                  match field with
                  | VPtr (TBasic Reflect.String) (Some _) =>
                      Ok (VPtr TString (Some (VString (string_of_runes runes))),
                          rest)
                  | VPtr (TBasic Reflect.String) None =>
                      Panicked (RuntimePanic "nil pointer dereference")
                  | _ => Panicked (RuntimePanic "interface conversion")
                  end
              end
          end

      | Reflect.Slice =>
          match ReadUvarint reader with
          | inl err => Panicked (CouldntReadSliceLength err)
          | inr (elemCount64, reader) =>
              let elemCount := wrap_signed 64 elemCount64 in
              match field with
              | VPtr (TSlice elemt) (Some (VSlice _ old)) =>
                  let* (elems, rest) :=
                    repeatM (Z.to_nat elemCount)
                      (fun '(elems, reader) =>
                         let* elemp :=
                           if bool_decide (KindOf elemt = Reflect.Interface)
                           then let* elemFt := ElemAt ft 0 in
                                createMapValue elemFt
                           else reflect_New n elemt in
                         let* elemFt := ElemAt ft 0 in
                         let* (elemp, reader) :=
                           decodeFieldInner n elemp elemFt structs reader in
                         Ok (elems ++ [pointee elemp], reader))
                      ([], reader) in
                  if elemCount <? 0 then
                    Panicked (RuntimePanic "reflect: slice index out of bounds")
                  else if elemCount =? 0 then
                    Ok (VPtr (TSlice elemt)
                          (Some (VSlice elemt
                                   (match old with None => None
                                                 | Some _ => Some [] end))),
                        rest)
                  else
                    Ok (VPtr (TSlice elemt) (Some (VSlice elemt (Some elems))),
                        rest)
              | _ => Panicked (RuntimePanic "reflect: target is not a slice")
              end
          end

      | Reflect.Map =>
          match ReadUvarint reader with
          | inl err => Panicked (CouldntReadKeyCount err)
          | inr (keyCount64, reader) =>
              let keyCount := wrap_signed 64 keyCount64 in
              match field with
              | VPtr (TMap keyt valt) (Some resultv) =>
                  let* (resultv, rest) :=
                    repeatM (Z.to_nat keyCount)
                      (fun '(resultv, reader) =>
                         let* keyp := reflect_New n keyt in
                         let* keyFt := ElemAt ft 0 in
                         let* (keyp, reader) :=
                           decodeFieldInner n keyp keyFt structs reader in
                         let* valp := reflect_New n valt in
                         let* valFt := ElemAt ft 1 in
                         let* (valp, reader) :=
                           decodeFieldInner n valp valFt structs reader in
                         Ok (setEntry resultv (pointee keyp) (pointee valp),
                             reader))
                      (makeMapIfNil resultv, reader) in
                  Ok (VPtr (TMap keyt valt) (Some resultv), rest)
              | _ => Panicked (RuntimePanic "reflect: target is not a map")
              end
          end

      | Reflect.Ptr =>
          match reader with
          | [] => Panicked (CouldntReadPtrNilByte EOF)
          | c :: rest =>
              if c =? 0 then Ok (field, rest)
              else
                let descend (target : Value) :=
                  let* elemFt := ElemAt ft 0 in
                  let* (target, rest) :=
                    decodeFieldInner n target elemFt structs rest in
                  Ok (setPointee field target, rest) in
                match reflect_Indirect field with
                | None =>
                    Panicked (RuntimePanic "reflect: IsNil on zero Value")
                | Some (TPtr u, VPtr _ None) =>
                    let* fresh := reflect_New n u in descend fresh
                | Some (TPtr _, target) => descend target
                | Some (TInterface, VNil) =>
                    Panicked (RuntimePanic "reflect: Elem of invalid type")
                | Some (TInterface, target) => descend target
                | Some (TMap _ _, VMap _ _ None)
                | Some (TSlice _, VSlice _ None) =>
                    Panicked (RuntimePanic "reflect.Set: not assignable")
                | Some (TMap _ _, target) | Some (TSlice _, target) =>
                    descend target
                | Some _ =>
                    Panicked (RuntimePanic "reflect: call of reflect.Value.IsNil")
                end
          end

      | Reflect.IGNORED_FIELD => Ok (field, reader)

      | Reflect.STRUCT_REFERENCE =>
          match reflect_Indirect field with
          | None => Panicked (RuntimePanic "reflect: call of Type on zero Value")
          | Some (t, val) =>
              if bool_decide (KindOf t = Reflect.Map) then
                let* elems := structElems structs (StructName ft) in
                let* (val, rest) :=
                  foldM (fun '(val, reader) fieldFt =>
                           if isIgnored fieldFt then Ok (val, reader)
                           else
                             let key := Label fieldFt in
                             let* fieldVal := createMapValue fieldFt in
                             let* (fieldVal, reader) :=
                               decodeFieldInner n fieldVal fieldFt structs
                                                reader in
                             let* val := setAttr val key fieldVal in
                             Ok (val, reader))
                        elems (val, reader) in
                Ok (setPointee field val, rest)
              else
                let valName := typeKey t in
                if negb (String.eqb valName (StructName ft)) then
                  Panicked (IncompatibleStructs valName (StructName ft))
                else
                  let* elems := structElems structs (StructName ft) in
                  let* (iv, rest) :=
                    foldM (fun '(i, val, reader) fieldFt =>
                             if isIgnored fieldFt then Ok (S i, val, reader)
                             else
                               let* f := reflect_Field t val i in
                               if negb (addressable field) then
                                 Panicked (RuntimePanic
                                   "reflect.Value.Addr of unaddressable value")
                               else
                                 let* ti := fieldTypeAt (typeKey t) i in
                                 let* (fieldVal, reader) :=
                                   decodeFieldInner n (VPtr ti (Some f)) fieldFt
                                                    structs reader in
                                 match val with
                                 | VStruct key fields =>
                                     Ok (S i,
                                         VStruct key
                                           (<[i := pointee fieldVal]> fields),
                                         reader)
                                 | _ => Ok (S i, val, reader)
                                 end)
                          elems (O, val, reader) in
                  Ok (setPointee field iv.2, rest)
          end

      | _ => Panicked (UnsupportedDecodeKind (Kind ft))
      end
  end.

(** [SafeDecodeField]: the target after decoding; a panic of the traversal
    is recovered into a [TypeError]. *)
Definition SafeDecodeField (fuel : nat) (field : Value) (ts : TypeSpec)
  (reader : bytes) : Outcome Value :=
  match decodeFieldInner fuel field (Top ts) (Structs ts) reader with
  | Ok (field, _) => Ok field
  | Panicked e => Err (DecodingFailed e)
  | Err e => Err e
  | OutOfFuel => OutOfFuel
  end.

(** [decodeField], the unprotected entry the tests use. *)
Definition decodeField (fuel : nat) (field : Value) (ts : TypeSpec)
  (reader : bytes) : Outcome (Value * bytes) :=
  decodeFieldInner fuel field (Top ts) (Structs ts) reader.

End Codec.

(** ** The versioned-type registry *)

(** An [UpgradeFunc] returns an object or an error; being user code it may
    also panic, and nothing recovers that. *)
Inductive UpgradeResult :=
| Upgraded (obj : Value)
| UpgradeFailed (err : string)
| UpgradePanicked (p : Panic).

Definition UpgradeFunc := Value -> UpgradeResult.

(** [Version]: the field [Version] of the source is [VersionNo] here; a nil
    [Exemplar] is [VNil] and a nil [Upgrader] is [None]. *)
Record Version := {
  VersionNo : Z;
  Spec : TypeSpec;
  Exemplar : Value;
  Upgrader : option UpgradeFunc
}.

Record VersionedType := {
  Name : string;
  Tag : Z;
  Versions : list Version;
  Dirty : bool
}.

Definition setVersions (vt : VersionedType) (vs : list Version) (dirty : bool)
  : VersionedType :=
  {| Name := Name vt; Tag := Tag vt; Versions := vs; Dirty := dirty |}.

(** [sort.Search(n, f)]: binary search for the least index in [0, n) at
    which [f] holds, [n] when there is none. The interval shrinks at every
    turn, so [n] turns are enough. *)
Fixpoint Search_loop (turns : nat) (f : nat -> bool) (i j : nat) : nat :=
  match turns with
  | O => i
  | S turns' =>
      if (i <? j)%nat then
        let h := Nat.div2 (i + j) in
        if negb (f h) then Search_loop turns' f (h + 1)%nat j
        else Search_loop turns' f i h
      else i
  end.

Definition sort_Search (n : nat) (f : nat -> bool) : nat :=
  Search_loop n f 0%nat n.

(** [sort.Sort(vt)] with [Less(i, j) = Versions[i].Version >
    Versions[j].Version]: the insertion sort that the library runs on a
    short slice. The elements are taken from left to right, and each moves
    left past the elements of smaller number only ([Less] is strict), so
    that of two versions with the same number the earlier stays first.
    [insertVersion v l] is that move on a prefix [l] already in order: [v]
    comes to stand before the first element smaller than it. (On a long
    slice the library sorts by a quicksort, which gives the same list
    whenever no two versions have the same number.) *)
Fixpoint insertVersion (v : Version) (l : list Version) : list Version :=
  match l with
  | [] => [v]
  | x :: l' =>
      if VersionNo x <? VersionNo v then v :: l else x :: insertVersion v l'
  end.

Definition sort_Sort (l : list Version) : list Version :=
  fold_left (fun sorted v => insertVersion v sorted) l [].

(** [getVersion]: [None] stands for the pair [(-1, nil)]. *)
Definition getVersion (vt : VersionedType) (v : Z) : option (nat * Version) :=
  let cmp (i : nat) :=
    match nth_error (Versions vt) i with
    | Some x => VersionNo x <=? v
    | None => false
    end in
  let idx := sort_Search (length (Versions vt)) cmp in
  match nth_error (Versions vt) idx with
  | Some x => if VersionNo x =? v then Some (idx, x) else None
  | None => None
  end.

Definition GetVersion (vt : VersionedType) (version : Z) : option Version :=
  option_map snd (getVersion vt version).

Definition AddVersionObj (vt : VersionedType) (v : Version) : VersionedType :=
  setVersions vt (sort_Sort (Versions vt ++ [v])) (Dirty vt).

(** [RegisterType] creates its entry so. *)
Definition newVersionedType (name : string) (tag : Z) : VersionedType :=
  {| Name := name; Tag := tag; Versions := []; Dirty := true |}.

Section Registry.

Variable decls : Decls.

(** [AddVersion]: the type after the call, or the error returned (the type
    is then unchanged). *)
Definition AddVersion (fuel : nat) (vt : VersionedType) (vers : Z)
  (exemplar : Value) (upgrader : option UpgradeFunc) : Outcome VersionedType :=
  match getVersion vt vers with
  | Some (idx, v) =>
      match Exemplar v, Upgrader v with
      | VNil, None =>
          Ok (setVersions vt
                (<[idx := {| VersionNo := VersionNo v; Spec := Spec v;
                             Exemplar := exemplar; Upgrader := upgrader |}]>
                   (Versions vt))
                (Dirty vt))
      | _, _ => Err VersionAlreadyExists
      end
  | None =>
      let* ft := MakeTypeSpec decls fuel exemplar in
      let vt := AddVersionObj vt {| VersionNo := vers; Spec := ft;
                                    Exemplar := exemplar;
                                    Upgrader := upgrader |} in
      Ok (setVersions vt (Versions vt) true)
  end.

(** [EncodeObj]. *)
Definition EncodeObj (fuel : nat) (vt : VersionedType) (obj : Value)
  : Outcome bytes :=
  match Versions vt with
  | [] => Err (NoVersionsRegistered (Name vt))
  | v :: _ =>
      let buf := be_bytes 2 (VersionNo v) in
      let* body := SafeEncodeField fuel obj (Spec v) in
      Ok (buf ++ body)
  end.

(** The loop of [upgradeObj]: from the index of the object's version down
    to the latest, each newer version's upgrader in turn. The source also
    prints a line per step, which is left out. *)
Fixpoint upgradeLoop (vt : VersionedType) (v : Version) (version : Z)
  (vIdx : nat) (obj : Value) : Outcome (Value * bool) :=
  match vIdx with
  | O => Ok (obj, true)
  | S vIdx =>
      match nth_error (Versions vt) vIdx with
      | None => Panicked (RuntimePanic "index out of range")
      | Some next =>
          match Upgrader next with
          | None => Err (NoUpgrader (VersionNo v) (VersionNo next) version)
          | Some upgrade =>
              match upgrade obj with
              | Upgraded obj => upgradeLoop vt v version vIdx obj
              | UpgradeFailed err => Err (UpgraderError err)
              | UpgradePanicked p => Panicked p
              end
          end
      end
  end.

(** The target [upgradeObj] allocates for a version. *)
Definition upgradeTarget (fuel : nat) (v : Version) : Outcome Value :=
  match TypeOf (Exemplar v) with
  | Some t => reflect_New decls fuel t
  | None => Ok (VAttrs ∅)
  end.

Definition upgradeObj (fuel : nat) (vt : VersionedType) (version : Z)
  (buf : bytes) : Outcome (Value * bool) :=
  match getVersion vt version with
  | None => Err (VersionNotRegistered version)
  | Some (vIdx, v) =>
      let* obj := upgradeTarget fuel v in
      match SafeDecodeField decls fuel obj (Spec v) buf with
      | Err err => Err (ErrorDecodingInitialVersion (VersionNo v) err)
      | Ok obj => upgradeLoop vt v version vIdx obj
      | Panicked p => Panicked p
      | OutOfFuel => OutOfFuel
      end
  end.

(** [DecodeObj]: the object and the [upgraded] flag. *)
Definition DecodeObj (fuel : nat) (vt : VersionedType) (encObj : bytes)
  (toMap : bool) : Outcome (Value * bool) :=
  match Versions vt with
  | [] => Err (NoVersionsRegistered (Name vt))
  | v :: _ =>
      let '(version, buf) := readVersion encObj in
      if negb (VersionNo v =? version) then upgradeObj fuel vt version buf
      else if is_nil (Exemplar v) then
        Err (ObjectVersionHasNoExemplar version)
      else
        let* target :=
          if toMap || is_nil (Exemplar v) then Ok (VAttrs ∅)
          else match TypeOf (Exemplar v) with
               | Some t => reflect_New decls fuel t
               | None => Panicked (RuntimePanic "reflect: New(nil)")
               end in
        let* target := SafeDecodeField decls fuel target (Spec v) buf in
        Ok (target, false)
  end.

(** The value of a [map[string]interface{}] argument; [None] is the nil
    map. *)
Definition attrsValue (obj : option (gmap string Value)) : Value :=
  match obj with
  | Some m => VAttrs m
  | None => VMap TString TInterface None
  end.

(** [DecodeInto]: the contents of the caller's map after a call that
    returned nil, or the error returned. A store into a nil map panics. *)
Definition DecodeInto (fuel : nat) (vt : VersionedType) (encObj : bytes)
  (obj : option (gmap string Value)) : Outcome (gmap string Value) :=
  match Versions vt with
  | [] => Err (NoVersionsRegistered (Name vt))
  | _ :: _ =>
      let '(version, buf) := readVersion encObj in
      match getVersion vt version with
      | None => Err (VersionNotRegistered version)
      | Some (_, v) =>
          let* obj := SafeDecodeField decls fuel (attrsValue obj) (Spec v) buf in
          match obj with
          | VAttrs m =>
              Ok (<["_version" := VNum Reflect.Uint16 (VersionNo v)]> m)
          | _ => Panicked (RuntimePanic "assignment to entry in nil map")
          end
      end
  end.

End Registry.

(** ** The specification's side *)

(** (I5), (I6): the versions are strictly descending, so unique and with
    the latest first. *)
Fixpoint descending (l : list Version) : bool :=
  match l with
  | [] => true
  | x :: l' =>
      forallb (fun y => VersionNo y <? VersionNo x) l' && descending l'
  end.

(** The upgrade state machine in the specification's words: for the known
    versions above the object's own, in ascending order, call the next
    version's upgrader with the current object and go on with what it
    returns; a step whose upgrader is absent fails. *)
Fixpoint applyUpgraders (own objectVersion : Z) (steps : list Version)
  (obj : Value) : Outcome (Value * bool) :=
  match steps with
  | [] => Ok (obj, true)
  | next :: steps' =>
      match Upgrader next with
      | None => Err (NoUpgrader own (VersionNo next) objectVersion)
      | Some upgrade =>
          match upgrade obj with
          | Upgraded obj' => applyUpgraders own objectVersion steps' obj'
          | UpgradeFailed err => Err (UpgraderError err)
          | UpgradePanicked p => Panicked p
          end
      end
  end.

(** The same registry with other upgraders. *)
Definition setUpgrader (g : Version -> option UpgradeFunc) (v : Version)
  : Version :=
  {| VersionNo := VersionNo v; Spec := Spec v; Exemplar := Exemplar v;
     Upgrader := g v |}.

Definition withUpgraders (g : Version -> option UpgradeFunc)
  (vt : VersionedType) : VersionedType :=
  setVersions vt (map (setUpgrader g) (Versions vt)) (Dirty vt).

(** The spec of a value that is a lone boolean. *)
Definition boolSpec : TypeSpec :=
  {| Structs := ∅; Top := kind_node Reflect.Bool |}.

(** A type whose only version, number 258, is a lone boolean. *)
Definition flagVersion : Version :=
  {| VersionNo := 258; Spec := boolSpec; Exemplar := VBool false;
     Upgrader := None |}.

Definition flagType : VersionedType :=
  {| Name := "flag"; Tag := 3; Versions := [flagVersion]; Dirty := true |}.

(** ** The scenario of [TestUpgrade] *)

Module TestUpgrade.

Definition st0 : string := "spack/st0".
Definition st1 : string := "spack/st1".
Definition st2 : string := "spack/st2".

Definition field (name : string) (t : GoType) : StructField :=
  {| FieldName := name; FieldTag := ""; FieldType_ := t |}.

(** [type st0 struct { Name string }],
    [type st1 struct { Name string; Age uint16 }],
    [type st2 struct { Age uint16; Moniker string }]. *)
Definition decls : Decls :=
  <[st0 := [field "Name" TString]]>
    (<[st1 := [field "Name" TString; field "Age" (TBasic Reflect.Uint16)]]>
       (<[st2 := [field "Age" (TBasic Reflect.Uint16);
                  field "Moniker" TString]]> ∅)).

Definition fuel : nat := 8.

(** [obj["Age"] = 32]. *)
Definition st0to1 : UpgradeFunc := fun obj0 =>
  match obj0 with
  | VAttrs obj => Upgraded (VAttrs (<["Age" := VInt 32]> obj))
  | _ => UpgradePanicked (RuntimePanic "interface conversion")
  end.

(** [obj["Moniker"] = obj["Name"]; delete(obj, "Name")]. *)
Definition st1to2 : UpgradeFunc := fun obj1 =>
  match obj1 with
  | VAttrs obj =>
      Upgraded
        (VAttrs (delete "Name"
                   (<["Moniker" := default VNil (obj !! "Name")]> obj)))
  | _ => UpgradePanicked (RuntimePanic "interface conversion")
  end.

(** [vt.GetVersion(version).Exemplar = nil]. *)
Definition clearExemplar (vt : VersionedType) (version : Z)
  : Outcome VersionedType :=
  match getVersion vt version with
  | Some (idx, v) =>
      Ok (setVersions vt
            (<[idx := {| VersionNo := VersionNo v; Spec := Spec v;
                         Exemplar := VNil; Upgrader := Upgrader v |}]>
               (Versions vt))
            (Dirty vt))
  | None => Panicked (RuntimePanic "nil pointer dereference")
  end.

(** The type with version 0 alone, as the test first registers it. *)
Definition registered0 : Outcome VersionedType :=
  AddVersion decls fuel (newVersionedType "test" 2) 0
             (VStruct st0 [VString ""]) None.

(** [&st0{ "Brend" }]. *)
Definition brend : Value := VPtr (TStruct st0) (Some (VStruct st0 [VString "Brend"])).

(** The type with the three versions, exemplars present. *)
Definition registered (vt : VersionedType) : Outcome VersionedType :=
  let* vt := AddVersion decls fuel vt 1
               (VStruct st1 [VString ""; VNum Reflect.Uint16 0])
               (Some st0to1) in
  AddVersion decls fuel vt 2
             (VStruct st2 [VNum Reflect.Uint16 0; VString ""]) (Some st1to2).

(** The test from its first line to its last check: the encoding under
    version 0, the object decoded once versions 1 and 2 are installed and
    the exemplars of 0 and 1 cleared, its re-encoding, and that decoded. *)
Definition run : Outcome (bytes * (Value * bool) * bytes * (Value * bool)) :=
  let* vt := registered0 in
  let* enc := EncodeObj fuel vt brend in
  let* vt := registered vt in
  let* vt := clearExemplar vt 0 in
  let* vt := clearExemplar vt 1 in
  let* out := DecodeObj decls fuel vt enc false in
  let* enc2 := EncodeObj fuel vt out.1 in
  let* final := DecodeObj decls fuel vt enc2 false in
  Ok (enc, out, enc2, final).

(** The registry at the point of the first decode. *)
Definition registry : VersionedType :=
  match (let* vt := registered0 in
         let* vt := registered vt in
         let* vt := clearExemplar vt 0 in
         clearExemplar vt 1) with
  | Ok vt => vt
  | _ => newVersionedType "test" 2
  end.

(** The registry as the three calls of [AddVersion] leave it, every
    version with its exemplar. *)
Definition withExemplars : VersionedType :=
  match (let* vt := registered0 in registered vt) with
  | Ok vt => vt
  | _ => newVersionedType "test" 2
  end.

(** A type whose only version was loaded without its exemplar. *)
Definition loaded : VersionedType :=
  match (let* vt := registered0 in clearExemplar vt 0) with
  | Ok vt => vt
  | _ => newVersionedType "test" 2
  end.

(** Its versions, latest first. *)
Definition version (i : nat) : Version := nth i (Versions registry) flagVersion.

End TestUpgrade.

(** ** Keys, the type set, and the byte-level entries of the codec *)

(** [EncodeKey(tag, key)]. *)
Definition EncodeKey (tag : Z) (key : string) : bytes :=
  be_bytes 2 tag ++ bytes_of_string key.

(** The method [vt.EncodeKey(key)]. *)
Definition VersionedType_EncodeKey (vt : VersionedType) (key : string) : bytes :=
  EncodeKey (Tag vt) key.

Definition EncodeTag (vt : VersionedType) : bytes := be_bytes 2 (Tag vt).

(** [DecodeKey]: [string(encKey[2:])], which panics on fewer than two
    bytes. *)
Definition DecodeKey (vt : VersionedType) (encKey : bytes) : Outcome string :=
  if (2 <=? length encKey)%nat then Ok (string_of_bytes (skipn 2 encKey))
  else Panicked (RuntimePanic "slice bounds out of range").

(** [TypeSet]: the map holds the types that the pointers of the source
    point to. *)
Record TypeSet := {
  Types : gmap string VersionedType;
  LastTag : Z
}.

(** [RegisterType]: the set after the call and the type returned. The tag
    is a [uint16], so the successor of 65535 is 0. *)
Definition RegisterType (ts : TypeSet) (name : string)
  : TypeSet * VersionedType :=
  match Types ts !! name with
  | Some t => (ts, t)
  | None =>
      let tag := (LastTag ts + 1) mod 65536 in
      let t := newVersionedType name tag in
      ({| Types := <[name := t]> (Types ts); LastTag := tag |}, t)
  end.

(** The set [NewTypeSet] starts from. *)
Definition emptyTypeSet : TypeSet := {| Types := ∅; LastTag := 0 |}.

(** [HasTag]. *)
Definition HasTag (ts : TypeSet) (tag : Z) : bool :=
  existsb (fun kv : string * VersionedType => Tag kv.2 =? tag)
          (map_to_list (Types ts)).

(** The errors of [LoadType], which the source builds as [TypeError]s. *)
Inductive LoadError :=
| TagAlreadyExists (tag : Z)          (* "Tag already exists: %d" *)
| NameAlreadyExists (name : string).  (* "Name already exists: %s" *)

(** [LoadType]: the error returned, or the set after the call. *)
Definition LoadType (ts : TypeSet) (vt : VersionedType)
  : LoadError + TypeSet :=
  if HasTag ts (Tag vt) then inl (TagAlreadyExists (Tag vt))
  else
    match Types ts !! Name vt with
    | Some _ => inl (NameAlreadyExists (Name vt))
    | None =>
        inr {| Types := <[Name vt := vt]> (Types ts);
               LastTag := if LastTag ts <? Tag vt then Tag vt
                          else LastTag ts |}
    end.

(** [Type], which panics with "No such type: %s". *)
Definition TypeSet_Type (ts : TypeSet) (name : string) : Outcome VersionedType :=
  match Types ts !! name with
  | Some t => Ok t
  | None => Panicked (RuntimePanic ("No such type: " ++ name))
  end.

(** The struct types of the package itself, from which [NewTypeSet]
    derives the spec of ["_type"]. *)
Module Spack.

Definition VersionedType : string := "spack/VersionedType".
Definition Version : string := "spack/Version".
Definition TypeSpec : string := "spack/TypeSpec".
Definition fieldType : string := "spack/fieldType".

Definition field (name tag : string) (t : GoType) : StructField :=
  {| FieldName := name; FieldTag := tag; FieldType_ := t |}.

Definition decls : Decls :=
  <[VersionedType :=
      [field "Name" "" TString;
       field "Tag" "" (TBasic Reflect.Uint16);
       field "Versions" "" (TSlice (TPtr (TStruct Version)));
       field "Dirty" "ignore" (TBasic Reflect.Bool)]]>
    (<[Version :=
         [field "Version" "" (TBasic Reflect.Uint16);
          field "Spec" "" (TPtr (TStruct TypeSpec));
          field "Exemplar" "ignore" TInterface;
          field "Upgrader" "ignore" (TOther Reflect.Func)]]>
       (<[TypeSpec :=
            [field "Structs" "" (TMap TString (TPtr (TStruct fieldType)));
             field "Top" "" (TPtr (TStruct fieldType))]]>
          (<[fieldType :=
               [field "Kind" "" (TBasic Reflect.Uint8);
                field "Elem" "" (TSlice (TPtr (TStruct fieldType)));
                field "Label" "" TString;
                field "StructName" "" TString]]> ∅))).

(** [VersionedType{}]. *)
Definition exemplar : Value :=
  VStruct VersionedType
    [VString ""; VNum Reflect.Uint16 0;
     VSlice (TPtr (TStruct Version)) None; VBool false].

End Spack.

(** [NewTypeSet]: ["_type"] is registered and given version 0; the error
    [AddVersion] may return is dropped, as the source drops it. *)
Definition NewTypeSet (decls : Decls) (fuel : nat) : Outcome TypeSet :=
  let '(ts, typeType) := RegisterType emptyTypeSet "_type" in
  match AddVersion decls fuel typeType 0 Spack.exemplar None with
  | Ok typeType =>
      Ok {| Types := <["_type" := typeType]> (Types ts);
            LastTag := LastTag ts |}
  | Err _ => Ok ts
  | Panicked p => Panicked p
  | OutOfFuel => OutOfFuel
  end.

(** [EncodeToBytes] and [DecodeFromBytes]. *)
Definition EncodeToBytes (fuel : nat) (field : Value) (ts : TypeSpec)
  : Outcome bytes :=
  SafeEncodeField fuel field ts.

Definition DecodeFromBytes (decls : Decls) (fuel : nat) (field : Value)
  (ts : TypeSpec) (enc : bytes) : Outcome Value :=
  SafeDecodeField decls fuel field ts enc.

(** [kindType] and [kindSpec], with which the tests build the spec of a
    value of one kind. *)
Definition kindType (kind : Reflect.Kind) : fieldType :=
  FieldType (Reflect.to_uint8 kind) [] "" "".

Definition kindSpec (kind : Reflect.Kind) : TypeSpec :=
  {| Structs := ∅; Top := kindType kind |}.

(** ** Notions the further properties are stated with *)

(** (I8), with what [RegisterType] relies on to keep it: every type is
    filed under its name, no tag exceeds [LastTag], and no two types share
    a tag. *)
Definition TypeSet_wf (ts : TypeSet) : Prop :=
  (forall name vt, Types ts !! name = Some vt ->
                   Name vt = name /\ Tag vt <= LastTag ts)
  /\ (forall n1 n2 v1 v2,
        Types ts !! n1 = Some v1 -> Types ts !! n2 = Some v2 ->
        Tag v1 = Tag v2 -> n1 = n2).

(** The values a fixed-size kind holds: the integers of its width, or the
    bit patterns of its width for floats and complex numbers. *)
Definition inRange (k : Reflect.Kind) (n : Z) : Prop :=
  let bits := 8 * Z.of_nat (Reflect.size k) in
  if Reflect.signed k then - 2 ^ (bits - 1) <= n < 2 ^ (bits - 1)
  else 0 <= n < 2 ^ bits.

(** The integer kinds, to which a Go [int] is narrowed. *)
Definition integerKind (k : Reflect.Kind) : bool :=
  match k with
  | Reflect.Int8 | Reflect.Int16 | Reflect.Int32 | Reflect.Int64
  | Reflect.Uint8 | Reflect.Uint16 | Reflect.Uint32 | Reflect.Uint64 => true
  | _ => false
  end.

(** [int8(n)], ..., [uint64(n)] for an [n int]. *)
Definition narrow (k : Reflect.Kind) (n : Z) : Z :=
  let bits := 8 * Z.of_nat (Reflect.size k) in
  if Reflect.signed k then wrap_signed bits n else wrap_unsigned bits n.

(** The kinds the two traversals have a case for. *)
Definition supportedKind (k : Reflect.Kind) : bool :=
  Reflect.fixedSize k
  || match k with
     | Reflect.Bool | Reflect.String | Reflect.Slice | Reflect.Map
     | Reflect.Ptr | Reflect.IGNORED_FIELD | Reflect.STRUCT_REFERENCE => true
     | _ => false
     end.

(** A string of ASCII characters only. *)
Definition isASCII (s : string) : bool :=
  forallb (fun b => b <? 128) (bytes_of_string s).

(** A node refers only to structs the table has a key for: every
    struct-reference at or below it names a key of [structs]. *)
Fixpoint references_known (structs : structMap) (ft : fieldType) : Prop :=
  match ft with
  | FieldType kind elem _ structName =>
      (Reflect.of_uint8 kind = Reflect.STRUCT_REFERENCE ->
       is_Some (structs !! structName))
      /\ (fix all (l : list fieldType) : Prop :=
            match l with
            | [] => True
            | e :: l' => references_known structs e /\ all l'
            end) elem
  end.

(** A closed spec: in a spec every key of the table is bound to a struct body, no
    nil sentinel being left, and the top node and the bodies refer only to
    keys of the table; so every struct-reference resolves to a body. *)
Definition spec_closed (ts : TypeSpec) : Prop :=
  references_known (Structs ts) (Top ts)
  /\ forall key entry,
       Structs ts !! key = Some entry ->
       exists body,
         entry = Some body
         /\ Kind body = Reflect.to_uint8 Reflect.Struct
         /\ references_known (Structs ts) body.

(** The invariants of the struct table while [makeFieldType] runs: the
    table only gains keys; every body in it is a struct node whose
    references are keys of the table; and a nil sentinel present after a
    call was present before it. *)
Definition keys_le (s s' : structMap) : Prop :=
  forall k, is_Some (s !! k) -> is_Some (s' !! k).

Definition bodies_known (s : structMap) : Prop :=
  forall k b, s !! k = Some (Some b) ->
              Kind b = Reflect.to_uint8 Reflect.Struct /\ references_known s b.

Definition sentinels_le (s' s : structMap) : Prop :=
  forall k, s' !! k = Some None -> s !! k = Some None.

(** * Properties *)

(** ** Version lookup *)

Lemma div2_between (i j : nat) :
  (i < j)%nat -> (i <= Nat.div2 (i + j) < j)%nat.
Proof.
  intros Hij.
  pose proof (Nat.div2_odd (i + j)) as Hodd.
  destruct (Nat.odd (i + j)); simpl Nat.b2n in Hodd; lia.
Qed.

Section Search.

Variables (n : nat) (f : nat -> bool).

(** [f] is false up to some index and true from it on. *)
Hypothesis f_monotone :
  forall k k', (k <= k' < n)%nat -> f k = true -> f k' = true.

Lemma f_false_below (h k : nat) :
  (k <= h < n)%nat -> f h = false -> f k = false.
Proof.
  intros Hk Hh. destruct (f k) eqn:Hfk; [|reflexivity].
  rewrite (f_monotone k h Hk Hfk) in Hh. discriminate.
Qed.

Lemma Search_loop_least (turns i j : nat) :
  (i <= j <= n)%nat ->
  (j - i <= turns)%nat ->
  (forall k, (k < i)%nat -> f k = false) ->
  ((j < n)%nat -> f j = true) ->
  let r := Search_loop turns f i j in
  (r <= n)%nat /\ (forall k, (k < r)%nat -> f k = false)
  /\ ((r < n)%nat -> f r = true).
Proof.
  revert i j. induction turns as [|turns IH]; intros i j Hij Hturns Hlo Hhi.
  - simpl. assert (i = j) by lia. subst j. repeat split; auto; lia.
  - simpl. destruct (i <? j)%nat eqn:Hlt.
    + apply Nat.ltb_lt in Hlt.
      pose proof (div2_between i j Hlt) as Hh.
      destruct (f (Nat.div2 (i + j))) eqn:Hfh; simpl.
      * apply IH; [lia | lia | assumption | intros _; assumption].
      * apply IH; [lia | lia | | assumption].
        intros k Hk. apply (f_false_below (Nat.div2 (i + j))); [lia|assumption].
    + apply Nat.ltb_ge in Hlt. assert (i = j) by lia. subst j.
      repeat split; auto; lia.
Qed.

(** [sort.Search] returns the least index at which [f] holds. *)
Lemma sort_Search_least (i : nat) :
  (i < n)%nat -> f i = true -> (forall k, (k < i)%nat -> f k = false) ->
  sort_Search n f = i.
Proof.
  intros Hi Hfi Hbelow.
  destruct (Search_loop_least n 0 n) as (Hr & Hfalse & Htrue);
    [lia | lia | intros k Hk; lia | intros Hn; lia |].
  fold (sort_Search n f) in Hr, Hfalse, Htrue.
  destruct (Nat.lt_trichotomy (sort_Search n f) i) as [Hlt | [Heq | Hgt]].
  - rewrite Hbelow in Htrue by assumption.
    assert (false = true) by (apply Htrue; lia). discriminate.
  - assumption.
  - rewrite (Hfalse i Hgt) in Hfi. discriminate.
Qed.

End Search.

Lemma descending_nth (l : list Version) (i j : nat) (x y : Version) :
  descending l = true -> (i < j)%nat ->
  nth_error l i = Some x -> nth_error l j = Some y ->
  VersionNo y < VersionNo x.
Proof.
  revert i j. induction l as [|a l IH]; intros i j Hd Hij Hx Hy.
  - destruct i; discriminate.
  - simpl in Hd. apply andb_true_iff in Hd as [Hall Hd].
    destruct j as [|j]; [lia|]. simpl in Hy.
    destruct i as [|i]; simpl in Hx.
    + injection Hx as ->.
      rewrite forallb_forall in Hall.
      apply nth_error_In in Hy. apply Hall in Hy. lia.
    + apply (IH i j); auto. lia.
Qed.

(** What [getVersion] returns is an entry of the list bearing the number
    asked for. *)
Lemma getVersion_Some (vt : VersionedType) (v : Z) (idx : nat) (x : Version) :
  getVersion vt v = Some (idx, x) ->
  nth_error (Versions vt) idx = Some x /\ VersionNo x = v.
Proof.
  unfold getVersion. intros H.
  destruct (nth_error (Versions vt) _) as [y|] eqn:Hy; [|discriminate].
  destruct (VersionNo y =? v) eqn:Hv; [|discriminate].
  injection H as <- <-. split; [assumption | lia].
Qed.

(** A number no version bears is not found. *)
Lemma getVersion_absent (vt : VersionedType) (v : Z) :
  (forall x, In x (Versions vt) -> VersionNo x <> v) ->
  getVersion vt v = None.
Proof.
  intros Habs. destruct (getVersion vt v) as [[idx x]|] eqn:H; [|reflexivity].
  apply getVersion_Some in H as [Hx Hv].
  apply nth_error_In in Hx. exfalso. exact (Habs x Hx Hv).
Qed.

(** In a descending list the binary search finds every version. *)
Lemma getVersion_found (vt : VersionedType) (idx : nat) (x : Version) :
  descending (Versions vt) = true ->
  nth_error (Versions vt) idx = Some x ->
  getVersion vt (VersionNo x) = Some (idx, x).
Proof.
  intros Hd Hx. unfold getVersion.
  set (cmp := fun i : nat =>
                match nth_error (Versions vt) i with
                | Some x0 => VersionNo x0 <=? VersionNo x
                | None => false
                end).
  assert (Hlen : (idx < length (Versions vt))%nat)
    by (apply nth_error_Some; congruence).
  assert (Hmono : forall k k', (k <= k' < length (Versions vt))%nat ->
                               cmp k = true -> cmp k' = true).
  { intros k k' Hk. unfold cmp.
    destruct (nth_error (Versions vt) k) as [a|] eqn:Ha; [|discriminate].
    destruct (nth_error (Versions vt) k') as [b|] eqn:Hb.
    - intros Hle. apply Z.leb_le in Hle. apply Z.leb_le.
      destruct (Nat.eq_dec k k') as [->|Hne]; [congruence|].
      pose proof (descending_nth _ k k' a b Hd ltac:(lia) Ha Hb). lia.
    - apply nth_error_None in Hb. lia. }
  rewrite (sort_Search_least _ cmp Hmono idx).
  - rewrite Hx, Z.eqb_refl. reflexivity.
  - assumption.
  - unfold cmp. rewrite Hx. apply Z.leb_refl.
  - intros k Hk. unfold cmp.
    destruct (nth_error (Versions vt) k) as [a|] eqn:Ha; [|reflexivity].
    pose proof (descending_nth _ k idx a x Hd Hk Ha Hx).
    apply Z.leb_gt. lia.
Qed.

(** ** The boolean codec *)

(** C4. A boolean is encoded as the single byte 1 (true) or 0 (false). On
    decode the byte 0 yields false and the byte 1 yields true, one byte
    being consumed; any other byte makes the traversal panic with "Bool
    byte neither 0 nor 1", which the safe wrapper returns as a
    [TypeError]. *)
Theorem bool_codec (decls : Decls) (fuel : nat) (ts : TypeSpec) :
  Kind (Top ts) = Reflect.to_uint8 Reflect.Bool ->
  SafeEncodeField (S fuel) (VBool true) ts = Ok [1]
  /\ SafeEncodeField (S fuel) (VBool false) ts = Ok [0]
  /\ (forall (old : bool) (rest : bytes),
        let target := VPtr (TBasic Reflect.Bool) (Some (VBool old)) in
        decodeField decls (S fuel) target ts (0 :: rest)
        = Ok (VPtr (TBasic Reflect.Bool) (Some (VBool false)), rest)
        /\ decodeField decls (S fuel) target ts (1 :: rest)
           = Ok (VPtr (TBasic Reflect.Bool) (Some (VBool true)), rest)
        /\ SafeDecodeField decls (S fuel) target ts (0 :: rest)
           = Ok (VPtr (TBasic Reflect.Bool) (Some (VBool false)))
        /\ SafeDecodeField decls (S fuel) target ts (1 :: rest)
           = Ok (VPtr (TBasic Reflect.Bool) (Some (VBool true))))
  /\ (forall (target : Value) (byte : Z) (rest : bytes),
        byte <> 0 -> byte <> 1 ->
        decodeField decls (S fuel) target ts (byte :: rest)
        = Panicked (BoolByteNeither0Nor1 byte)
        /\ SafeDecodeField decls (S fuel) target ts (byte :: rest)
           = Err (DecodingFailed (BoolByteNeither0Nor1 byte))).
Proof.
  intros Hkind.
  unfold SafeEncodeField, SafeDecodeField, decodeField.
  cbn [encodeFieldInner decodeFieldInner]. rewrite Hkind. cbn.
  split; [reflexivity|]. split; [reflexivity|]. split.
  - intros old rest. repeat split; reflexivity.
  - intros target byte rest Hne0 Hne1.
    destruct (byte =? 0) eqn:H0; [apply Z.eqb_eq in H0; contradiction|].
    destruct (byte =? 1) eqn:H1; [apply Z.eqb_eq in H1; contradiction|].
    split; reflexivity.
Qed.

Lemma bool_codec_witness :
  Kind (Top boolSpec) = Reflect.to_uint8 Reflect.Bool
  /\ SafeEncodeField 1 (VBool true) boolSpec = Ok [1]
  /\ SafeDecodeField ∅ 1 (VPtr (TBasic Reflect.Bool) (Some (VBool true)))
                     boolSpec [2; 0]
     = Err (DecodingFailed (BoolByteNeither0Nor1 2)).
Proof.
  split; [reflexivity|].
  destruct (bool_codec ∅ 0 boolSpec eq_refl) as (Henc & _ & _ & Hbad).
  split; [exact Henc|].
  apply (Hbad _ 2 [0]); discriminate.
Defined.

(** ** [EncodeObj] *)

Lemma be_bytes_uint16 (x : Z) :
  0 <= x < 65536 -> be_bytes 2 x = [x / 256; x mod 256].
Proof.
  intros Hx. unfold be_bytes.
  change 255 with (Z.ones 8).
  rewrite !Z.land_ones by lia.
  change (8 * Z.of_nat 1) with 8. change (8 * Z.of_nat 0) with 0.
  rewrite Z.shiftr_0_r, Z.shiftr_div_pow2 by lia.
  change (2 ^ 8) with 256.
  rewrite (Z.mod_small (x / 256)) by (split; [apply Z.div_pos; lia | apply Z.div_lt_upper_bound; lia]).
  reflexivity.
Qed.

Lemma descending_head (latest : Version) (older : list Version) :
  descending (latest :: older) = true ->
  forall w, In w older -> VersionNo w < VersionNo latest.
Proof.
  simpl. intros Hd w Hw. apply andb_true_iff in Hd as [Hall _].
  rewrite forallb_forall in Hall. apply Hall in Hw. lia.
Qed.

(** C3. [EncodeObj] returns the error "No versions registered" when the
    type has no version. Otherwise, whenever it returns bytes, these are
    the two bytes of the first version's number, most significant first,
    followed by the body that the safe encoder writes against that
    version's spec; and under the ordering invariant the first version is
    the highest one registered. *)
Theorem EncodeObj_version_prefix (fuel : nat) (vt : VersionedType) (obj : Value) :
  (Versions vt = [] ->
   EncodeObj fuel vt obj = Err (NoVersionsRegistered (Name vt)))
  /\ (forall (latest : Version) (older : list Version),
        Versions vt = latest :: older ->
        0 <= VersionNo latest < 65536 ->
        (descending (Versions vt) = true ->
         forall w, In w older -> VersionNo w < VersionNo latest)
        /\ (forall body,
              SafeEncodeField fuel obj (Spec latest) = Ok body ->
              EncodeObj fuel vt obj
              = Ok (VersionNo latest / 256 :: VersionNo latest mod 256 :: body))
        /\ (forall enc,
              EncodeObj fuel vt obj = Ok enc ->
              exists hi lo body,
                enc = hi :: lo :: body
                /\ 0 <= hi < 256 /\ 0 <= lo < 256
                /\ hi * 256 + lo = VersionNo latest
                /\ SafeEncodeField fuel obj (Spec latest) = Ok body)).
Proof.
  split.
  - intros Hnil. unfold EncodeObj. rewrite Hnil. reflexivity.
  - intros latest older Hvs Hrange.
    split; [|split].
    + rewrite Hvs. apply descending_head.
    + intros body Hbody. unfold EncodeObj. rewrite Hvs, Hbody. cbn [bind].
      rewrite be_bytes_uint16 by assumption. reflexivity.
    + intros enc Henc. unfold EncodeObj in Henc. rewrite Hvs in Henc.
      destruct (SafeEncodeField fuel obj (Spec latest)) as [body| | |] eqn:Hbody;
        cbn [bind] in Henc; try discriminate.
      injection Henc as <-.
      change (Z.land (VersionNo latest ≫ (8 * Z.of_nat 1)) 255
              :: Z.land (VersionNo latest ≫ (8 * Z.of_nat 0)) 255 :: body)
        with (be_bytes 2 (VersionNo latest) ++ body).
      rewrite be_bytes_uint16 by assumption.
      exists (VersionNo latest / 256), (VersionNo latest mod 256), body.
      repeat split; try reflexivity.
      * apply Z.div_pos; lia.
      * apply Z.div_lt_upper_bound; lia.
      * apply Z.mod_pos_bound; lia.
      * apply Z.mod_pos_bound; lia.
      * pose proof (Z.div_mod (VersionNo latest) 256 ltac:(lia)). lia.
Qed.

Lemma EncodeObj_version_prefix_witness :
  Versions flagType = [flagVersion]
  /\ 0 <= VersionNo flagVersion < 65536
  /\ SafeEncodeField 1 (VBool true) (Spec flagVersion) = Ok [1]
  /\ EncodeObj 1 flagType (VBool true) = Ok [1; 2; 1].
Proof.
  assert (Hrange : 0 <= VersionNo flagVersion < 65536)
    by (simpl; lia).
  split; [reflexivity|]. split; [exact Hrange|]. split; [reflexivity|].
  destruct (EncodeObj_version_prefix 1 flagType (VBool true)) as [_ H].
  destruct (H flagVersion [] eq_refl Hrange) as (_ & Hbody & _).
  exact (Hbody [1] eq_refl).
Defined.

(** ** [DecodeInto] *)

Lemma Search_loop_ext (f g : nat -> bool) :
  (forall k, f k = g k) ->
  forall turns i j, Search_loop turns f i j = Search_loop turns g i j.
Proof.
  intros Hfg. induction turns as [|turns IH]; intros i j; simpl; [reflexivity|].
  rewrite Hfg, !IH. reflexivity.
Qed.

(** The lookup reads the version numbers only. *)
Lemma getVersion_withUpgraders (g : Version -> option UpgradeFunc)
  (vt : VersionedType) (v : Z) :
  getVersion (withUpgraders g vt) v
  = option_map (fun p => (p.1, setUpgrader g p.2)) (getVersion vt v).
Proof.
  unfold getVersion, withUpgraders, setVersions, sort_Search. cbn [Versions].
  rewrite length_map.
  rewrite (Search_loop_ext _
             (fun i => match nth_error (Versions vt) i with
                       | Some x => VersionNo x <=? v
                       | None => false
                       end)).
  2:{ intros k. rewrite nth_error_map.
      destruct (nth_error (Versions vt) k); reflexivity. }
  rewrite nth_error_map.
  destruct (nth_error (Versions vt) _) as [x|]; [|reflexivity].
  cbn. destruct (VersionNo x =? v); reflexivity.
Qed.

Lemma readVersion_prefix (hi lo : Z) (body : bytes) :
  readVersion (hi :: lo :: body) = (hi * 256 + lo, body).
Proof. reflexivity. Qed.

Lemma DecodeInto_found (decls : Decls) (fuel : nat) (vt : VersionedType)
  (hi lo : Z) (body : bytes) (obj : option (gmap string Value)) (v : Version) :
  descending (Versions vt) = true ->
  In v (Versions vt) -> VersionNo v = hi * 256 + lo ->
  DecodeInto decls fuel vt (hi :: lo :: body) obj
  = (let* obj := SafeDecodeField decls fuel (attrsValue obj) (Spec v) body in
     match obj with
     | VAttrs m => Ok (<["_version" := VNum Reflect.Uint16 (hi * 256 + lo)]> m)
     | _ => Panicked (RuntimePanic "assignment to entry in nil map")
     end).
Proof.
  intros Hd Hin Hv. unfold DecodeInto.
  destruct (Versions vt) as [|latest older] eqn:Hvs; [destruct Hin|].
  rewrite readVersion_prefix, <- Hv.
  rewrite <- Hvs in Hin, Hd.
  apply In_nth_error in Hin as [idx Hidx].
  rewrite (getVersion_found vt idx v Hd Hidx). reflexivity.
Qed.

(** C5. [DecodeInto] decodes the body against the spec of the version the
    two-byte prefix names, into the caller's attribute map; on success the
    map holds the reserved key "_version" bound to that version number; no
    upgrader is ever invoked, the outcome being the same whatever the
    upgraders are; and a prefix naming a version that the (non-empty) list
    lacks is refused with "Version not registered". A type without any
    version is refused before the prefix is read, with "No versions
    registered". *)
Theorem DecodeInto_spec (decls : Decls) (fuel : nat) (vt : VersionedType)
  (hi lo : Z) (body : bytes) (obj : option (gmap string Value)) :
  let version := hi * 256 + lo in
  let encObj := hi :: lo :: body in
  (Versions vt <> [] ->
   (forall w, In w (Versions vt) -> VersionNo w <> version) ->
   DecodeInto decls fuel vt encObj obj = Err (VersionNotRegistered version))
  /\ (forall v,
        descending (Versions vt) = true ->
        In v (Versions vt) -> VersionNo v = version ->
        (forall m,
           SafeDecodeField decls fuel (attrsValue obj) (Spec v) body
           = Ok (VAttrs m) ->
           DecodeInto decls fuel vt encObj obj
           = Ok (<["_version" := VNum Reflect.Uint16 version]> m))
        /\ (forall err,
              SafeDecodeField decls fuel (attrsValue obj) (Spec v) body
              = Err err ->
              DecodeInto decls fuel vt encObj obj = Err err)
        /\ (forall m',
              DecodeInto decls fuel vt encObj obj = Ok m' ->
              m' !! "_version" = Some (VNum Reflect.Uint16 version)
              /\ exists m,
                  SafeDecodeField decls fuel (attrsValue obj) (Spec v) body
                  = Ok (VAttrs m)
                  /\ m' = <["_version" := VNum Reflect.Uint16 version]> m))
  /\ (forall g,
        DecodeInto decls fuel (withUpgraders g vt) encObj obj
        = DecodeInto decls fuel vt encObj obj)
  /\ (Versions vt = [] ->
      DecodeInto decls fuel vt encObj obj
      = Err (NoVersionsRegistered (Name vt))).
Proof.
  intros version encObj. split; [|split; [|split]].
  - intros Hne Habs. unfold DecodeInto, encObj.
    destruct (Versions vt) as [|latest older] eqn:Hvs; [contradiction|].
    rewrite readVersion_prefix. fold version.
    rewrite getVersion_absent; [reflexivity|].
    rewrite Hvs. exact Habs.
  - intros v Hd Hin Hv. unfold encObj.
    rewrite (DecodeInto_found decls fuel vt hi lo body obj v Hd Hin Hv).
    fold version. split; [|split].
    + intros m Hm. rewrite Hm. reflexivity.
    + intros err Herr. rewrite Herr. reflexivity.
    + intros m' Hm'.
      destruct (SafeDecodeField decls fuel (attrsValue obj) (Spec v) body)
        as [o| | |]; cbn [bind] in Hm'; try discriminate.
      destruct o; try discriminate.
      injection Hm' as <-. split.
      * apply lookup_insert_eq.
      * eexists. split; reflexivity.
  - intros g. unfold DecodeInto, encObj.
    unfold withUpgraders at 1, setVersions. cbn [Versions].
    destruct (Versions vt) as [|latest older] eqn:Hvs; [reflexivity|].
    cbn [map]. rewrite readVersion_prefix.
    rewrite getVersion_withUpgraders.
    destruct (getVersion vt (hi * 256 + lo)) as [[idx v]|]; reflexivity.
  - intros Hnone. unfold DecodeInto. rewrite Hnone. reflexivity.
Qed.

Lemma DecodeInto_spec_witness :
  descending (Versions TestUpgrade.registry) = true
  /\ DecodeInto TestUpgrade.decls TestUpgrade.fuel TestUpgrade.registry
       [0; 0; 5; 66; 114; 101; 110; 100] (Some (<["Keep" := VInt 1]> ∅))
     = Ok (<["_version" := VNum Reflect.Uint16 0]>
             (<["Name" := VString "Brend"]> (<["Keep" := VInt 1]> ∅)))
  /\ DecodeInto TestUpgrade.decls TestUpgrade.fuel TestUpgrade.registry
       [0; 7] (Some ∅)
     = Err (VersionNotRegistered 7)
  /\ DecodeInto TestUpgrade.decls TestUpgrade.fuel
       (newVersionedType "test" 2) [0; 7] (Some ∅)
     = Err (NoVersionsRegistered "test").
Proof.
  split; [reflexivity|].
  destruct (DecodeInto_spec TestUpgrade.decls TestUpgrade.fuel
              (newVersionedType "test" 2) 0 7 [] (Some ∅))
    as (_ & _ & _ & Hempty).
  destruct (DecodeInto_spec TestUpgrade.decls TestUpgrade.fuel
              TestUpgrade.registry 0 0 [5; 66; 114; 101; 110; 100]
              (Some (<["Keep" := VInt 1]> ∅))) as (_ & Hfound & _).
  destruct (DecodeInto_spec TestUpgrade.decls TestUpgrade.fuel
              TestUpgrade.registry 0 7 [] (Some ∅)) as (Habsent & _ & _).
  split.
  - destruct (nth_error (Versions TestUpgrade.registry) 2) as [v0|] eqn:Hv0;
      [|discriminate Hv0].
    destruct (Hfound v0 eq_refl) as (Hok & _ & _).
    + exact (nth_error_In _ _ Hv0).
    + injection Hv0 as <-. reflexivity.
    + injection Hv0 as <-. apply Hok. vm_compute. reflexivity.
  - split; [|exact (Hempty eq_refl)].
    apply Habsent; [discriminate|].
    intros w Hw. vm_compute in Hw.
    destruct Hw as [<-|[<-|[<-|[]]]]; discriminate.
Defined.

(** C5 as it is worded, at a type without versions, as [RegisterType]
    leaves it: version 0 is absent from the list of versions, and the
    refusal is "No versions registered", not "Version not registered". *)
Lemma DecodeInto_no_versions :
  let vt := newVersionedType "test" 2 in
  (forall w, In w (Versions vt) -> VersionNo w <> 0)
  /\ GetVersion vt 0 = None
  /\ DecodeInto TestUpgrade.decls TestUpgrade.fuel vt [0; 0] (Some ∅)
     = Err (NoVersionsRegistered "test")
  /\ DecodeInto TestUpgrade.decls TestUpgrade.fuel vt [0; 0] (Some ∅)
     <> Err (VersionNotRegistered 0).
Proof.
  cbv zeta. split; [intros w []|]. split; [reflexivity|].
  split; [reflexivity | discriminate].
Qed.

(** ** The upgrade state machine *)

Lemma firstn_S_nth_error {A} (l : list A) (i : nat) (x : A) :
  nth_error l i = Some x -> firstn (S i) l = firstn i l ++ [x].
Proof.
  revert i. induction l as [|a l IH]; intros [|i] Hx; try discriminate.
  - injection Hx as ->. reflexivity.
  - simpl in Hx. cbn [firstn]. rewrite (IH i Hx). reflexivity.
Qed.

(** The loop of the source, which counts an index down, is the state
    machine of the specification, which walks the newer versions upward. *)
Lemma upgradeLoop_applyUpgraders (vt : VersionedType) (v : Version)
  (version : Z) (vIdx : nat) (obj : Value) :
  (vIdx <= length (Versions vt))%nat ->
  upgradeLoop vt v version vIdx obj
  = applyUpgraders (VersionNo v) version (rev (firstn vIdx (Versions vt))) obj.
Proof.
  revert obj. induction vIdx as [|vIdx IH]; intros obj Hlen; [reflexivity|].
  destruct (nth_error (Versions vt) vIdx) as [next|] eqn:Hnext.
  2:{ apply nth_error_None in Hnext. lia. }
  rewrite (firstn_S_nth_error _ _ _ Hnext), rev_unit.
  cbn [upgradeLoop applyUpgraders]. rewrite Hnext.
  destruct (Upgrader next) as [upgrade|]; [|reflexivity].
  destruct (upgrade obj); try reflexivity.
  apply IH. lia.
Qed.

Lemma filter_none_newer (x : Z) (l : list Version) :
  forallb (fun y => VersionNo y <? x) l = true ->
  List.filter (fun w => x <? VersionNo w) l = [].
Proof.
  induction l as [|a l IH]; [reflexivity|]. simpl. intros H.
  apply andb_true_iff in H as [Ha Hl].
  replace (x <? VersionNo a) with false by lia. auto.
Qed.

(** In a descending list the versions above the one at [idx] are those
    before it. *)
Lemma newer_versions (l : list Version) (idx : nat) (v : Version) :
  descending l = true -> nth_error l idx = Some v ->
  List.filter (fun w => VersionNo v <? VersionNo w) l = firstn idx l.
Proof.
  revert idx. induction l as [|a l IH]; intros idx Hd Hv.
  - destruct idx; discriminate.
  - destruct idx as [|idx].
    + injection Hv as ->. simpl in Hd. apply andb_true_iff in Hd as [Hall _].
      simpl. rewrite Z.ltb_irrefl. apply filter_none_newer. exact Hall.
    + pose proof (descending_nth (a :: l) 0 (S idx) a v Hd ltac:(lia)
                    eq_refl Hv) as Hlt.
      simpl in Hd. apply andb_true_iff in Hd as [_ Hd].
      simpl. replace (VersionNo v <? VersionNo a) with true by lia.
      f_equal. apply IH; assumption.
Qed.

(** With upgraders that map the objects of a class [P] into [P], the machine
    started in [P] ends with the final object, or at the first step that
    has no upgrader. *)
Lemma applyUpgraders_outcome (P : Value -> Prop) (own objectVersion : Z)
  (steps : list Version) :
  (forall w upgrade o, In w steps -> Upgrader w = Some upgrade -> P o ->
                       exists o', upgrade o = Upgraded o' /\ P o') ->
  forall obj, P obj ->
    (Forall (fun w => Upgrader w <> None) steps ->
     exists final,
       applyUpgraders own objectVersion steps obj = Ok (final, true))
    /\ (Exists (fun w => Upgrader w = None) steps ->
        exists w, In w steps /\ Upgrader w = None
                  /\ applyUpgraders own objectVersion steps obj
                     = Err (NoUpgrader own (VersionNo w) objectVersion)).
Proof.
  induction steps as [|next steps IH]; intros Htotal obj Hobj.
  - split; [intros _; eexists; reflexivity | intros H; inversion H].
  - assert (Htotal' : forall w upgrade o, In w steps ->
              Upgrader w = Some upgrade -> P o ->
              exists o', upgrade o = Upgraded o' /\ P o')
      by (intros w u o Hw; apply Htotal; right; exact Hw).
    cbn [applyUpgraders].
    destruct (Upgrader next) as [upgrade|] eqn:Hup.
    + destruct (Htotal next upgrade obj (or_introl eq_refl) Hup Hobj)
        as (o' & Ho' & HP).
      rewrite Ho'. destruct (IH Htotal' o' HP) as [Hall Hex]. split.
      * intros HF. inversion HF; subst. auto.
      * intros HE. inversion HE as [? ? Hnone|? ? Hrest]; subst.
        -- congruence.
        -- destruct (Hex Hrest) as (w & Hw & Hnone & Heq).
           exists w. repeat split; [right|..]; assumption.
    + split.
      * intros HF. inversion HF; subst. congruence.
      * intros _. exists next. repeat split; [left; reflexivity | assumption].
Qed.

Lemma DecodeObj_older (decls : Decls) (fuel : nat) (vt : VersionedType)
  (latest v : Version) (older : list Version) (idx : nat) (hi lo : Z)
  (body : bytes) (toMap : bool) :
  Versions vt = latest :: older ->
  descending (Versions vt) = true ->
  nth_error (Versions vt) idx = Some v ->
  VersionNo v = hi * 256 + lo ->
  VersionNo v < VersionNo latest ->
  DecodeObj decls fuel vt (hi :: lo :: body) toMap
  = (let* target := upgradeTarget decls fuel v in
     match SafeDecodeField decls fuel target (Spec v) body with
     | Ok obj =>
         applyUpgraders (VersionNo v) (VersionNo v)
                        (rev (firstn idx (Versions vt))) obj
     | Err err => Err (ErrorDecodingInitialVersion (VersionNo v) err)
     | Panicked p => Panicked p
     | OutOfFuel => OutOfFuel
     end).
Proof.
  intros Hvs Hd Hidx Hv Hlt. unfold DecodeObj. rewrite Hvs.
  rewrite readVersion_prefix, <- Hv.
  replace (VersionNo latest =? VersionNo v) with false by lia.
  cbn [negb]. unfold upgradeObj.
  rewrite (getVersion_found vt idx v Hd Hidx).
  destruct (upgradeTarget decls fuel v) as [target| | |]; try reflexivity.
  cbn [bind].
  destruct (SafeDecodeField decls fuel target (Spec v) body);
    try reflexivity.
  rewrite <- Hvs. apply upgradeLoop_applyUpgraders.
  apply Nat.lt_le_incl, nth_error_Some. congruence.
Qed.

(** C2. A prefix naming a registered version strictly older than the
    latest: the body is decoded against that version's spec, into a fresh
    value of its exemplar's type when it has one and into an attribute map
    otherwise; then the upgrader of each newer version is applied in
    ascending order, the object being replaced by what it returns. When
    the body decodes and the upgraders return an object on every object
    they are called with, the outcome is the final object with [upgraded = true] if every step has an
    upgrader, and the error "No upgrader" of the first step that lacks one
    otherwise. In the scenario of [TestUpgrade], run as the test runs it,
    with the exemplars of versions 0 and 1 set to nil before the decode so
    that the upgraders receive an attribute map, the version-0 encoding of
    [{Name: "Brend"}] decodes to [Age = 32], [Moniker = "Brend"]. *)
Theorem DecodeObj_upgrade :
  (forall (decls : Decls) (fuel : nat) (vt : VersionedType)
          (latest v : Version) (older : list Version) (idx : nat)
          (hi lo : Z) (body : bytes) (toMap : bool),
      Versions vt = latest :: older ->
      descending (Versions vt) = true ->
      nth_error (Versions vt) idx = Some v ->
      VersionNo v = hi * 256 + lo ->
      VersionNo v < VersionNo latest ->
      let steps :=
        rev (List.filter (fun w => VersionNo v <? VersionNo w) (Versions vt)) in
      let result := DecodeObj decls fuel vt (hi :: lo :: body) toMap in
      (Exemplar v = VNil -> upgradeTarget decls fuel v = Ok (VAttrs ∅))
      /\ (forall t, TypeOf (Exemplar v) = Some t ->
                    upgradeTarget decls fuel v = reflect_New decls fuel t)
      /\ result
         = (let* target := upgradeTarget decls fuel v in
            match SafeDecodeField decls fuel target (Spec v) body with
            | Ok obj => applyUpgraders (VersionNo v) (VersionNo v) steps obj
            | Err err => Err (ErrorDecodingInitialVersion (VersionNo v) err)
            | Panicked p => Panicked p
            | OutOfFuel => OutOfFuel
            end)
      /\ (forall (P : Value -> Prop) target obj,
            upgradeTarget decls fuel v = Ok target ->
            SafeDecodeField decls fuel target (Spec v) body = Ok obj ->
            P obj ->
            (forall w upgrade o, In w steps -> Upgrader w = Some upgrade ->
                                 P o ->
                                 exists o', upgrade o = Upgraded o' /\ P o') ->
            (Forall (fun w => Upgrader w <> None) steps ->
             exists final, result = Ok (final, true))
            /\ (Exists (fun w => Upgrader w = None) steps ->
                exists w, In w steps /\ Upgrader w = None
                          /\ result = Err (NoUpgrader (VersionNo v) (VersionNo w)
                                                      (VersionNo v)))))
  /\ (exists enc out,
        TestUpgrade.run
        = Ok (enc, (VAttrs out, true),
              [0; 2; 0; 32; 5; 66; 114; 101; 110; 100],
              (VPtr (TStruct TestUpgrade.st2)
                 (Some (VStruct TestUpgrade.st2
                          [VNum Reflect.Uint16 32; VString "Brend"])),
               false))
        /\ enc = [0; 0; 5; 66; 114; 101; 110; 100]
        /\ out = <["Age" := VInt 32]> (<["Moniker" := VString "Brend"]> ∅)
        /\ out !! "Age" = Some (VInt 32)
        /\ out !! "Moniker" = Some (VString "Brend")
        /\ out !! "Name" = None).
Proof.
  split.
  - intros decls fuel vt latest v older idx hi lo body toMap
           Hvs Hd Hidx Hv Hlt steps result.
    assert (Hsteps : steps = rev (firstn idx (Versions vt)))
      by (unfold steps; rewrite (newer_versions _ idx v Hd Hidx); reflexivity).
    assert (Hresult :
      result
      = (let* target := upgradeTarget decls fuel v in
         match SafeDecodeField decls fuel target (Spec v) body with
         | Ok obj => applyUpgraders (VersionNo v) (VersionNo v) steps obj
         | Err err => Err (ErrorDecodingInitialVersion (VersionNo v) err)
         | Panicked p => Panicked p
         | OutOfFuel => OutOfFuel
         end)).
    { unfold result. rewrite Hsteps.
      exact (DecodeObj_older decls fuel vt latest v older idx hi lo body toMap
               Hvs Hd Hidx Hv Hlt). }
    split; [|split; [|split]].
    + intros Hnil. unfold upgradeTarget. rewrite Hnil. reflexivity.
    + intros t Ht. unfold upgradeTarget. rewrite Ht. reflexivity.
    + exact Hresult.
    + intros P target obj Htarget Hobj HP Htotal.
      rewrite Hresult, Htarget. cbn [bind]. rewrite Hobj.
      apply (applyUpgraders_outcome P); assumption.
  - eexists _, _. split; [vm_compute; reflexivity|].
    repeat split; vm_compute; reflexivity.
Qed.

Lemma DecodeObj_upgrade_witness :
  descending (Versions TestUpgrade.registry) = true
  /\ exists final,
       DecodeObj TestUpgrade.decls TestUpgrade.fuel TestUpgrade.registry
                 [0; 0; 5; 66; 114; 101; 110; 100] false
       = Ok (final, true).
Proof.
  split; [reflexivity|].
  destruct DecodeObj_upgrade as [Hgeneral _].
  destruct (Hgeneral TestUpgrade.decls TestUpgrade.fuel TestUpgrade.registry
              (TestUpgrade.version 0) (TestUpgrade.version 2)
              [TestUpgrade.version 1; TestUpgrade.version 2] 2%nat
              0 0 [5; 66; 114; 101; 110; 100] false
              eq_refl eq_refl eq_refl eq_refl eq_refl)
    as (_ & _ & _ & Hsteps).
  destruct (Hsteps (fun o => exists m, o = VAttrs m)
                   (VAttrs ∅) (VAttrs (<["Name" := VString "Brend"]> ∅)))
    as [Hall _].
  - reflexivity.
  - vm_compute. reflexivity.
  - eexists. reflexivity.
  - intros w upgrade o Hw Hup [m ->].
    destruct Hw as [<-|[<-|[]]]; injection Hup as <-;
      eexists; (split; [reflexivity | eexists; reflexivity]).
  - apply Hall. repeat constructor; discriminate.
Defined.

(** C2 as it is worded, in the three-version scenario with the exemplars as
    [AddVersion] leaves them: every version has its exemplar and every step
    its upgrader, the body decodes into a [*st0], and the first upgrader,
    which takes an attribute map, panics on it. Nothing is returned, with
    [toMap] or without. *)
Lemma DecodeObj_upgrade_with_exemplars :
  let vt := TestUpgrade.withExemplars in
  let enc := [0; 0; 5; 66; 114; 101; 110; 100] in
  map VersionNo (Versions vt) = [2; 1; 0]
  /\ map (fun v => TypeOf (Exemplar v)) (Versions vt)
     = [Some (TStruct TestUpgrade.st2); Some (TStruct TestUpgrade.st1);
        Some (TStruct TestUpgrade.st0)]
  /\ map (fun v => match Upgrader v with Some _ => true | None => false end)
         (Versions vt)
     = [true; true; false]
  /\ (let* vt0 := TestUpgrade.registered0 in
      EncodeObj TestUpgrade.fuel vt0 TestUpgrade.brend) = Ok enc
  /\ DecodeObj TestUpgrade.decls TestUpgrade.fuel vt enc false
     = Panicked (RuntimePanic "interface conversion")
  /\ DecodeObj TestUpgrade.decls TestUpgrade.fuel vt enc true
     = Panicked (RuntimePanic "interface conversion")
  /\ ~ (exists final,
          DecodeObj TestUpgrade.decls TestUpgrade.fuel vt enc false
          = Ok (final, true)).
Proof.
  cbv zeta.
  assert (Hpanic :
    DecodeObj TestUpgrade.decls TestUpgrade.fuel TestUpgrade.withExemplars
              [0; 0; 5; 66; 114; 101; 110; 100] false
    = Panicked (RuntimePanic "interface conversion"))
    by (vm_compute; reflexivity).
  split; [vm_compute; reflexivity|]. split; [vm_compute; reflexivity|].
  split; [vm_compute; reflexivity|]. split; [vm_compute; reflexivity|].
  split; [exact Hpanic|]. split; [vm_compute; reflexivity|].
  intros [final Hfinal]. rewrite Hpanic in Hfinal. discriminate Hfinal.
Qed.

(** ** [DecodeObj] on the latest version *)

(** A prefix naming the latest version: with an exemplar the body is
    decoded into an attribute map when [toMap] is set and into a fresh
    value of the exemplar's type otherwise, and [upgraded] is false;
    without an exemplar the guard that precedes the choice of the target
    returns an error, so that the branch of that choice for a missing
    exemplar is never taken. *)
Lemma DecodeObj_latest (decls : Decls) (fuel : nat) (vt : VersionedType)
  (latest : Version) (older : list Version) (hi lo : Z) (body : bytes)
  (toMap : bool) :
  Versions vt = latest :: older ->
  VersionNo latest = hi * 256 + lo ->
  DecodeObj decls fuel vt (hi :: lo :: body) toMap
  = match TypeOf (Exemplar latest) with
    | None => Err (ObjectVersionHasNoExemplar (VersionNo latest))
    | Some t =>
        let* target := if toMap then Ok (VAttrs ∅)
                       else reflect_New decls fuel t in
        let* target := SafeDecodeField decls fuel target (Spec latest) body in
        Ok (target, false)
    end.
Proof.
  intros Hvs Hv. unfold DecodeObj. rewrite Hvs, readVersion_prefix, <- Hv.
  rewrite Z.eqb_refl. cbn [negb].
  destruct (Exemplar latest), toMap; reflexivity.
Qed.

(** C1, at an input on which the source departs from it. The type
    [TestUpgrade.loaded] has version 0 alone, without exemplar, and the
    buffer is the version-0 encoding of [{Name: "Brend"}]. [DecodeObj]
    returns the error "Object version has no exemplar: 0", with [toMap]
    or without, where the claim has an attribute map and [upgraded =
    false]. The same bytes decode into the attribute map on the sibling
    paths [upgradeObj] and [DecodeInto]. *)
Theorem DecodeObj_latest_without_exemplar :
  map VersionNo (Versions TestUpgrade.loaded) = [0]
  /\ map Exemplar (Versions TestUpgrade.loaded) = [VNil]
  /\ DecodeObj TestUpgrade.decls TestUpgrade.fuel TestUpgrade.loaded
               [0; 0; 5; 66; 114; 101; 110; 100] false
     = Err (ObjectVersionHasNoExemplar 0)
  /\ DecodeObj TestUpgrade.decls TestUpgrade.fuel TestUpgrade.loaded
               [0; 0; 5; 66; 114; 101; 110; 100] true
     = Err (ObjectVersionHasNoExemplar 0)
  /\ upgradeObj TestUpgrade.decls TestUpgrade.fuel TestUpgrade.loaded 0
                [5; 66; 114; 101; 110; 100]
     = Ok (VAttrs (<["Name" := VString "Brend"]> ∅), true)
  /\ DecodeInto TestUpgrade.decls TestUpgrade.fuel TestUpgrade.loaded
                [0; 0; 5; 66; 114; 101; 110; 100] (Some ∅)
     = Ok (<["_version" := VNum Reflect.Uint16 0]>
             (<["Name" := VString "Brend"]> ∅)).
Proof.
  repeat split; vm_compute; reflexivity.
Qed.

(** * Further properties of the code *)

(** * Further properties *)

(** ** Tagged keys *)

Lemma string_of_bytes_of_string (s : string) :
  string_of_bytes (bytes_of_string s) = s.
Proof.
  unfold string_of_bytes, bytes_of_string. rewrite map_map.
  rewrite (map_ext _ (fun c => c)).
  - rewrite map_id. apply string_of_list_ascii_of_string.
  - intros c. rewrite N2Z.id. apply ascii_N_embedding.
Qed.

Lemma bytes_of_string_inj (s1 s2 : string) :
  bytes_of_string s1 = bytes_of_string s2 -> s1 = s2.
Proof.
  intros H. rewrite <- (string_of_bytes_of_string s1), H.
  apply string_of_bytes_of_string.
Qed.

(** X1. A tagged key is the two bytes of [EncodeTag] followed by the bytes
    of the key, and [DecodeKey] gives the key back; for a tag in the range
    of [uint16] those two bytes are the tag, most significant byte first;
    [DecodeKey] panics on an input of fewer than two bytes. *)
Theorem EncodeKey_DecodeKey (vt : VersionedType) (key : string) :
  VersionedType_EncodeKey vt key = EncodeTag vt ++ bytes_of_string key
  /\ DecodeKey vt (VersionedType_EncodeKey vt key) = Ok key
  /\ (0 <= Tag vt < 65536 ->
      EncodeTag vt = [Tag vt / 256; Tag vt mod 256])
  /\ (forall encKey, (length encKey < 2)%nat ->
        DecodeKey vt encKey
        = Panicked (RuntimePanic "slice bounds out of range")).
Proof.
  split; [reflexivity|]. split; [|split].
  - unfold DecodeKey, VersionedType_EncodeKey, EncodeKey.
    cbn [be_bytes app length Nat.leb skipn]. rewrite skipn_O.
    rewrite string_of_bytes_of_string. reflexivity.
  - intros Htag. apply be_bytes_uint16. exact Htag.
  - intros encKey Hlen. unfold DecodeKey.
    destruct (2 <=? length encKey)%nat eqn:H; [|reflexivity].
    apply Nat.leb_le in H. lia.
Qed.

Lemma EncodeKey_DecodeKey_witness :
  0 <= Tag flagType < 65536
  /\ EncodeTag flagType = [0; 3]
  /\ DecodeKey flagType [7] = Panicked (RuntimePanic "slice bounds out of range").
Proof.
  assert (Htag : 0 <= Tag flagType < 65536) by (simpl; lia).
  destruct (EncodeKey_DecodeKey flagType "one") as (_ & _ & Hprefix & Hshort).
  split; [exact Htag|]. split.
  - exact (Hprefix Htag).
  - apply Hshort. simpl. lia.
Defined.

(** X2. Keys of different types, or different keys of one type, never
    have the same encoding: [EncodeKey] is injective on tags in the range
    of [uint16]. *)
Theorem EncodeKey_injective (tag1 tag2 : Z) (key1 key2 : string) :
  0 <= tag1 < 65536 -> 0 <= tag2 < 65536 ->
  EncodeKey tag1 key1 = EncodeKey tag2 key2 ->
  tag1 = tag2 /\ key1 = key2.
Proof.
  intros H1 H2. unfold EncodeKey.
  rewrite !be_bytes_uint16 by assumption. cbn [app]. intros Heq.
  injection Heq as Hhi Hlo Hkey. split.
  - pose proof (Z.div_mod tag1 256 ltac:(lia)).
    pose proof (Z.div_mod tag2 256 ltac:(lia)). lia.
  - apply bytes_of_string_inj. exact Hkey.
Qed.

Lemma EncodeKey_injective_witness :
  EncodeKey 2 "one" = [0; 2; 111; 110; 101]
  /\ (2 = 2 /\ "one"%string = "one"%string).
Proof.
  split; [reflexivity|].
  apply (EncodeKey_injective 2 2 "one" "one"); [lia | lia | reflexivity].
Defined.

(** ** The type set *)

Lemma HasTag_true (ts : TypeSet) (tag : Z) :
  HasTag ts tag = true
  <-> exists name vt, Types ts !! name = Some vt /\ Tag vt = tag.
Proof.
  unfold HasTag. rewrite existsb_exists. split.
  - intros ([name vt] & Hin & Heq). exists name, vt.
    apply list_elem_of_In, elem_of_map_to_list in Hin.
    split; [exact Hin | apply Z.eqb_eq; exact Heq].
  - intros (name & vt & Hlook & Heq). exists (name, vt). split.
    + apply list_elem_of_In, elem_of_map_to_list. exact Hlook.
    + apply Z.eqb_eq. exact Heq.
Qed.

Lemma HasTag_false (ts : TypeSet) (tag : Z) :
  HasTag ts tag = false
  <-> forall name vt, Types ts !! name = Some vt -> Tag vt <> tag.
Proof.
  split.
  - intros H name vt Hlook Heq.
    assert (HasTag ts tag = true) by (apply HasTag_true; eauto). congruence.
  - intros H. destruct (HasTag ts tag) eqn:Hhas; [|reflexivity].
    apply HasTag_true in Hhas as (name & vt & Hlook & Heq).
    exfalso. exact (H name vt Hlook Heq).
Qed.

(** X3. [HasTag] answers true exactly for the tags of the types in the
    set. *)
Theorem HasTag_spec (ts : TypeSet) (tag : Z) :
  HasTag ts tag = true
  <-> exists name vt, Types ts !! name = Some vt /\ Tag vt = tag.
Proof. apply HasTag_true. Qed.

(** X4. Registering a name twice returns the same type and leaves the set
    as the first call made it: no second tag is allocated. *)
Theorem RegisterType_idempotent (ts : TypeSet) (name : string) :
  RegisterType (RegisterType ts name).1 name = RegisterType ts name.
Proof.
  unfold RegisterType at 2 3.
  destruct (Types ts !! name) as [t|] eqn:Hlook.
  - cbn [fst]. unfold RegisterType. rewrite Hlook. reflexivity.
  - cbn [fst]. unfold RegisterType. cbn [Types].
    rewrite lookup_insert_eq. reflexivity.
Qed.

Lemma RegisterType_fresh_wf (ts : TypeSet) (name : string) :
  TypeSet_wf ts -> 0 <= LastTag ts < 65535 -> Types ts !! name = None ->
  TypeSet_wf (RegisterType ts name).1.
Proof.
  intros [Hentries Hunique] Hlast Hfresh. unfold RegisterType.
  rewrite Hfresh. cbn [fst].
  rewrite Z.mod_small by lia.
  split; cbn [Types LastTag].
  - intros n vt Hlook. destruct (decide (n = name)) as [->|Hne].
    + rewrite lookup_insert_eq in Hlook. injection Hlook as <-.
      cbn. split; [reflexivity | lia].
    + rewrite lookup_insert_ne in Hlook by congruence.
      destruct (Hentries n vt Hlook). split; [assumption | lia].
  - intros n1 n2 v1 v2 H1 H2 Htag.
    destruct (decide (n1 = name)) as [->|Hne1];
      destruct (decide (n2 = name)) as [->|Hne2]; try reflexivity.
    + rewrite lookup_insert_eq in H1. injection H1 as <-.
      rewrite lookup_insert_ne in H2 by congruence.
      destruct (Hentries n2 v2 H2). cbn in Htag. lia.
    + rewrite lookup_insert_eq in H2. injection H2 as <-.
      rewrite lookup_insert_ne in H1 by congruence.
      destruct (Hentries n1 v1 H1). cbn in Htag. lia.
    + rewrite lookup_insert_ne in H1, H2 by congruence.
      exact (Hunique n1 n2 v1 v2 H1 H2 Htag).
Qed.

(** X5. Registering a new name in a well-formed set whose last tag is
    below 65535 allocates the tag [LastTag + 1], which no type of the set
    has; the set stays well formed (names and tags unique), the new type is
    found under its name with no version, and every other entry is as it
    was. *)
Theorem RegisterType_fresh (ts : TypeSet) (name : string) :
  TypeSet_wf ts -> 0 <= LastTag ts < 65535 -> Types ts !! name = None ->
  let ts' := (RegisterType ts name).1 in
  let t := (RegisterType ts name).2 in
  TypeSet_wf ts'
  /\ Tag t = LastTag ts + 1 /\ LastTag ts' = LastTag ts + 1
  /\ Name t = name /\ Versions t = []
  /\ HasTag ts (Tag t) = false /\ HasTag ts' (Tag t) = true
  /\ TypeSet_Type ts' name = Ok t
  /\ (forall other, other <> name -> Types ts' !! other = Types ts !! other).
Proof.
  intros Hwf Hlast Hfresh ts' t.
  pose proof (RegisterType_fresh_wf ts name Hwf Hlast Hfresh) as Hwf'.
  fold ts' in Hwf'.
  assert (Hts' : ts' = {| Types := <[name := newVersionedType name (LastTag ts + 1)]> (Types ts);
                          LastTag := LastTag ts + 1 |}).
  { unfold ts', RegisterType. rewrite Hfresh. cbn [fst].
    rewrite Z.mod_small by lia. reflexivity. }
  assert (Ht : t = newVersionedType name (LastTag ts + 1)).
  { unfold t, RegisterType. rewrite Hfresh. cbn [snd].
    rewrite Z.mod_small by lia. reflexivity. }
  split; [exact Hwf'|]. rewrite Ht, Hts'. cbn [Tag Name Versions newVersionedType LastTag].
  repeat split.
  - apply HasTag_false. intros n vt Hlook.
    destruct Hwf as [Hentries _]. destruct (Hentries n vt Hlook). lia.
  - apply HasTag_true. eexists name, _. cbn [Types].
    rewrite lookup_insert_eq. split; reflexivity.
  - unfold TypeSet_Type. cbn [Types]. rewrite lookup_insert_eq. reflexivity.
  - intros other Hne. cbn [Types]. apply lookup_insert_ne. congruence.
Qed.
Lemma RegisterType_fresh_witness :
  TypeSet_wf (RegisterType emptyTypeSet "_type").1
  /\ Tag (RegisterType emptyTypeSet "_type").2 = 1.
Proof.
  assert (Hwf : TypeSet_wf emptyTypeSet).
  { split.
    - intros name vt H. cbn in H. rewrite lookup_empty in H. discriminate.
    - intros n1 n2 v1 v2 H. cbn in H. rewrite lookup_empty in H.
      discriminate. }
  destruct (RegisterType_fresh emptyTypeSet "_type" Hwf) as (H1 & H2 & _).
  - cbn. lia.
  - apply lookup_empty.
  - split; [exact H1 | exact H2].
Defined.

(** X6. The tag counter is a [uint16] and wraps: in a set whose last tag
    is 65535 a new name receives the tag 0, and the next new name the tag 1
    again, so that it shares its tag with any type that already has tag 1
    (as ["_type"] has); [RegisterType] makes no check against that. *)
Theorem RegisterType_tag_wraps (ts : TypeSet) (a b held : string)
  (v : VersionedType) :
  LastTag ts = 65535 ->
  Types ts !! a = None -> Types ts !! b = None -> a <> b ->
  Types ts !! held = Some v -> Tag v = 1 ->
  let ts1 := (RegisterType ts a).1 in
  let ts2 := (RegisterType ts1 b).1 in
  Tag (RegisterType ts a).2 = 0
  /\ Tag (RegisterType ts1 b).2 = 1
  /\ Types ts2 !! held = Some v
  /\ Types ts2 !! b = Some (RegisterType ts1 b).2
  /\ held <> b.
Proof.
  intros Hlast Ha Hb Hab Hheld Htag ts1 ts2.
  assert (Hr1 : RegisterType ts a
                = ({| Types := <[a := newVersionedType a 0]> (Types ts);
                      LastTag := 0 |}, newVersionedType a 0)).
  { unfold RegisterType. rewrite Ha, Hlast. reflexivity. }
  subst ts2 ts1. rewrite Hr1. cbn [fst snd].
  assert (Hr2 : RegisterType
                  {| Types := <[a := newVersionedType a 0]> (Types ts);
                     LastTag := 0 |} b
                = ({| Types := <[b := newVersionedType b 1]>
                                 (<[a := newVersionedType a 0]> (Types ts));
                      LastTag := 1 |}, newVersionedType b 1)).
  { unfold RegisterType. cbn [Types LastTag].
    rewrite lookup_insert_ne by congruence. rewrite Hb. reflexivity. }
  rewrite Hr2. cbn [fst snd Types].
  assert (held <> a) by congruence. assert (held <> b) by congruence.
  repeat split; try assumption.
  - rewrite !lookup_insert_ne by congruence. exact Hheld.
  - apply lookup_insert_eq.
Qed.

Lemma RegisterType_tag_wraps_witness :
  let ts := {| Types := <["_type" := newVersionedType "_type" 1]> ∅;
               LastTag := 65535 |} in
  Tag (RegisterType ts "a").2 = 0
  /\ Tag (RegisterType (RegisterType ts "a").1 "b").2 = 1.
Proof.
  intros ts.
  destruct (RegisterType_tag_wraps ts "a" "b" "_type"
              (newVersionedType "_type" 1))
    as (H0 & H1 & _); try reflexivity; try discriminate.
  split; [exact H0 | exact H1].
Defined.

Lemma LoadType_inr (ts ts' : TypeSet) (vt : VersionedType) :
  LoadType ts vt = inr ts' ->
  HasTag ts (Tag vt) = false /\ Types ts !! Name vt = None
  /\ ts' = {| Types := <[Name vt := vt]> (Types ts);
              LastTag := Z.max (LastTag ts) (Tag vt) |}.
Proof.
  unfold LoadType. destruct (HasTag ts (Tag vt)); [discriminate|].
  destruct (Types ts !! Name vt); [discriminate|].
  intros H. injection H as <-. repeat split. f_equal.
  destruct (LastTag ts <? Tag vt) eqn:Hlt; lia.
Qed.

(** X7. [LoadType] refuses a type whose tag is in use, and, the tag being
    free, one whose name is in use, and leaves the set alone; otherwise,
    tag and name both being free, it succeeds: it files the type under its
    name and raises [LastTag] to the larger of the two. A well-formed set
    is well formed after a successful load, so that a later [RegisterType]
    cannot hand out the tag of a loaded type. *)
Theorem LoadType_spec (ts : TypeSet) (vt : VersionedType) :
  (HasTag ts (Tag vt) = true ->
   LoadType ts vt = inl (TagAlreadyExists (Tag vt)))
  /\ (HasTag ts (Tag vt) = false -> is_Some (Types ts !! Name vt) ->
      LoadType ts vt = inl (NameAlreadyExists (Name vt)))
  /\ (HasTag ts (Tag vt) = false -> Types ts !! Name vt = None ->
      LoadType ts vt
      = inr {| Types := <[Name vt := vt]> (Types ts);
               LastTag := Z.max (LastTag ts) (Tag vt) |})
  /\ (forall ts', LoadType ts vt = inr ts' ->
        Types ts' = <[Name vt := vt]> (Types ts)
        /\ LastTag ts' = Z.max (LastTag ts) (Tag vt)
        /\ TypeSet_Type ts' (Name vt) = Ok vt
        /\ HasTag ts' (Tag vt) = true
        /\ (TypeSet_wf ts -> TypeSet_wf ts')).
Proof.
  split; [|split; [|split]].
  - intros H. unfold LoadType. rewrite H. reflexivity.
  - intros H [x Hx]. unfold LoadType. rewrite H, Hx. reflexivity.
  - intros Htag Hname. unfold LoadType. rewrite Htag, Hname. f_equal. f_equal.
    destruct (LastTag ts <? Tag vt) eqn:Hlt; lia.
  - intros ts' Hload.
    apply LoadType_inr in Hload as (Htag & Hname & ->).
    cbn [Types LastTag]. split; [reflexivity|]. split; [reflexivity|].
    split; [|split].
    + unfold TypeSet_Type. cbn [Types]. rewrite lookup_insert_eq. reflexivity.
    + apply HasTag_true. exists (Name vt), vt. cbn [Types].
      rewrite lookup_insert_eq. split; reflexivity.
    + intros [Hentries Hunique].
      pose proof (proj1 (HasTag_false ts (Tag vt)) Htag) as Hfree.
      split; cbn [Types LastTag].
      * intros n v Hlook. destruct (decide (n = Name vt)) as [->|Hne].
        -- rewrite lookup_insert_eq in Hlook. injection Hlook as <-.
           split; [reflexivity | lia].
        -- rewrite lookup_insert_ne in Hlook by congruence.
           destruct (Hentries n v Hlook). split; [assumption | lia].
      * intros n1 n2 v1 v2 H1 H2 Heq.
        destruct (decide (n1 = Name vt)) as [->|Hne1];
          destruct (decide (n2 = Name vt)) as [->|Hne2]; try reflexivity.
        -- rewrite lookup_insert_eq in H1. injection H1 as <-.
           rewrite lookup_insert_ne in H2 by congruence.
           exfalso. exact (Hfree n2 v2 H2 (eq_sym Heq)).
        -- rewrite lookup_insert_eq in H2. injection H2 as <-.
           rewrite lookup_insert_ne in H1 by congruence.
           exfalso. exact (Hfree n1 v1 H1 Heq).
        -- rewrite lookup_insert_ne in H1, H2 by congruence.
           exact (Hunique n1 n2 v1 v2 H1 H2 Heq).
Qed.

Lemma LoadType_spec_witness :
  LoadType (RegisterType emptyTypeSet "_type").1 (newVersionedType "x" 1)
  = inl (TagAlreadyExists 1)
  /\ LoadType (RegisterType emptyTypeSet "_type").1 (newVersionedType "_type" 9)
     = inl (NameAlreadyExists "_type")
  /\ LoadType (RegisterType emptyTypeSet "_type").1 (newVersionedType "x" 9)
     = inr {| Types := <["x" := newVersionedType "x" 9]>
                         (Types (RegisterType emptyTypeSet "_type").1);
              LastTag := 9 |}
  /\ LastTag match LoadType emptyTypeSet flagType with
             | inr ts' => ts'
             | inl _ => emptyTypeSet
             end = 3.
Proof.
  destruct (LoadType_spec (RegisterType emptyTypeSet "_type").1
              (newVersionedType "x" 1)) as (Htag & _).
  destruct (LoadType_spec (RegisterType emptyTypeSet "_type").1
              (newVersionedType "_type" 9)) as (_ & Hname & _).
  destruct (LoadType_spec (RegisterType emptyTypeSet "_type").1
              (newVersionedType "x" 9)) as (_ & _ & Hfree & _).
  destruct (LoadType_spec emptyTypeSet flagType) as (_ & _ & _ & Hok).
  split; [apply Htag; reflexivity|].
  split; [apply Hname; [reflexivity | eexists; reflexivity]|].
  split; [apply Hfree; reflexivity|].
  destruct (LoadType emptyTypeSet flagType) as [e|ts'] eqn:Hload;
    [discriminate Hload|].
  destruct (Hok ts' eq_refl) as (_ & Hlast & _). exact Hlast.
Defined.

(** X8. With enough fuel [NewTypeSet] returns a well-formed set that holds
    ["_type"] alone, with tag 1 and the single version 0, whose last tag is
    1; the first other name registered in it receives the tag 2, and its
    keys are encoded with the prefix [00 02]. *)
Theorem NewTypeSet_spec :
  exists fuel ts typeType,
    NewTypeSet Spack.decls fuel = Ok ts
    /\ TypeSet_wf ts /\ LastTag ts = 1
    /\ Types ts = {["_type" := typeType]}
    /\ Name typeType = "_type"%string /\ Tag typeType = 1
    /\ map VersionNo (Versions typeType) = [0]
    /\ forall name key,
         name <> "_type"%string ->
         Tag (RegisterType ts name).2 = 2
         /\ VersionedType_EncodeKey (RegisterType ts name).2 key
            = 0 :: 2 :: bytes_of_string key.
Proof.
  exists 16%nat.
  destruct (NewTypeSet Spack.decls 16) as [ts| | |] eqn:Hnew;
    try (vm_compute in Hnew; discriminate Hnew).
  destruct (Types ts !! "_type") as [typeType|] eqn:Htt.
  2:{ exfalso. revert Htt. injection Hnew as <-. vm_compute. discriminate. }
  exists ts, typeType.
  assert (Htypes : Types ts = {["_type" := typeType]}).
  { revert Htt. injection Hnew as <-. intros Htt.
    vm_compute in Htt. injection Htt as <-. vm_compute. reflexivity. }
  assert (Hlast : LastTag ts = 1) by (injection Hnew as <-; reflexivity).
  assert (Htag : Tag typeType = 1).
  { revert Htt. injection Hnew as <-. intros Htt.
    vm_compute in Htt. injection Htt as <-. reflexivity. }
  assert (Hname : Name typeType = "_type"%string).
  { revert Htt. injection Hnew as <-. intros Htt.
    vm_compute in Htt. injection Htt as <-. reflexivity. }
  split; [reflexivity|]. split; [|split; [exact Hlast|]].
  - split; rewrite Htypes.
    + intros n v Hlook. apply lookup_singleton_Some in Hlook as [<- <-].
      split; [exact Hname | lia].
    + intros n1 n2 v1 v2 H1 H2 _.
      apply lookup_singleton_Some in H1 as [<- _].
      apply lookup_singleton_Some in H2 as [<- _]. reflexivity.
  - split; [exact Htypes|]. split; [exact Hname|]. split; [exact Htag|].
    split.
    + revert Htt. injection Hnew as <-. intros Htt.
      vm_compute in Htt. injection Htt as <-. reflexivity.
    + intros name key Hne. unfold RegisterType.
      rewrite Htypes, lookup_singleton_ne by congruence.
      rewrite Hlast. cbn [snd]. split; reflexivity.
Qed.

(** ** Versions of a type *)

Lemma lookup_nth_error {A} (l : list A) (i : nat) : l !! i = nth_error l i.
Proof.
  revert i. induction l as [|a l IH]; intros [|i]; try reflexivity.
  apply IH.
Qed.

Lemma descending_ext (l l' : list Version) :
  map VersionNo l = map VersionNo l' -> descending l = descending l'.
Proof.
  revert l'. induction l as [|a l IH]; intros [|a' l'] H; try discriminate;
    [reflexivity|].
  cbn [map] in H. injection H as Ha Hl. cbn [descending].
  rewrite (IH l' Hl), Ha. f_equal.
  clear IH. revert l' Hl. induction l as [|b l IHl]; intros [|b' l'] Hl;
    try discriminate; [reflexivity|].
  cbn [map] in Hl. injection Hl as Hb Hl. cbn [forallb].
  rewrite Hb, (IHl l' Hl). reflexivity.
Qed.

Lemma descending_forall (a : Version) (l : list Version) :
  descending (a :: l) = true <->
  (forall y, In y l -> VersionNo y < VersionNo a) /\ descending l = true.
Proof.
  cbn [descending]. rewrite andb_true_iff, forallb_forall.
  split; intros [H1 H2]; (split; [|exact H2]); intros y Hy;
    specialize (H1 y Hy); lia.
Qed.

Lemma insertVersion_above (v : Version) (l : list Version) :
  (forall y, In y l -> VersionNo y < VersionNo v) -> insertVersion v l = v :: l.
Proof.
  destruct l as [|x l]; [reflexivity|]. intros H. cbn [insertVersion].
  replace (VersionNo x <? VersionNo v) with true; [reflexivity|].
  symmetry. apply Z.ltb_lt, H. left. reflexivity.
Qed.

Lemma In_insertVersion (v w : Version) (l : list Version) :
  In w (insertVersion v l) <-> w = v \/ In w l.
Proof.
  induction l as [|x l IH]; cbn [insertVersion].
  - cbn. intuition congruence.
  - destruct (VersionNo x <? VersionNo v).
    + cbn. intuition congruence.
    + cbn [In]. rewrite IH. intuition congruence.
Qed.

Lemma descending_insertVersion (v : Version) (l : list Version) :
  descending l = true ->
  (forall y, In y l -> VersionNo y <> VersionNo v) ->
  descending (insertVersion v l) = true.
Proof.
  induction l as [|x l IH]; intros Hd Hfresh; [reflexivity|].
  apply descending_forall in Hd as [Hx Hd].
  cbn [insertVersion]. destruct (VersionNo x <? VersionNo v) eqn:Hlt.
  - apply Z.ltb_lt in Hlt. apply descending_forall. split.
    + intros y [<-|Hy]; [exact Hlt | specialize (Hx y Hy); lia].
    + apply descending_forall. split; assumption.
  - apply Z.ltb_ge in Hlt.
    assert (VersionNo x <> VersionNo v) by (apply Hfresh; left; reflexivity).
    apply descending_forall. split.
    + intros y Hy. apply In_insertVersion in Hy as [->|Hy]; [lia | auto].
    + apply IH; [exact Hd|]. intros y Hy. apply Hfresh. right. exact Hy.
Qed.

(** Sorting a descending list with one version appended puts that version
    in its place. *)
Lemma insertVersion_below (v : Version) (l : list Version) :
  (forall y, In y l -> VersionNo v < VersionNo y) ->
  insertVersion v l = l ++ [v].
Proof.
  induction l as [|x l IH]; intros H; [reflexivity|].
  cbn [insertVersion app].
  replace (VersionNo x <? VersionNo v) with false
    by (symmetry; apply Z.ltb_ge; specialize (H x (or_introl eq_refl)); lia).
  rewrite IH; [reflexivity|]. intros y Hy. apply H. right. exact Hy.
Qed.

Lemma descending_app_above (l l' : list Version) (a : Version) :
  descending (l ++ a :: l') = true ->
  forall y, In y l -> VersionNo a < VersionNo y.
Proof.
  induction l as [|x l IH]; intros Hd y Hy; [destruct Hy|].
  cbn [app] in Hd. apply descending_forall in Hd as [Hx Hd].
  destruct Hy as [->|Hy]; [|exact (IH Hd y Hy)].
  apply Hx. apply in_or_app. right. left. reflexivity.
Qed.

Lemma sort_Sort_sorted (l sorted : list Version) :
  descending (sorted ++ l) = true ->
  fold_left (fun sorted v => insertVersion v sorted) l sorted = sorted ++ l.
Proof.
  revert sorted. induction l as [|a l IH]; intros sorted Hd; cbn [fold_left].
  - symmetry. apply app_nil_r.
  - rewrite (insertVersion_below a sorted)
      by exact (descending_app_above sorted l a Hd).
    rewrite IH; rewrite <- app_assoc; [reflexivity | exact Hd].
Qed.

Lemma sort_Sort_snoc (v : Version) (l : list Version) :
  descending l = true ->
  sort_Sort (l ++ [v]) = insertVersion v l.
Proof.
  intros Hd. unfold sort_Sort. rewrite fold_left_app. cbn [fold_left].
  rewrite (sort_Sort_sorted l []) by exact Hd. reflexivity.
Qed.

Lemma GetVersion_found (vt : VersionedType) (x : Version) :
  descending (Versions vt) = true ->
  In x (Versions vt) ->
  GetVersion vt (VersionNo x) = Some x.
Proof.
  intros Hd Hin. apply In_nth_error in Hin as [idx Hidx].
  unfold GetVersion. rewrite (getVersion_found vt idx x Hd Hidx).
  reflexivity.
Qed.

(** X9. On a descending list of versions [getVersion] finds a number
    exactly when a version bears it, and returns that version with its
    index; it returns nothing exactly when no version bears the number. *)
Theorem getVersion_spec (vt : VersionedType) (v : Z) :
  descending (Versions vt) = true ->
  (forall idx x,
     getVersion vt v = Some (idx, x)
     <-> nth_error (Versions vt) idx = Some x /\ VersionNo x = v)
  /\ (getVersion vt v = None
      <-> forall x, In x (Versions vt) -> VersionNo x <> v)
  /\ (forall x, GetVersion vt v = Some x
                <-> In x (Versions vt) /\ VersionNo x = v).
Proof.
  intros Hd.
  assert (Hiff : forall idx x,
     getVersion vt v = Some (idx, x)
     <-> nth_error (Versions vt) idx = Some x /\ VersionNo x = v).
  { intros idx x. split.
    - apply getVersion_Some.
    - intros [Hx <-]. apply getVersion_found; assumption. }
  split; [exact Hiff|]. split.
  - split.
    + intros Hnone x Hin Hv. apply In_nth_error in Hin as [idx Hidx].
      rewrite (proj2 (Hiff idx x) (conj Hidx Hv)) in Hnone. discriminate.
    + apply getVersion_absent.
  - intros x. unfold GetVersion. split.
    + destruct (getVersion vt v) as [[idx y]|] eqn:Hg; [|discriminate].
      cbn. intros H. injection H as <-.
      apply getVersion_Some in Hg as [Hy Hv]. split; [|exact Hv].
      exact (nth_error_In _ _ Hy).
    + intros [Hin Hv]. apply In_nth_error in Hin as [idx Hidx].
      rewrite (proj2 (Hiff idx x) (conj Hidx Hv)). reflexivity.
Qed.

Lemma getVersion_spec_witness :
  descending (Versions TestUpgrade.registry) = true
  /\ option_map fst (getVersion TestUpgrade.registry 1) = Some 1%nat
  /\ getVersion TestUpgrade.registry 5 = None.
Proof.
  split; [reflexivity|].
  destruct (getVersion_spec TestUpgrade.registry 1 eq_refl) as (Hfound & _).
  destruct (getVersion_spec TestUpgrade.registry 5 eq_refl) as (_ & Hnone & _).
  split.
  - rewrite (proj2 (Hfound 1%nat (TestUpgrade.version 1))
               (conj eq_refl eq_refl)). reflexivity.
  - apply Hnone. intros x Hx.
    destruct Hx as [<-|[<-|[<-|[]]]]; discriminate.
Defined.

(** X10. [AddVersion] with a number no version bears: whenever the spec
    of the exemplar can be built, the call succeeds, the new version
    carries that spec, exemplar and upgrader, every earlier version is kept,
    the list stays strictly descending, [getVersion] finds the new version,
    and the type is marked dirty. *)
Theorem AddVersion_new (decls : Decls) (fuel : nat) (vt : VersionedType)
  (vers : Z) (exemplar : Value) (upgrader : option UpgradeFunc)
  (spec : TypeSpec) :
  descending (Versions vt) = true ->
  (forall w, In w (Versions vt) -> VersionNo w <> vers) ->
  MakeTypeSpec decls fuel exemplar = Ok spec ->
  let added := {| VersionNo := vers; Spec := spec; Exemplar := exemplar;
                  Upgrader := upgrader |} in
  exists vt',
    AddVersion decls fuel vt vers exemplar upgrader = Ok vt'
    /\ Name vt' = Name vt /\ Tag vt' = Tag vt /\ Dirty vt' = true
    /\ descending (Versions vt') = true
    /\ (forall w, In w (Versions vt') <-> w = added \/ In w (Versions vt))
    /\ GetVersion vt' vers = Some added
    /\ (forall w, In w (Versions vt) ->
                  GetVersion vt' (VersionNo w) = Some w).
Proof.
  intros Hd Hfresh Hspec added.
  assert (Hvs : sort_Sort (Versions vt ++ [added])
                = insertVersion added (Versions vt))
    by (apply sort_Sort_snoc; assumption).
  assert (Hd' : descending (insertVersion added (Versions vt)) = true)
    by (apply descending_insertVersion; assumption).
  eexists. split.
  - unfold AddVersion. rewrite (getVersion_absent vt vers Hfresh), Hspec.
    cbn [bind]. reflexivity.
  - cbn [Name Tag Dirty Versions setVersions AddVersionObj].
    fold added. rewrite Hvs.
    split; [reflexivity|]. split; [reflexivity|]. split; [reflexivity|].
    split; [exact Hd'|]. split; [intros w; apply In_insertVersion|].
    set (vt' := setVersions (AddVersionObj vt added)
                            (insertVersion added (Versions vt)) true).
    assert (Hvt' : Versions vt' = insertVersion added (Versions vt))
      by reflexivity.
    assert (Hget : forall x, In x (Versions vt') ->
                             GetVersion vt' (VersionNo x) = Some x).
    { intros x Hx. apply GetVersion_found; [rewrite Hvt'; exact Hd'|].
      exact Hx. }
    split.
    + change vers with (VersionNo added).
      apply (Hget added). rewrite Hvt'. apply In_insertVersion. left.
      reflexivity.
    + intros w Hw. apply Hget. rewrite Hvt'. apply In_insertVersion.
      right. exact Hw.
Qed.

Lemma AddVersion_new_witness :
  exists vt',
    AddVersion TestUpgrade.decls TestUpgrade.fuel TestUpgrade.registry 7
               (VStruct TestUpgrade.st0 [VString ""]) None = Ok vt'
    /\ map VersionNo (Versions vt') = [7; 2; 1; 0].
Proof.
  destruct (MakeTypeSpec TestUpgrade.decls TestUpgrade.fuel
              (VStruct TestUpgrade.st0 [VString ""])) as [spec| | |] eqn:Hspec;
    try discriminate Hspec.
  destruct (AddVersion_new TestUpgrade.decls TestUpgrade.fuel
              TestUpgrade.registry 7 (VStruct TestUpgrade.st0 [VString ""])
              None spec eq_refl) as (vt' & Hadd & _).
  - intros w Hw. destruct Hw as [<-|[<-|[<-|[]]]]; discriminate.
  - exact Hspec.
  - exists vt'. split; [exact Hadd|].
    revert Hadd. vm_compute. intros H. injection H as <-. reflexivity.
Defined.

(** X11. [AddVersion] with a number a version bears already: a version
    that has an exemplar or an upgrader is kept and the call returns
    "Version already exists"; a version that has neither is filled in
    place with the exemplar and upgrader given, keeps its spec (none is
    derived from the new exemplar, which may even be nil), and the numbers,
    the order and the dirty flag of the type are unchanged. *)
Theorem AddVersion_existing (decls : Decls) (fuel : nat) (vt : VersionedType)
  (idx : nat) (w : Version) (exemplar : Value)
  (upgrader : option UpgradeFunc) :
  descending (Versions vt) = true ->
  nth_error (Versions vt) idx = Some w ->
  (Exemplar w <> VNil \/ Upgrader w <> None ->
   AddVersion decls fuel vt (VersionNo w) exemplar upgrader
   = Err VersionAlreadyExists)
  /\ (Exemplar w = VNil -> Upgrader w = None ->
      let filled := {| VersionNo := VersionNo w; Spec := Spec w;
                       Exemplar := exemplar; Upgrader := upgrader |} in
      exists vt',
        AddVersion decls fuel vt (VersionNo w) exemplar upgrader = Ok vt'
        /\ Versions vt' = <[idx := filled]> (Versions vt)
        /\ map VersionNo (Versions vt') = map VersionNo (Versions vt)
        /\ descending (Versions vt') = true
        /\ GetVersion vt' (VersionNo w) = Some filled
        /\ Dirty vt' = Dirty vt).
Proof.
  intros Hd Hw.
  pose proof (getVersion_found vt idx w Hd Hw) as Hget.
  split.
  - intros Hheld. unfold AddVersion. rewrite Hget.
    destruct (Exemplar w), (Upgrader w); try reflexivity.
    destruct Hheld; congruence.
  - intros Hex Hup filled. eexists. split.
    + unfold AddVersion. rewrite Hget, Hex, Hup. reflexivity.
    + cbn [Versions Dirty setVersions]. fold filled.
      assert (Hnums : map VersionNo (<[idx := filled]> (Versions vt))
                      = map VersionNo (Versions vt)).
      { change (VersionNo <$> <[idx := filled]> (Versions vt)
                = VersionNo <$> Versions vt).
        rewrite list_fmap_insert. apply list_insert_id.
        rewrite list_lookup_fmap, lookup_nth_error, Hw. reflexivity. }
      assert (Hd' : descending (<[idx := filled]> (Versions vt)) = true)
        by (rewrite (descending_ext _ _ Hnums); exact Hd).
      split; [reflexivity|]. split; [exact Hnums|]. split; [exact Hd'|].
      split; [|reflexivity].
      change (VersionNo w) with (VersionNo filled).
      apply GetVersion_found; [exact Hd'|].
      cbn [Versions]. apply list_elem_of_In.
      apply (list_elem_of_lookup_2 _ idx).
      apply list_lookup_insert_eq.
      apply nth_error_Some. congruence.
Qed.

Lemma AddVersion_existing_witness :
  AddVersion TestUpgrade.decls TestUpgrade.fuel TestUpgrade.registry 2
             VNil None = Err VersionAlreadyExists
  /\ exists vt',
       AddVersion TestUpgrade.decls TestUpgrade.fuel TestUpgrade.loaded 0
                  VNil None = Ok vt'
       /\ map VersionNo (Versions vt') = [0].
Proof.
  destruct (AddVersion_existing TestUpgrade.decls TestUpgrade.fuel
              TestUpgrade.registry 0 (TestUpgrade.version 0) VNil None
              eq_refl eq_refl) as [Hheld _].
  destruct (AddVersion_existing TestUpgrade.decls TestUpgrade.fuel
              TestUpgrade.loaded 0
              (nth 0 (Versions TestUpgrade.loaded) flagVersion) VNil None
              eq_refl eq_refl) as [_ Hhole].
  split.
  - apply Hheld. left. discriminate.
  - destruct (Hhole eq_refl eq_refl) as (vt' & Hadd & _ & Hnums & _).
    exists vt'. split; [exact Hadd | exact Hnums].
Defined.

(** X12. [AddVersion] with a new number and an exemplar from which no spec
    can be built does not return an error: the panic of [MakeTypeSpec]
    leaves the function. So it is for a nil exemplar, for an exemplar of a
    basic type outside the fixed-size numbers, booleans and strings (a Go
    [int], say), and for an attribute map, whose values are of interface
    type. *)
Theorem AddVersion_panics (decls : Decls) (fuel : nat) (vt : VersionedType)
  (vers : Z) (upgrader : option UpgradeFunc) :
  (forall w, In w (Versions vt) -> VersionNo w <> vers) ->
  AddVersion decls fuel vt vers VNil upgrader
  = Panicked (RuntimePanic "nil pointer dereference")
  /\ (forall n, AddVersion decls (S fuel) vt vers (VInt n) upgrader
                = Panicked (CantMakeFieldType Reflect.Int))
  /\ (forall m, AddVersion decls (S (S fuel)) vt vers (VAttrs m) upgrader
                = Panicked (CantMakeFieldType Reflect.Interface)).
Proof.
  intros Hfresh. unfold AddVersion.
  rewrite (getVersion_absent vt vers Hfresh).
  repeat split; reflexivity.
Qed.

Lemma AddVersion_panics_witness :
  AddVersion ∅ 0 (newVersionedType "test" 2) 0 VNil None
  = Panicked (RuntimePanic "nil pointer dereference").
Proof.
  destruct (AddVersion_panics ∅ 0 (newVersionedType "test" 2) 0 None)
    as [H _]; [intros w []|exact H].
Defined.

(** ** Fixed-size numbers *)

Lemma length_be_bytes (n : nat) (x : Z) : length (be_bytes n x) = n.
Proof. induction n as [|n IH]; [reflexivity|]. cbn. rewrite IH. reflexivity. Qed.

Lemma be_value_fold (n : nat) (x acc : Z) :
  fold_left (fun a b => a * 256 + b) (be_bytes n x) acc
  = acc * 2 ^ (8 * Z.of_nat n) + x mod 2 ^ (8 * Z.of_nat n).
Proof.
  revert acc. induction n as [|n IH]; intros acc.
  - cbn. rewrite Z.mod_1_r. lia.
  - cbn [be_bytes fold_left]. rewrite IH.
    change 255 with (Z.ones 8). rewrite Z.land_ones by lia.
    rewrite Z.shiftr_div_pow2 by lia.
    replace (8 * Z.of_nat (S n)) with (8 * Z.of_nat n + 8) by lia.
    rewrite Z.pow_add_r by lia. change (2 ^ 8) with 256.
    assert (0 < 2 ^ (8 * Z.of_nat n)) by (apply Z.pow_pos_nonneg; lia).
    rewrite (Z.rem_mul_r x (2 ^ (8 * Z.of_nat n)) 256) by lia.
    ring.
Qed.

Lemma be_value_be_bytes (n : nat) (x : Z) :
  be_value (be_bytes n x) = x mod 2 ^ (8 * Z.of_nat n).
Proof. unfold be_value. rewrite be_value_fold. lia. Qed.

Lemma readFull_app (bs rest : bytes) :
  readFull (length bs) (bs ++ rest) = Some (bs, rest).
Proof.
  unfold readFull. rewrite length_app.
  replace (length bs <=? length bs + length rest)%nat with true
    by (symmetry; apply Nat.leb_le; lia).
  rewrite firstn_app, skipn_app, firstn_all, skipn_all, Nat.sub_diag.
  cbn. rewrite app_nil_r. reflexivity.
Qed.

Lemma wrap_signed_inrange (bits n : Z) :
  0 < bits -> - 2 ^ (bits - 1) <= n < 2 ^ (bits - 1) ->
  wrap_signed bits (n mod 2 ^ bits) = n.
Proof.
  intros Hbits Hn. unfold wrap_signed.
  assert (Hpow : 2 ^ bits = 2 * 2 ^ (bits - 1)).
  { replace bits with (Z.succ (bits - 1)) at 1 by lia.
    apply Z.pow_succ_r. lia. }
  assert (0 < 2 ^ (bits - 1)) by (apply Z.pow_pos_nonneg; lia).
  rewrite Z.mod_mod by lia.
  destruct (Z.neg_nonneg_cases n) as [Hneg|Hpos].
  - rewrite <- (Z.mod_add n 1) by lia. rewrite Z.mod_small by lia.
    replace (n + 1 * 2 ^ bits <? 2 ^ (bits - 1)) with false by lia. lia.
  - rewrite Z.mod_small by lia.
    replace (n <? 2 ^ (bits - 1)) with true by lia. reflexivity.
Qed.

Lemma fixedSize_of_to (k : Reflect.Kind) :
  Reflect.fixedSize k = true -> Reflect.of_uint8 (Reflect.to_uint8 k) = k.
Proof. destruct k; try discriminate; reflexivity. Qed.

Lemma encodeFieldInner_fixed (fuel : nat) (field : Value) (ft : fieldType)
  (structs : structMap) :
  Reflect.fixedSize (Reflect.of_uint8 (Kind ft)) = true ->
  encodeFieldInner (S fuel) field ft structs = encodeFixedSize field (Kind ft).
Proof.
  intros H. cbn [encodeFieldInner].
  destruct (Reflect.of_uint8 (Kind ft)); try discriminate; reflexivity.
Qed.

Lemma decodeFieldInner_fixed (decls : Decls) (fuel : nat) (field : Value)
  (ft : fieldType) (structs : structMap) (reader : bytes) :
  Reflect.fixedSize (Reflect.of_uint8 (Kind ft)) = true ->
  decodeFieldInner decls (S fuel) field ft structs reader
  = binary_Read field reader.
Proof.
  intros H. cbn [decodeFieldInner].
  destruct (Reflect.of_uint8 (Kind ft)); try discriminate; reflexivity.
Qed.

Lemma binary_Write_VNum (k : Reflect.Kind) (n : Z) :
  Reflect.fixedSize k = true ->
  binary_Write (VNum k n) = inr (be_bytes (Reflect.size k) n).
Proof. intros H. unfold binary_Write. rewrite H. reflexivity. Qed.

Lemma binary_Read_fixed (k : Reflect.Kind) (n : Z) (old : Value) (rest : bytes) :
  Reflect.fixedSize k = true -> inRange k n ->
  binary_Read (VPtr (TBasic k) (Some old))
              (be_bytes (Reflect.size k) n ++ rest)
  = Ok (VPtr (TBasic k) (Some (VNum k n)), rest).
Proof.
  intros Hfixed Hrange. unfold binary_Read. rewrite Hfixed.
  assert (Hnb : bool_decide (k = Reflect.Bool) = false)
    by (destruct k; try discriminate; reflexivity).
  rewrite Hnb.
  rewrite <- (length_be_bytes (Reflect.size k) n) at 1.
  rewrite readFull_app.
  replace (bool_decide (Some old <> None)) with true
    by (symmetry; apply bool_decide_eq_true; discriminate).
  rewrite be_value_be_bytes. unfold inRange in Hrange.
  assert (Hsize : 0 < 8 * Z.of_nat (Reflect.size k))
    by (destruct k; try discriminate; cbn; lia).
  destruct (Reflect.signed k).
  - rewrite wrap_signed_inrange by assumption. reflexivity.
  - rewrite Z.mod_small by assumption. reflexivity.
Qed.

Lemma EncodeToBytes_fixed (fuel : nat) (ts : TypeSpec) (k : Reflect.Kind)
  (n : Z) :
  Reflect.fixedSize k = true ->
  Kind (Top ts) = Reflect.to_uint8 k ->
  EncodeToBytes (S fuel) (VNum k n) ts = Ok (be_bytes (Reflect.size k) n).
Proof.
  intros Hfixed Hkind.
  assert (Hft : Reflect.fixedSize (Reflect.of_uint8 (Kind (Top ts))) = true)
    by (rewrite Hkind, fixedSize_of_to; assumption).
  unfold EncodeToBytes, SafeEncodeField.
  rewrite encodeFieldInner_fixed by exact Hft.
  unfold encodeFixedSize. rewrite Hkind, fixedSize_of_to by exact Hfixed.
  replace (match k with
           | Reflect.Float64 => convertFloatToFixedSize n k
           | _ => VNum k n
           end) with (VNum k n)
    by (destruct k; try discriminate; reflexivity).
  rewrite binary_Write_VNum by exact Hfixed. reflexivity.
Qed.

Lemma DecodeFromBytes_fixed (decls : Decls) (fuel : nat) (ts : TypeSpec)
  (k : Reflect.Kind) (n old : Z) :
  Reflect.fixedSize k = true ->
  Kind (Top ts) = Reflect.to_uint8 k ->
  inRange k n ->
  DecodeFromBytes decls (S fuel) (VPtr (TBasic k) (Some (VNum k old))) ts
                  (be_bytes (Reflect.size k) n)
  = Ok (VPtr (TBasic k) (Some (VNum k n))).
Proof.
  intros Hfixed Hkind Hrange.
  assert (Hft : Reflect.fixedSize (Reflect.of_uint8 (Kind (Top ts))) = true)
    by (rewrite Hkind, fixedSize_of_to; assumption).
  unfold DecodeFromBytes, SafeDecodeField.
  rewrite decodeFieldInner_fixed by exact Hft.
  pose proof (binary_Read_fixed k n (VNum k old) [] Hfixed Hrange) as Hread.
  rewrite app_nil_r in Hread. rewrite Hread. reflexivity.
Qed.

(** X13. A number of a fixed-size kind (an integer of its width, or the
    bit pattern of a float or complex number) is encoded as the bytes of
    its width, most significant first, and decoding those bytes into a
    cell of that kind yields the number again and consumes exactly them. *)
Theorem fixed_size_roundtrip (decls : Decls) (fuel : nat) (ts : TypeSpec)
  (k : Reflect.Kind) (n old : Z) (rest : bytes) :
  Reflect.fixedSize k = true ->
  Kind (Top ts) = Reflect.to_uint8 k ->
  inRange k n ->
  let enc := be_bytes (Reflect.size k) n in
  let cell := VPtr (TBasic k) (Some (VNum k old)) in
  EncodeToBytes (S fuel) (VNum k n) ts = Ok enc
  /\ length enc = Reflect.size k
  /\ decodeField decls (S fuel) cell ts (enc ++ rest)
     = Ok (VPtr (TBasic k) (Some (VNum k n)), rest)
  /\ DecodeFromBytes decls (S fuel) cell ts enc
     = Ok (VPtr (TBasic k) (Some (VNum k n))).
Proof.
  intros Hfixed Hkind Hrange enc cell.
  assert (Hft : Reflect.fixedSize (Reflect.of_uint8 (Kind (Top ts))) = true)
    by (rewrite Hkind, fixedSize_of_to; assumption).
  split; [|split; [apply length_be_bytes|split]].
  - apply EncodeToBytes_fixed; assumption.
  - unfold decodeField. rewrite decodeFieldInner_fixed by exact Hft.
    apply binary_Read_fixed; assumption.
  - apply DecodeFromBytes_fixed; assumption.
Qed.

Lemma fixed_size_roundtrip_witness :
  inRange Reflect.Int32 123123123
  /\ EncodeToBytes 1 (VNum Reflect.Int32 123123123) (kindSpec Reflect.Int32)
     = Ok [7; 86; 181; 179]
  /\ DecodeFromBytes ∅ 1 (VPtr (TBasic Reflect.Int32) (Some (VNum Reflect.Int32 0)))
                     (kindSpec Reflect.Int32) [7; 86; 181; 179]
     = Ok (VPtr (TBasic Reflect.Int32) (Some (VNum Reflect.Int32 123123123))).
Proof.
  assert (Hrange : inRange Reflect.Int32 123123123)
    by (unfold inRange; cbn; lia).
  destruct (fixed_size_roundtrip ∅ 0 (kindSpec Reflect.Int32) Reflect.Int32
              123123123 0 [] eq_refl eq_refl Hrange) as (Henc & _ & _ & Hdec).
  split; [exact Hrange|]. split; [exact Henc | exact Hdec].
Defined.

Lemma narrow_inRange (k : Reflect.Kind) (n : Z) :
  integerKind k = true -> inRange k (narrow k n).
Proof.
  intros Hk. unfold inRange, narrow.
  assert (Hbits : 8 * Z.of_nat (Reflect.size k) = 8
                  \/ 8 * Z.of_nat (Reflect.size k) = 16
                  \/ 8 * Z.of_nat (Reflect.size k) = 32
                  \/ 8 * Z.of_nat (Reflect.size k) = 64)
    by (destruct k; try discriminate; cbn; lia).
  destruct (Reflect.signed k); unfold wrap_signed, wrap_unsigned;
    destruct Hbits as [-> | [-> | [-> | ->]]]; cbn -[Z.modulo Z.ltb];
    match goal with
    | |- context [n mod ?m] =>
        pose proof (Z.mod_pos_bound n m ltac:(lia));
        try destruct (n mod m <? _) eqn:?; lia
    end.
Qed.

(** X14. A Go [int] handed to a field of an integer kind is narrowed by
    wrap-around with no range check: it is encoded as the fixed-size value
    [int8(n)], ..., [uint64(n)], which is what comes back on decode, and
    which is [n] itself only when [n] fits. Handed to a float or complex
    field it cannot be written, and the safe encoder returns an error. *)
Theorem int_narrowing (decls : Decls) (fuel : nat) (ts : TypeSpec)
  (k : Reflect.Kind) (n old : Z) :
  Reflect.fixedSize k = true ->
  Kind (Top ts) = Reflect.to_uint8 k ->
  (integerKind k = true ->
   EncodeToBytes (S fuel) (VInt n) ts
   = Ok (be_bytes (Reflect.size k) (narrow k n))
   /\ EncodeToBytes (S fuel) (VInt n) ts
      = EncodeToBytes (S fuel) (VNum k (narrow k n)) ts
   /\ DecodeFromBytes decls (S fuel) (VPtr (TBasic k) (Some (VNum k old))) ts
                      (be_bytes (Reflect.size k) (narrow k n))
      = Ok (VPtr (TBasic k) (Some (VNum k (narrow k n))))
   /\ (inRange k n -> narrow k n = n))
  /\ (integerKind k = false ->
      EncodeToBytes (S fuel) (VInt n) ts
      = Err (EncodingFailed (FixedSizeEncodeError ErrInvalidType))).
Proof.
  intros Hfixed Hkind.
  assert (Hft : Reflect.fixedSize (Reflect.of_uint8 (Kind (Top ts))) = true)
    by (rewrite Hkind, fixedSize_of_to; assumption).
  assert (Henc : EncodeToBytes (S fuel) (VInt n) ts
                 = match binary_Write (convertIntToFixedSize n k) with
                   | inr out => Ok out
                   | inl err => Err (EncodingFailed (FixedSizeEncodeError err))
                   end).
  { unfold EncodeToBytes, SafeEncodeField.
    rewrite encodeFieldInner_fixed by exact Hft.
    unfold encodeFixedSize. rewrite Hkind, fixedSize_of_to by exact Hfixed.
    destruct (binary_Write (convertIntToFixedSize n k)); reflexivity. }
  split.
  - intros Hint.
    assert (Hconv : convertIntToFixedSize n k = VNum k (narrow k n))
      by (destruct k; try discriminate; reflexivity).
    pose proof (narrow_inRange k n Hint) as Hrange.
    pose proof (EncodeToBytes_fixed fuel ts k (narrow k n) Hfixed Hkind)
      as He.
    pose proof (DecodeFromBytes_fixed decls fuel ts k (narrow k n) old
                  Hfixed Hkind Hrange) as Hd.
    split; [|split; [|split]].
    + rewrite Henc, Hconv, binary_Write_VNum by exact Hfixed. reflexivity.
    + rewrite He, Henc, Hconv, binary_Write_VNum by exact Hfixed. reflexivity.
    + exact Hd.
    + intros Hn. unfold narrow. unfold inRange in Hn.
      assert (0 < 8 * Z.of_nat (Reflect.size k))
        by (destruct k; try discriminate; cbn; lia).
      destruct (Reflect.signed k).
      * transitivity (wrap_signed (8 * Z.of_nat (Reflect.size k))
                        (n mod 2 ^ (8 * Z.of_nat (Reflect.size k)))).
        -- unfold wrap_signed. rewrite Z.mod_mod; [reflexivity|].
           apply Z.pow_nonzero; lia.
        -- apply wrap_signed_inrange; assumption.
      * unfold wrap_unsigned. apply Z.mod_small. exact Hn.
  - intros Hint. rewrite Henc.
    destruct k; try discriminate; reflexivity.
Qed.

Lemma int_narrowing_witness :
  EncodeToBytes 1 (VInt 300) (kindSpec Reflect.Uint8) = Ok [44]
  /\ EncodeToBytes 1 (VInt 300) (kindSpec Reflect.Float32)
     = Err (EncodingFailed (FixedSizeEncodeError ErrInvalidType)).
Proof.
  destruct (int_narrowing ∅ 0 (kindSpec Reflect.Uint8) Reflect.Uint8 300 0
              eq_refl eq_refl) as [Hint _].
  destruct (int_narrowing ∅ 0 (kindSpec Reflect.Float32) Reflect.Float32 300 0
              eq_refl eq_refl) as [_ Hfloat].
  split.
  - destruct (Hint eq_refl) as (H & _). exact H.
  - exact (Hfloat eq_refl).
Defined.

(** ** Lengths and strings *)

Lemma testbit_small (b n : Z) : 0 <= n -> 0 <= b < 2 ^ n -> Z.testbit b n = false.
Proof.
  intros Hn Hb. rewrite <- (Z.mod_small b (2 ^ n)) by lia.
  apply Z.mod_pow2_bits_high. lia.
Qed.

Lemma continuation_byte_ge (x : Z) :
  0 <= x -> (Z.lor (Z.land x 255) 128 <? 128) = false.
Proof.
  intros Hx. apply Z.ltb_ge.
  destruct (Z.lt_ge_cases (Z.lor (Z.land x 255) 128) 128) as [Hlt|]; [|lia].
  assert (Hnn : 0 <= Z.lor (Z.land x 255) 128).
  { apply Z.lor_nonneg. split; [apply Z.land_nonneg|]; lia. }
  pose proof (testbit_small (Z.lor (Z.land x 255) 128) 7 ltac:(lia)
                ltac:(change (2 ^ 7) with 128; lia)) as Hbit.
  rewrite Z.lor_spec in Hbit. change (Z.testbit 128 7) with true in Hbit.
  rewrite orb_true_r in Hbit. discriminate.
Qed.

Lemma continuation_byte_low (x : Z) :
  Z.land (Z.lor (Z.land x 255) 128) 127 = Z.land x 127.
Proof.
  apply Z.bits_inj'. intros j Hj.
  rewrite !Z.land_spec, Z.lor_spec, Z.land_spec.
  change 127 with (Z.ones 7). change 255 with (Z.ones 8).
  change 128 with (2 ^ 7).
  destruct (Z.lt_ge_cases j 7) as [Hlt|Hge].
  - rewrite (Z.ones_spec_low 7 j), (Z.ones_spec_low 8 j) by lia.
    rewrite Z.pow2_bits_false by lia.
    destruct (Z.testbit x j); reflexivity.
  - rewrite (Z.ones_spec_high 7 j) by lia. rewrite !andb_false_r. reflexivity.
Qed.

Lemma septet_split (x s : Z) :
  0 <= s ->
  Z.lor (Z.shiftl (Z.land x 127) s) (Z.shiftl (Z.shiftr x 7) (s + 7))
  = Z.shiftl x s.
Proof.
  intros Hs. apply Z.bits_inj'. intros j Hj.
  rewrite Z.lor_spec, !Z.shiftl_spec by lia.
  change 127 with (Z.ones 7).
  destruct (Z.lt_ge_cases j s) as [Hlt|Hge].
  - rewrite !Z.testbit_neg_r by lia. reflexivity.
  - rewrite Z.land_spec.
    destruct (Z.lt_ge_cases (j - s) 7) as [Hlow|Hhigh].
    + rewrite Z.ones_spec_low by lia.
      rewrite (Z.testbit_neg_r _ (j - (s + 7))) by lia.
      rewrite andb_true_r, orb_false_r. reflexivity.
    + rewrite Z.ones_spec_high by lia.
      rewrite Z.shiftr_spec by lia. rewrite andb_false_r. cbn [orb].
      f_equal. lia.
Qed.

Lemma ReadUvarint_loop_cons (n : nat) (i x s b : Z) (r : bytes) :
  ReadUvarint_loop (S n) i x s (b :: r)
  = if b <? 128 then
      if (i =? 9) && (1 <? b) then inl ErrOverflow
      else inr (Z.lor x (Z.shiftl b s), r)
    else ReadUvarint_loop n (i + 1) (Z.lor x (Z.shiftl (Z.land b 127) s))
                          (s + 7) r.
Proof. reflexivity. Qed.

Lemma uvarint_loop (m : nat) :
  forall (x acc s : Z) (rest : bytes),
    0 <= x < 2 ^ (7 * Z.of_nat m + 1) -> 0 <= s ->
    ReadUvarint_loop (S m) (9 - Z.of_nat m) acc s
                     (PutUvarint_loop m x ++ rest)
    = inr (Z.lor acc (Z.shiftl x s), rest).
Proof.
  induction m as [|m IH]; intros x acc s rest Hx Hs.
  - change (2 ^ (7 * Z.of_nat 0 + 1)) with 2 in Hx.
    cbn [PutUvarint_loop app]. rewrite ReadUvarint_loop_cons.
    change 255 with (Z.ones 8). rewrite Z.land_ones by lia.
    rewrite Z.mod_small by lia.
    replace (x <? 128) with true by lia.
    replace (1 <? x) with false by lia.
    rewrite andb_false_r. reflexivity.
  - cbn [PutUvarint_loop]. destruct (128 <=? x) eqn:Hbig.
    + apply Z.leb_le in Hbig.
      cbn [app]. rewrite ReadUvarint_loop_cons.
      rewrite continuation_byte_ge by lia.
      rewrite continuation_byte_low.
      replace (9 - Z.of_nat (S m) + 1) with (9 - Z.of_nat m) by lia.
      rewrite IH.
      * rewrite <- Z.lor_assoc, septet_split by lia. reflexivity.
      * rewrite Z.shiftr_div_pow2 by lia. change (2 ^ 7) with 128.
        split; [apply Z.div_pos; lia|].
        apply Z.div_lt_upper_bound; [lia|].
        replace (7 * Z.of_nat (S m) + 1) with (7 + (7 * Z.of_nat m + 1)) in Hx
          by lia.
        rewrite Z.pow_add_r in Hx by lia. change (2 ^ 7) with 128 in Hx. lia.
      * lia.
    + apply Z.leb_gt in Hbig. cbn [app]. rewrite ReadUvarint_loop_cons.
      replace (x <? 128) with true by lia.
      destruct (9 - Z.of_nat (S m) =? 9) eqn:Hnine;
        [apply Z.eqb_eq in Hnine; clear -Hnine; lia|].
      reflexivity.
Qed.

Lemma ReadUvarint_PutUvarint (x : Z) (rest : bytes) :
  0 <= x < 2 ^ 64 -> ReadUvarint (PutUvarint x ++ rest) = inr (x, rest).
Proof.
  intros Hx. unfold ReadUvarint, PutUvarint.
  change 0 with (9 - Z.of_nat 9) at 1.
  rewrite uvarint_loop; [|exact Hx|lia].
  rewrite Z.shiftl_0_r. reflexivity.
Qed.

Lemma length_PutUvarint_loop (m : nat) (x : Z) :
  (1 <= length (PutUvarint_loop m x) <= S m)%nat.
Proof.
  revert x. induction m as [|m IH]; intros x; cbn [PutUvarint_loop].
  - cbn. lia.
  - destruct (128 <=? x); cbn [length]; [specialize (IH (Z.shiftr x 7))|]; lia.
Qed.

(** X15. A length below 2^64 written by [writeLength] occupies between
    one and ten bytes, a single byte holding the length itself when it is
    below 128, and [binary.ReadUvarint], with which the decoder reads
    lengths and counts, reads it back and consumes exactly those bytes. *)
Theorem writeLength_roundtrip (length : nat) (rest : bytes) :
  Z.of_nat length < 2 ^ 64 ->
  ReadUvarint (writeLength length ++ rest) = inr (Z.of_nat length, rest)
  /\ (1 <= List.length (writeLength length) <= 10)%nat
  /\ (Z.of_nat length < 128 -> writeLength length = [Z.of_nat length]).
Proof.
  intros Hlen. unfold writeLength. split; [|split].
  - apply ReadUvarint_PutUvarint. lia.
  - apply length_PutUvarint_loop.
  - intros Hsmall. unfold PutUvarint. cbn [PutUvarint_loop].
    replace (128 <=? Z.of_nat length) with false by lia. reflexivity.
Qed.

Lemma writeLength_roundtrip_witness :
  Z.of_nat 300 < 2 ^ 64
  /\ writeLength 300 = [172; 2]
  /\ ReadUvarint (writeLength 300 ++ [7]) = inr (300, [7]).
Proof.
  assert (H : Z.of_nat 300 < 2 ^ 64) by reflexivity.
  split; [exact H|]. split; [reflexivity|].
  destruct (writeLength_roundtrip 300 [7] H) as [Hread _].
  replace (Z.of_nat 300) with 300 in Hread by reflexivity. exact Hread.
Defined.

Lemma readRunes_ascii (bs : bytes) :
  forall (rest : bytes) (runes : list Z) (count : Z) (bound : nat),
    Forall (fun b => 0 <= b < 128) bs ->
    (length bs <= bound)%nat ->
    readRunes bound (count + Z.of_nat (length bs)) count (bs ++ rest) runes
    = inr (runes ++ bs, rest).
Proof.
  induction bs as [|b bs IH]; intros rest runes count bound Hbs Hbound.
  - cbn [length app]. rewrite app_nil_r.
    destruct bound; cbn [readRunes];
      replace (count <? count + Z.of_nat 0) with false
        by (symmetry; apply Z.ltb_ge; lia);
      reflexivity.
  - inversion Hbs as [|? ? Hb Hbs']; subst.
    destruct bound as [|bound]; [cbn in Hbound; lia|].
    cbn [readRunes].
    replace (count <? count + Z.of_nat (length (b :: bs))) with true
      by (symmetry; apply Z.ltb_lt; cbn [length]; lia).
    cbn [app ReadRune DecodeRune].
    replace (b <? 128) with true by lia.
    cbn [skipn Z.of_nat].
    replace (count + Z.of_nat (length (b :: bs)))
      with ((count + 1) + Z.of_nat (length bs)) by (cbn [length]; lia).
    change (count + Z.of_nat 1) with (count + 1). rewrite skipn_O.
    rewrite IH; [|exact Hbs'|cbn in Hbound; lia].
    rewrite <- app_assoc. reflexivity.
Qed.

Lemma string_of_runes_ascii (bs : bytes) :
  Forall (fun b => 0 <= b < 128) bs -> concat (map EncodeRune bs) = bs.
Proof.
  induction 1 as [|b bs Hb _ IH]; [reflexivity|].
  cbn [map concat]. rewrite IH. unfold EncodeRune.
  replace (b <? 0) with false by lia.
  replace (1114111 <? b) with false by lia.
  replace (55296 <=? b) with false by lia.
  replace (b <? 128) with true by lia. reflexivity.
Qed.

Lemma bytes_of_string_nonneg (s : string) :
  Forall (fun b => 0 <= b) (bytes_of_string s).
Proof.
  unfold bytes_of_string. apply List.Forall_forall. intros b Hb.
  apply in_map_iff in Hb as (c & <- & _). lia.
Qed.

Lemma length_bytes_of_string (s : string) :
  length (bytes_of_string s) = String.length s.
Proof.
  unfold bytes_of_string. rewrite length_map.
  induction s as [|c s IH]; [reflexivity|]. cbn. rewrite IH. reflexivity.
Qed.

Lemma isASCII_Forall (s : string) :
  isASCII s = true -> Forall (fun b => 0 <= b < 128) (bytes_of_string s).
Proof.
  unfold isASCII. rewrite forallb_forall. intros H.
  pose proof (bytes_of_string_nonneg s) as Hnn.
  rewrite List.Forall_forall in *. intros b Hb.
  specialize (H b Hb). specialize (Hnn b Hb). lia.
Qed.

(** X16. A string of ASCII characters is encoded as its length, as a
    varint, followed by its bytes, and decoding that into a string cell
    yields the string again and consumes exactly those bytes, whatever
    follows them. *)
Theorem ascii_string_roundtrip (decls : Decls) (fuel : nat) (ts : TypeSpec)
  (s old : string) (rest : bytes) :
  Kind (Top ts) = Reflect.to_uint8 Reflect.String ->
  isASCII s = true ->
  Z.of_nat (String.length s) < 2 ^ 64 ->
  let enc := writeLength (String.length s) ++ bytes_of_string s in
  EncodeToBytes (S fuel) (VString s) ts = Ok enc
  /\ decodeField decls (S fuel) (VPtr TString (Some (VString old))) ts
                 (enc ++ rest)
     = Ok (VPtr TString (Some (VString s)), rest)
  /\ DecodeFromBytes decls (S fuel) (VPtr TString (Some (VString old))) ts enc
     = Ok (VPtr TString (Some (VString s))).
Proof.
  intros Hkind Hascii Hlen enc.
  pose proof (isASCII_Forall s Hascii) as Hbytes.
  assert (Hdec : forall rest,
    decodeField decls (S fuel) (VPtr TString (Some (VString old))) ts
                (enc ++ rest)
    = Ok (VPtr TString (Some (VString s)), rest)).
  { intros rest'. unfold decodeField. cbn [decodeFieldInner]. rewrite Hkind.
    cbn [Reflect.of_uint8 Reflect.to_uint8].
    unfold enc. rewrite <- app_assoc.
    assert (Hread : ReadUvarint (writeLength (String.length s)
                                 ++ bytes_of_string s ++ rest')
                    = inr (Z.of_nat (String.length s),
                           bytes_of_string s ++ rest'))
      by (unfold writeLength; apply ReadUvarint_PutUvarint; lia).
    rewrite Hread.
    rewrite <- (length_bytes_of_string s).
    pose proof (readRunes_ascii (bytes_of_string s) rest' [] 0
                  (length (bytes_of_string s ++ rest')) Hbytes
                  ltac:(rewrite length_app; lia)) as Hrunes.
    rewrite Z.add_0_l in Hrunes. rewrite Hrunes. cbn [app].
    unfold string_of_runes.
    rewrite string_of_runes_ascii, string_of_bytes_of_string by exact Hbytes.
    reflexivity. }
  split; [|split].
  - unfold EncodeToBytes, SafeEncodeField. cbn [encodeFieldInner].
    rewrite Hkind. reflexivity.
  - apply Hdec.
  - unfold DecodeFromBytes, SafeDecodeField.
    specialize (Hdec []). unfold decodeField in Hdec.
    rewrite app_nil_r in Hdec. rewrite Hdec. reflexivity.
Qed.

Lemma ascii_string_roundtrip_witness :
  isASCII "Hello World" = true
  /\ DecodeFromBytes ∅ 1 (VPtr TString (Some (VString "")))
                     (kindSpec Reflect.String)
                     (writeLength 11 ++ bytes_of_string "Hello World")
     = Ok (VPtr TString (Some (VString "Hello World"))).
Proof.
  split; [reflexivity|].
  destruct (ascii_string_roundtrip ∅ 0 (kindSpec Reflect.String)
              "Hello World" "" [] eq_refl eq_refl eq_refl) as (_ & _ & H).
  exact H.
Defined.

(** X17. A string that is not UTF-8 does not survive the round trip: a
    one-character string whose byte is 128 or more is encoded as that byte
    after the length 1, and decodes to the three bytes [EF BF BD] of the
    replacement character, because the decoder reads runes and encodes
    them again. *)
Theorem lone_high_byte_is_replaced (decls : Decls) (fuel : nat) (ts : TypeSpec)
  (c : ascii) (old : string) :
  Kind (Top ts) = Reflect.to_uint8 Reflect.String ->
  128 <= Z.of_N (N_of_ascii c) ->
  EncodeToBytes (S fuel) (VString (String c "")) ts
  = Ok [1; Z.of_N (N_of_ascii c)]
  /\ DecodeFromBytes decls (S fuel) (VPtr TString (Some (VString old))) ts
                     [1; Z.of_N (N_of_ascii c)]
     = Ok (VPtr TString (Some (VString (string_of_bytes [239; 191; 189])))).
Proof.
  intros Hkind Hhigh.
  unfold EncodeToBytes, SafeEncodeField, DecodeFromBytes, SafeDecodeField.
  cbn [encodeFieldInner decodeFieldInner]. rewrite Hkind.
  cbn [Reflect.of_uint8 Reflect.to_uint8].
  destruct c as [[] [] [] [] [] [] [] []];
    try (exfalso; apply Hhigh; reflexivity);
    (split; vm_compute; reflexivity).
Qed.

Lemma lone_high_byte_is_replaced_witness :
  128 <= Z.of_N (N_of_ascii "255"%char)
  /\ DecodeFromBytes ∅ 1 (VPtr TString (Some (VString "")))
                     (kindSpec Reflect.String) [1; 255]
     = Ok (VPtr TString (Some (VString (string_of_bytes [239; 191; 189])))).
Proof.
  assert (H : 128 <= Z.of_N (N_of_ascii "255"%char)) by discriminate.
  split; [exact H|].
  destruct (lone_high_byte_is_replaced ∅ 0 (kindSpec Reflect.String)
              "255"%char "" eq_refl H) as [_ Hdec].
  exact Hdec.
Defined.

(** ** Slices, pointers, ignored fields, unsupported kinds *)

(** X18. A slice without elements, nil or not, is encoded as the single
    byte 0. Decoding a count of 0 into a nil slice leaves it nil; into a
    slice that has elements it leaves an empty, non-nil slice. *)
Theorem empty_slice_codec (decls : Decls) (fuel : nat) (ft : fieldType)
  (structs : structMap) (elemt : GoType) :
  Kind ft = Reflect.to_uint8 Reflect.Slice ->
  encodeFieldInner (S fuel) (VSlice elemt None) ft structs = Ok [0]
  /\ encodeFieldInner (S fuel) (VSlice elemt (Some [])) ft structs = Ok [0]
  /\ (forall rest,
        decodeFieldInner decls (S fuel)
          (VPtr (TSlice elemt) (Some (VSlice elemt None))) ft structs
          (0 :: rest)
        = Ok (VPtr (TSlice elemt) (Some (VSlice elemt None)), rest))
  /\ (forall old rest,
        decodeFieldInner decls (S fuel)
          (VPtr (TSlice elemt) (Some (VSlice elemt (Some old)))) ft structs
          (0 :: rest)
        = Ok (VPtr (TSlice elemt) (Some (VSlice elemt (Some []))), rest)).
Proof.
  intros Hkind. cbn [encodeFieldInner decodeFieldInner]. rewrite Hkind.
  repeat split; reflexivity.
Qed.

Lemma empty_slice_codec_witness :
  decodeFieldInner ∅ 1
    (VPtr (TSlice (TBasic Reflect.Int32))
       (Some (VSlice (TBasic Reflect.Int32) None)))
    (kindType Reflect.Slice) ∅ [0]
  = Ok (VPtr (TSlice (TBasic Reflect.Int32))
          (Some (VSlice (TBasic Reflect.Int32) None)), []).
Proof.
  destruct (empty_slice_codec ∅ 0 (kindType Reflect.Slice) ∅
              (TBasic Reflect.Int32) eq_refl) as (_ & _ & H & _).
  exact (H []).
Defined.

(** X19. A nil pointer is encoded as the single byte 0 and a pointer to a
    value as the byte 1 followed by the encoding of the value. On decode
    the byte 0 leaves the target as it is, a pointer that was not nil
    included; any other byte stands for 1; and a nil pointer target is made
    to point to a fresh value that receives the payload, so that a pointer
    survives the round trip whenever the value it points to does. *)
Theorem pointer_codec (decls : Decls) (fuel : nat) (ft elemFt : fieldType)
  (others : list fieldType) (structs : structMap) (t : GoType) :
  Kind ft = Reflect.to_uint8 Reflect.Ptr ->
  Elem ft = elemFt :: others ->
  encodeFieldInner (S fuel) VNil ft structs = Ok [0]
  /\ encodeFieldInner (S fuel) (VPtr t None) ft structs = Ok [0]
  /\ (forall v out,
        encodeFieldInner fuel v elemFt structs = Ok out ->
        encodeFieldInner (S fuel) (VPtr t (Some v)) ft structs = Ok (1 :: out))
  /\ (forall field rest,
        decodeFieldInner decls (S fuel) field ft structs (0 :: rest)
        = Ok (field, rest))
  /\ (forall field c rest, c <> 0 ->
        decodeFieldInner decls (S fuel) field ft structs (c :: rest)
        = decodeFieldInner decls (S fuel) field ft structs (1 :: rest))
  /\ (forall fresh payload filled rest,
        reflect_New decls fuel t = Ok fresh ->
        decodeFieldInner decls fuel fresh elemFt structs (payload ++ rest)
        = Ok (filled, rest) ->
        decodeFieldInner decls (S fuel) (VPtr (TPtr t) (Some (VPtr t None)))
                         ft structs (1 :: payload ++ rest)
        = Ok (VPtr (TPtr t) (Some filled), rest)).
Proof.
  intros Hkind Helem.
  cbn [encodeFieldInner decodeFieldInner]. rewrite Hkind.
  cbn [Reflect.of_uint8 Reflect.to_uint8].
  unfold ElemAt. rewrite Helem. cbn [nth_error bind].
  split; [reflexivity|]. split; [reflexivity|]. split; [|split; [|split]].
  - intros v out Hout. rewrite Hout. reflexivity.
  - reflexivity.
  - intros field c rest Hc.
    destruct (c =? 0) eqn:Hc0; [apply Z.eqb_eq in Hc0; contradiction|].
    reflexivity.
  - intros fresh payload filled rest Hfresh Hdec.
    cbn [Z.eqb reflect_Indirect]. rewrite Hfresh. cbn [bind].
    rewrite Hdec. reflexivity.
Qed.

Lemma pointer_codec_witness :
  let ft := FieldType (Reflect.to_uint8 Reflect.Ptr)
                      [kindType Reflect.Bool] "" "" in
  encodeFieldInner 2 (VPtr (TBasic Reflect.Bool) (Some (VBool true))) ft ∅
  = Ok [1; 1]
  /\ decodeFieldInner ∅ 2
       (VPtr (TPtr (TBasic Reflect.Bool)) (Some (VPtr (TBasic Reflect.Bool) None)))
       ft ∅ [1; 1]
     = Ok (VPtr (TPtr (TBasic Reflect.Bool))
             (Some (VPtr (TBasic Reflect.Bool) (Some (VBool true)))), [])
  /\ decodeFieldInner ∅ 2
       (VPtr (TPtr (TBasic Reflect.Bool))
          (Some (VPtr (TBasic Reflect.Bool) (Some (VBool true)))))
       ft ∅ [0]
     = Ok (VPtr (TPtr (TBasic Reflect.Bool))
             (Some (VPtr (TBasic Reflect.Bool) (Some (VBool true)))), []).
Proof.
  intros ft.
  destruct (pointer_codec ∅ 1 ft (kindType Reflect.Bool) [] ∅
              (TBasic Reflect.Bool) eq_refl eq_refl)
    as (_ & _ & Henc & Hnil & _ & Hdec).
  split; [apply Henc; reflexivity|]. split.
  - apply (Hdec (VPtr (TBasic Reflect.Bool) (Some (VBool false))) [1]
                (VPtr (TBasic Reflect.Bool) (Some (VBool true))) []);
      reflexivity.
  - apply Hnil.
Defined.

(** X20. A node whose kind neither traversal has a case for (the
    platform-sized [int] and [uint], a struct body, an interface, any
    number that names no kind) makes both panic with "Unsupported ... kind",
    whatever the value and the input; the safe wrappers return that as an
    error. *)
Theorem unsupported_kind (decls : Decls) (fuel : nat) (field : Value)
  (ts : TypeSpec) (reader : bytes) :
  supportedKind (Reflect.of_uint8 (Kind (Top ts))) = false ->
  encodeField (S fuel) field ts = Panicked (UnsupportedEncodeKind (Kind (Top ts)))
  /\ decodeField decls (S fuel) field ts reader
     = Panicked (UnsupportedDecodeKind (Kind (Top ts)))
  /\ SafeEncodeField (S fuel) field ts
     = Err (EncodingFailed (UnsupportedEncodeKind (Kind (Top ts))))
  /\ SafeDecodeField decls (S fuel) field ts reader
     = Err (DecodingFailed (UnsupportedDecodeKind (Kind (Top ts)))).
Proof.
  intros Hk.
  unfold encodeField, decodeField, SafeEncodeField, SafeDecodeField.
  cbn [encodeFieldInner decodeFieldInner].
  destruct (Reflect.of_uint8 (Kind (Top ts))); try discriminate Hk;
    repeat split; reflexivity.
Qed.

Lemma unsupported_kind_witness :
  supportedKind (Reflect.of_uint8 (Kind (Top (kindSpec Reflect.Int)))) = false
  /\ SafeEncodeField 1 (VInt 3) (kindSpec Reflect.Int)
     = Err (EncodingFailed (UnsupportedEncodeKind 2)).
Proof.
  split; [reflexivity|].
  destruct (unsupported_kind ∅ 0 (VInt 3) (kindSpec Reflect.Int) [] eq_refl)
    as (_ & _ & H & _).
  exact H.
Defined.

Lemma foldM_ext_inv {A S} (I : S -> list A -> Prop)
  (f g : S -> A -> Outcome S) :
  (forall s x l, I s (x :: l) ->
                 f s x = g s x /\ forall s', f s x = Ok s' -> I s' l) ->
  forall l s, I s l -> foldM f l s = foldM g l s.
Proof.
  intros Hstep. induction l as [|x l IH]; intros s Hs; [reflexivity|].
  cbn [foldM]. destruct (Hstep s x l Hs) as [Heq Hnext].
  rewrite <- Heq. destruct (f s x) as [s'| | |]; try reflexivity.
  cbn [bind]. apply IH, Hnext. reflexivity.
Qed.

Lemma foldM_inv {A S} (I : S -> list A -> Prop) (f : S -> A -> Outcome S) :
  (forall s x l s', I s (x :: l) -> f s x = Ok s' -> I s' l) ->
  forall l s s', I s l -> foldM f l s = Ok s' -> I s' [].
Proof.
  intros Hstep. induction l as [|x l IH]; intros s s' Hs Hfold.
  - cbn in Hfold. injection Hfold as <-. exact Hs.
  - cbn [foldM] in Hfold. destruct (f s x) as [s1| | |] eqn:Hf;
      try discriminate Hfold.
    cbn [bind] in Hfold. exact (IH s1 s' (Hstep s x l s1 Hs Hf) Hfold).
Qed.

Lemma foldM_skip {A S} (f : S -> A -> Outcome S) (skip : A -> bool)
  (g : S -> A -> Outcome S) :
  (forall s x, f s x = if skip x then Ok s else g s x) ->
  forall l s, forallb skip l = true -> foldM f l s = Ok s.
Proof.
  intros Hf. induction l as [|x l IH]; intros s Hall; [reflexivity|].
  cbn [forallb] in Hall. apply andb_true_iff in Hall as [Hx Hl].
  cbn [foldM]. rewrite Hf, Hx. cbn [bind]. apply IH. exact Hl.
Qed.

Lemma skipn_cons_nth_error {A} (l : list A) (i : nat) (x : A) (l' : list A) :
  skipn i l = x :: l' -> nth_error l i = Some x /\ skipn (S i) l = l'.
Proof.
  revert i. induction l as [|a l IH]; intros [|i] H; try discriminate.
  - cbn in H. injection H as -> ->. split; reflexivity.
  - cbn [skipn] in H. apply IH in H as [H1 H2]. split; assumption.
Qed.

(** X21. Ignored fields are not encoded: two structs that agree on every
    field the spec does not ignore have the same encoding (or fail alike),
    behind a pointer or not; and a struct all of whose fields are ignored
    is encoded in zero bytes, from a struct value and from an attribute
    map alike. *)
Theorem ignored_fields_not_encoded (fuel : nat) (ft body : fieldType)
  (structs : structMap) (key : string) (fields fields' : list Value) :
  Kind ft = Reflect.to_uint8 Reflect.STRUCT_REFERENCE ->
  structs !! StructName ft = Some (Some body) ->
  ((forall j fieldFt, nth_error (Elem body) j = Some fieldFt ->
                      isIgnored fieldFt = false ->
                      nth_error fields j = nth_error fields' j) ->
   encodeFieldInner (S fuel) (VStruct key fields) ft structs
   = encodeFieldInner (S fuel) (VStruct key fields') ft structs
   /\ encodeFieldInner (S fuel)
        (VPtr (TStruct key) (Some (VStruct key fields))) ft structs
      = encodeFieldInner (S fuel)
          (VPtr (TStruct key) (Some (VStruct key fields'))) ft structs)
  /\ (forallb isIgnored (Elem body) = true ->
      (key = StructName ft ->
       encodeFieldInner (S fuel) (VStruct key fields) ft structs = Ok [])
      /\ forall m, encodeFieldInner (S fuel) (VAttrs m) ft structs = Ok []).
Proof.
  intros Hkind Hbody.
  cbn [encodeFieldInner]. rewrite Hkind.
  cbn [Reflect.of_uint8 Reflect.to_uint8 reflect_Indirect TypeOf KindOf
       typeKey].
  unfold structElems. rewrite Hbody.
  replace (bool_decide (Reflect.Struct = Reflect.Map)) with false by reflexivity.
  replace (bool_decide (Reflect.Map = Reflect.Map)) with true by reflexivity.
  replace (bool_decide (TAttrs = TAttrs)) with true by reflexivity.
  cbn [bind]. split.
  - intros Hagree.
    assert (Hfold : forall out,
      foldM (fun '(i, out) fieldFt =>
               if isIgnored fieldFt then Ok (S i, out)
               else
                 let* fieldVal :=
                   reflect_Field (TStruct key) (VStruct key fields) i in
                 let* o := encodeFieldInner fuel fieldVal fieldFt structs in
                 Ok (S i, out ++ o)) (Elem body) (0%nat, out)
      = foldM (fun '(i, out) fieldFt =>
               if isIgnored fieldFt then Ok (S i, out)
               else
                 let* fieldVal :=
                   reflect_Field (TStruct key) (VStruct key fields') i in
                 let* o := encodeFieldInner fuel fieldVal fieldFt structs in
                 Ok (S i, out ++ o)) (Elem body) (0%nat, out)).
    { intros out.
      apply (foldM_ext_inv
               (fun (s : nat * bytes) l => l = skipn s.1 (Elem body))).
      - intros [i o] x l Hl. cbn [fst] in Hl. symmetry in Hl.
        apply skipn_cons_nth_error in Hl as [Hx Hl].
        destruct (isIgnored x) eqn:Hign.
        + split; [reflexivity|]. intros s' Hs'. injection Hs' as <-.
          cbn [fst]. symmetry. exact Hl.
        + cbn [reflect_Field]. rewrite <- (Hagree i x Hx Hign). split;
            [reflexivity|].
          intros s' Hs'.
          destruct (nth_error fields i) as [f|]; [|discriminate Hs'].
          cbn [bind] in Hs'.
          destruct (encodeFieldInner fuel f x structs); try discriminate Hs'.
          cbn [bind] in Hs'. injection Hs' as <-. cbn [fst].
          symmetry. exact Hl.
      - reflexivity. }
    destruct (negb (String.eqb key (StructName ft)));
      [split; reflexivity|].
    rewrite (Hfold []). split; reflexivity.
  - intros Hall. split.
    + intros ->. rewrite String.eqb_refl. cbn [negb].
      assert (Hfold : forall l i out,
        forallb isIgnored l = true ->
        foldM (fun '(i, out) fieldFt =>
                 if isIgnored fieldFt then Ok (S i, out)
                 else
                   let* fieldVal :=
                     reflect_Field (TStruct (StructName ft))
                                   (VStruct (StructName ft) fields) i in
                   let* o := encodeFieldInner fuel fieldVal fieldFt structs in
                   Ok (S i, out ++ o)) l (i, out)
        = Ok ((i + length l)%nat, out)).
      { induction l as [|x l IH]; intros i out Hl.
        - cbn. rewrite Nat.add_0_r. reflexivity.
        - cbn [forallb] in Hl. apply andb_true_iff in Hl as [Hx Hl].
          cbn [foldM]. rewrite Hx. cbn [bind]. rewrite (IH _ _ Hl).
          cbn [length]. f_equal. f_equal. lia. }
      rewrite (Hfold _ _ _ Hall). reflexivity.
    + intros m. apply (foldM_skip _ isIgnored
        (fun out fieldFt =>
           let* o := encodeFieldInner fuel (attrLookup (VAttrs m) (Label fieldFt))
                       fieldFt structs in Ok (out ++ o))).
      * intros out x. destruct (isIgnored x); reflexivity.
      * exact Hall.
Qed.

Lemma ignored_fields_not_encoded_witness :
  let body := FieldType (Reflect.to_uint8 Reflect.Struct)
                [FieldType 24 [] "Name" ""; FieldType 254 [] "Ignored" "";
                 FieldType 24 [] "Another" ""] "" "" in
  let structs : structMap := {["t/st0"%string := Some body]} in
  encodeFieldInner 2 (VStruct "t/st0" [VString "Obj"; VString "Nothing";
                                      VString "Something"])
                   (structReference "t/st0") structs
  = encodeFieldInner 2 (VStruct "t/st0" [VString "Obj"; VString "";
                                        VString "Something"])
                     (structReference "t/st0") structs.
Proof.
  intros body structs.
  destruct (ignored_fields_not_encoded 1 (structReference "t/st0") body
              structs "t/st0"
              [VString "Obj"; VString "Nothing"; VString "Something"]
              [VString "Obj"; VString ""; VString "Something"]
              eq_refl eq_refl) as [Hagree _].
  apply Hagree. intros [|[|[|j]]] fieldFt Hj Hign; try reflexivity.
  cbn in Hj. injection Hj as <-. discriminate Hign.
Defined.

(** X22. Decoding into a struct leaves alone the fields the spec ignores:
    after a successful decode the target is a struct of the same type with
    as many fields, and each field at the position of an ignored node, or
    beyond the nodes of the spec, holds what it held before. *)
Theorem ignored_fields_kept (decls : Decls) (fuel : nat) (ft body : fieldType)
  (structs : structMap) (key : string) (fields : list Value)
  (reader rest : bytes) (target : Value) :
  Kind ft = Reflect.to_uint8 Reflect.STRUCT_REFERENCE ->
  structs !! StructName ft = Some (Some body) ->
  decodeFieldInner decls (S fuel)
    (VPtr (TStruct key) (Some (VStruct key fields))) ft structs reader
  = Ok (target, rest) ->
  exists fields',
    target = VPtr (TStruct key) (Some (VStruct key fields'))
    /\ length fields' = length fields
    /\ forall j,
         (length (Elem body) <= j)%nat
         \/ (exists fieldFt, nth_error (Elem body) j = Some fieldFt
                             /\ isIgnored fieldFt = true) ->
         nth_error fields' j = nth_error fields j.
Proof.
  intros Hkind Hbody.
  cbn [decodeFieldInner]. rewrite Hkind.
  cbn [Reflect.of_uint8 Reflect.to_uint8 reflect_Indirect KindOf typeKey].
  replace (bool_decide (Reflect.Struct = Reflect.Map)) with false by reflexivity.
  destruct (negb (String.eqb key (StructName ft))); [discriminate|].
  unfold structElems. rewrite Hbody. cbn [bind].
  match goal with
  | |- context [foldM ?f (Elem body) _] => set (step := f)
  end.
  destruct (foldM step (Elem body) (0%nat, VStruct key fields, reader))
    as [[[i val] rd]| | |] eqn:Hfold; try discriminate.
  cbn [bind snd setPointee]. intros H. injection H as <- <-.
  pose (I := fun (s : nat * Value * bytes) (l : list fieldType) =>
    l = skipn s.1.1 (Elem body)
    /\ (s.1.1 <= length (Elem body))%nat
    /\ exists fields',
         s.1.2 = VStruct key fields'
         /\ length fields' = length fields
         /\ forall j,
              (s.1.1 <= j)%nat
              \/ (exists fieldFt, nth_error (Elem body) j = Some fieldFt
                                  /\ isIgnored fieldFt = true) ->
              nth_error fields' j = nth_error fields j).
  assert (Hfinal : I (i, val, rd) []).
  { apply (foldM_inv I step) with (l := Elem body)
                                  (s := (0%nat, VStruct key fields, reader)).
    - intros [[i0 val0] rd0] x l s' [Hl (_ & fs & Hval & Hlen & Hkeep)] Hstep.
      cbn [fst snd] in Hl, Hval, Hkeep. subst val0.
      symmetry in Hl. apply skipn_cons_nth_error in Hl as [Hx Hl].
      assert (Hi0 : (S i0 <= length (Elem body))%nat)
        by (apply nth_error_Some; congruence).
      unfold step in Hstep.
      destruct (isIgnored x) eqn:Hign.
      + injection Hstep as <-. split; [symmetry; exact Hl|].
        split; [exact Hi0|].
        exists fs. cbn [fst snd]. split; [reflexivity|].
        split; [exact Hlen|]. intros j [Hj|Hj].
        * apply Hkeep. left. lia.
        * apply Hkeep. right. exact Hj.
      + destruct (reflect_Field (TStruct key) (VStruct key fs) i0)
          as [f| | |]; try discriminate Hstep.
        cbn [bind addressable negb] in Hstep.
        destruct (fieldTypeAt decls key i0) as [ti| | |];
          try discriminate Hstep.
        cbn [bind] in Hstep.
        destruct (decodeFieldInner decls fuel (VPtr ti (Some f)) x structs rd0)
          as [[fieldVal rd1]| | |]; try discriminate Hstep.
        cbn [bind] in Hstep. injection Hstep as <-.
        split; [symmetry; exact Hl|]. split; [exact Hi0|].
        exists (<[i0 := pointee fieldVal]> fs). cbn [fst snd].
        split; [reflexivity|]. split; [rewrite length_insert; exact Hlen|].
        intros j Hj.
        assert (Hne : i0 <> j).
        { destruct Hj as [Hj|(y & Hy & Hyign)]; [lia|].
          intros ->. congruence. }
        rewrite <- !lookup_nth_error.
        rewrite list_lookup_insert_ne by exact Hne.
        rewrite !lookup_nth_error. apply Hkeep.
        destruct Hj as [Hj|Hj]; [left; lia | right; exact Hj].
    - split; [reflexivity|]. split; [cbn; lia|]. exists fields. cbn [fst snd].
      repeat split; reflexivity.
    - exact Hfold. }
  destruct Hfinal as [Hend (Hi & fs & Hval & Hlen & Hkeep)].
  cbn [fst snd] in Hend, Hi, Hval, Hkeep. subst val.
  exists fs. split; [reflexivity|]. split; [exact Hlen|].
  intros j [Hj|Hj]; apply Hkeep; [|right; exact Hj].
  left.
  assert (length (skipn i (Elem body)) = 0%nat) by (rewrite <- Hend; reflexivity).
  rewrite length_skipn in H. lia.
Qed.

Lemma ignored_fields_kept_witness :
  let body := FieldType (Reflect.to_uint8 Reflect.Struct)
                [FieldType 24 [] "Name" ""; FieldType 254 [] "Ignored" ""] "" "" in
  let structs : structMap := {["t/st0"%string := Some body]} in
  let decls : Decls :=
    {["t/st0"%string := [Spack.field "Name" "" TString;
                         Spack.field "Ignored" "ignore" TString]]} in
  exists fields',
    decodeFieldInner decls 2
      (VPtr (TStruct "t/st0") (Some (VStruct "t/st0" [VString ""; VString "kept"])))
      (structReference "t/st0") structs [3; 79; 98; 106]
    = Ok (VPtr (TStruct "t/st0") (Some (VStruct "t/st0" fields')), [])
    /\ nth_error fields' 1 = Some (VString "kept").
Proof.
  intros body structs decls.
  destruct (decodeFieldInner decls 2
              (VPtr (TStruct "t/st0")
                 (Some (VStruct "t/st0" [VString ""; VString "kept"])))
              (structReference "t/st0") structs [3; 79; 98; 106])
    as [[target rest]| | |] eqn:Hdec; try discriminate Hdec.
  destruct (ignored_fields_kept decls 1 (structReference "t/st0") body structs
              "t/st0" [VString ""; VString "kept"] [3; 79; 98; 106] rest
              target eq_refl eq_refl Hdec) as (fields' & -> & _ & Hkeep).
  exists fields'. split.
  - f_equal. f_equal. revert Hdec. vm_compute. intros H.
    injection H as _ <-. reflexivity.
  - apply (Hkeep 1%nat). right. eexists. split; reflexivity.
Defined.

(** ** Objects: how the operations compose *)

Lemma EncodeObj_Ok (fuel : nat) (vt : VersionedType) (obj : Value)
  (latest : Version) (older : list Version) (enc : bytes) :
  Versions vt = latest :: older ->
  0 <= VersionNo latest < 65536 ->
  EncodeObj fuel vt obj = Ok enc ->
  exists body,
    SafeEncodeField fuel obj (Spec latest) = Ok body
    /\ enc = VersionNo latest / 256 :: VersionNo latest mod 256 :: body
    /\ VersionNo latest = VersionNo latest / 256 * 256 + VersionNo latest mod 256.
Proof.
  intros Hvs Hrange Henc. unfold EncodeObj in Henc. rewrite Hvs in Henc.
  destruct (SafeEncodeField fuel obj (Spec latest)) as [body| | |];
    try discriminate Henc.
  cbn [bind] in Henc. rewrite be_bytes_uint16 in Henc by exact Hrange.
  injection Henc as <-. exists body. repeat split.
  pose proof (Z.div_mod (VersionNo latest) 256 ltac:(lia)). lia.
Qed.

Lemma DecodeObj_withUpgraders_latest (decls : Decls) (fuel : nat)
  (vt : VersionedType) (latest : Version) (older : list Version)
  (hi lo : Z) (body : bytes) (toMap : bool)
  (g : Version -> option UpgradeFunc) :
  Versions vt = latest :: older ->
  VersionNo latest = hi * 256 + lo ->
  DecodeObj decls fuel (withUpgraders g vt) (hi :: lo :: body) toMap
  = DecodeObj decls fuel vt (hi :: lo :: body) toMap.
Proof.
  intros Hvs Hv.
  rewrite (DecodeObj_latest decls fuel vt latest older hi lo body toMap Hvs Hv).
  rewrite (DecodeObj_latest decls fuel (withUpgraders g vt)
             (setUpgrader g latest) (map (setUpgrader g) older)
             hi lo body toMap).
  - reflexivity.
  - unfold withUpgraders, setVersions. cbn [Versions]. rewrite Hvs. reflexivity.
  - exact Hv.
Qed.

(** X23. What [EncodeObj] returns, [DecodeObj] decodes without upgrade:
    the buffer is the latest version's number followed by the body written
    against its spec, and [DecodeObj] on it decodes that body against the
    same spec, into an attribute map when [toMap] is set and a fresh value
    of the exemplar's type otherwise; a success carries [upgraded = false];
    the upgraders play no part; and when the latest version has no exemplar
    the buffer is refused. *)
Theorem EncodeObj_then_DecodeObj (decls : Decls) (fuel fuel' : nat)
  (vt : VersionedType) (latest : Version) (older : list Version)
  (obj : Value) (enc : bytes) (toMap : bool) :
  Versions vt = latest :: older ->
  0 <= VersionNo latest < 65536 ->
  EncodeObj fuel vt obj = Ok enc ->
  exists body,
    SafeEncodeField fuel obj (Spec latest) = Ok body
    /\ DecodeObj decls fuel' vt enc toMap
       = match TypeOf (Exemplar latest) with
         | None => Err (ObjectVersionHasNoExemplar (VersionNo latest))
         | Some t =>
             let* target := if toMap then Ok (VAttrs ∅)
                            else reflect_New decls fuel' t in
             let* target :=
               SafeDecodeField decls fuel' target (Spec latest) body in
             Ok (target, false)
         end
    /\ (forall r, DecodeObj decls fuel' vt enc toMap = Ok r -> r.2 = false)
    /\ (forall g, DecodeObj decls fuel' (withUpgraders g vt) enc toMap
                  = DecodeObj decls fuel' vt enc toMap).
Proof.
  intros Hvs Hrange Henc.
  destruct (EncodeObj_Ok fuel vt obj latest older enc Hvs Hrange Henc)
    as (body & Hbody & -> & Hv).
  exists body. split; [exact Hbody|].
  pose proof (DecodeObj_latest decls fuel' vt latest older _ _ body toMap
                Hvs Hv) as Hdec.
  split; [exact Hdec|]. split.
  - intros r. rewrite Hdec.
    destruct (TypeOf (Exemplar latest)) as [t|]; [|discriminate].
    destruct (if toMap then _ else _) as [target| | |]; try discriminate.
    cbn [bind].
    destruct (SafeDecodeField decls fuel' target (Spec latest) body);
      try discriminate.
    cbn [bind]. intros H. injection H as <-. reflexivity.
  - intros g. apply (DecodeObj_withUpgraders_latest decls fuel' vt latest older);
      assumption.
Qed.

Lemma EncodeObj_then_DecodeObj_witness :
  exists enc,
    EncodeObj 2 flagType (VBool true) = Ok enc
    /\ DecodeObj ∅ 2 flagType enc false
       = Ok (VPtr (TBasic Reflect.Bool) (Some (VBool true)), false).
Proof.
  exists [1; 2; 1]. split; [reflexivity|].
  destruct (EncodeObj_then_DecodeObj ∅ 2 2 flagType flagVersion [] (VBool true)
              [1; 2; 1] false eq_refl ltac:(cbn; lia) eq_refl)
    as (body & Hbody & Hdec & _).
  rewrite Hdec. injection Hbody as <-. reflexivity.
Defined.

(** X24. [DecodeInto] on what [EncodeObj] returns stores the number of the
    latest version under "_version": on a descending list the buffer is
    decoded against the latest spec into the caller's map, whatever older
    versions and upgraders there are. *)
Theorem EncodeObj_then_DecodeInto (decls : Decls) (fuel fuel' : nat)
  (vt : VersionedType) (latest : Version) (older : list Version)
  (obj : Value) (enc : bytes) (target : option (gmap string Value)) :
  Versions vt = latest :: older ->
  descending (Versions vt) = true ->
  0 <= VersionNo latest < 65536 ->
  EncodeObj fuel vt obj = Ok enc ->
  exists body,
    SafeEncodeField fuel obj (Spec latest) = Ok body
    /\ DecodeInto decls fuel' vt enc target
       = (let* decoded :=
            SafeDecodeField decls fuel' (attrsValue target) (Spec latest) body in
          match decoded with
          | VAttrs m =>
              Ok (<["_version" := VNum Reflect.Uint16 (VersionNo latest)]> m)
          | _ => Panicked (RuntimePanic "assignment to entry in nil map")
          end)
    /\ (forall m, DecodeInto decls fuel' vt enc target = Ok m ->
                  m !! "_version"
                  = Some (VNum Reflect.Uint16 (VersionNo latest))).
Proof.
  intros Hvs Hd Hrange Henc.
  destruct (EncodeObj_Ok fuel vt obj latest older enc Hvs Hrange Henc)
    as (body & Hbody & -> & Hv).
  exists body. split; [exact Hbody|].
  assert (Hin : In latest (Versions vt)) by (rewrite Hvs; left; reflexivity).
  pose proof (DecodeInto_found decls fuel' vt _ _ body target latest Hd Hin Hv)
    as Hdec.
  rewrite <- Hv in Hdec. split; [exact Hdec|].
  intros m. rewrite Hdec.
  destruct (SafeDecodeField decls fuel' (attrsValue target) (Spec latest) body)
    as [decoded| | |]; try discriminate.
  cbn [bind]. destruct decoded; try discriminate.
  intros H. injection H as <-. apply lookup_insert_eq.
Qed.

Lemma EncodeObj_then_DecodeInto_witness :
  exists enc m,
    EncodeObj TestUpgrade.fuel TestUpgrade.registry
      (VAttrs (<["Age" := VInt 32]> (<["Moniker" := VString "Brend"]> ∅)))
    = Ok enc
    /\ DecodeInto TestUpgrade.decls TestUpgrade.fuel TestUpgrade.registry enc
                  (Some ∅) = Ok m
    /\ m !! "_version" = Some (VNum Reflect.Uint16 2).
Proof.
  destruct (EncodeObj_then_DecodeInto TestUpgrade.decls TestUpgrade.fuel
              TestUpgrade.fuel TestUpgrade.registry (TestUpgrade.version 0)
              [TestUpgrade.version 1; TestUpgrade.version 2]
              (VAttrs (<["Age" := VInt 32]> (<["Moniker" := VString "Brend"]> ∅)))
              [0; 2; 0; 32; 5; 66; 114; 101; 110; 100] (Some ∅)
              eq_refl eq_refl
              ltac:(vm_compute; split; [discriminate | reflexivity]) eq_refl)
    as (body & _ & _ & Hversion).
  destruct (DecodeInto TestUpgrade.decls TestUpgrade.fuel TestUpgrade.registry
              [0; 2; 0; 32; 5; 66; 114; 101; 110; 100] (Some ∅))
    as [m| | |] eqn:Hdec; try discriminate Hdec.
  exists [0; 2; 0; 32; 5; 66; 114; 101; 110; 100], m.
  split; [reflexivity|]. split; [exact Hdec|].
  exact (Hversion m eq_refl).
Defined.

(** X25. A buffer too short to hold the version is not refused for that:
    [DecodeObj] and [DecodeInto] drop the error of reading the prefix, so
    an empty buffer and a buffer of one byte are decoded as version 0 with
    an empty body. *)
Theorem truncated_prefix (decls : Decls) (fuel : nat) (vt : VersionedType)
  (toMap : bool) (target : option (gmap string Value)) (b : Z) :
  DecodeObj decls fuel vt [] toMap = DecodeObj decls fuel vt [0; 0] toMap
  /\ DecodeObj decls fuel vt [b] toMap = DecodeObj decls fuel vt [0; 0] toMap
  /\ DecodeInto decls fuel vt [] target = DecodeInto decls fuel vt [0; 0] target
  /\ DecodeInto decls fuel vt [b] target
     = DecodeInto decls fuel vt [0; 0] target.
Proof.
  unfold DecodeObj, DecodeInto.
  destruct (Versions vt); repeat split; reflexivity.
Qed.

(** X26. A prefix naming a version that the type does not have, one newer
    than the latest included, is refused by [DecodeObj] with "Version not
    registered", whatever [toMap] and the body are. *)
Theorem DecodeObj_unregistered (decls : Decls) (fuel : nat)
  (vt : VersionedType) (hi lo : Z) (body : bytes) (toMap : bool) :
  Versions vt <> [] ->
  (forall w, In w (Versions vt) -> VersionNo w <> hi * 256 + lo) ->
  DecodeObj decls fuel vt (hi :: lo :: body) toMap
  = Err (VersionNotRegistered (hi * 256 + lo)).
Proof.
  intros Hne Habs. unfold DecodeObj.
  destruct (Versions vt) as [|latest older] eqn:Hvs; [contradiction|].
  rewrite readVersion_prefix.
  assert (VersionNo latest <> hi * 256 + lo)
    by (apply Habs; left; reflexivity).
  replace (VersionNo latest =? hi * 256 + lo) with false
    by (symmetry; apply Z.eqb_neq; assumption).
  cbn [negb]. unfold upgradeObj.
  rewrite getVersion_absent; [reflexivity|]. rewrite Hvs. exact Habs.
Qed.

Lemma DecodeObj_unregistered_witness :
  DecodeObj TestUpgrade.decls TestUpgrade.fuel TestUpgrade.registry
            [0; 3; 5; 66; 114; 101; 110; 100] true
  = Err (VersionNotRegistered 3).
Proof.
  apply (DecodeObj_unregistered TestUpgrade.decls TestUpgrade.fuel
           TestUpgrade.registry 0 3); [discriminate|].
  intros w Hw. destruct Hw as [<-|[<-|[<-|[]]]]; discriminate.
Defined.

(** X27. How an upgrade fails. For a prefix naming a registered version
    older than the latest: [toMap] is not consulted; a body that does not
    decode ends the call with "Error decoding initial version" around the
    decoder's error, before any upgrader is called; and when the first
    upgrader called returns an error, the call ends with "Upgrader error"
    around it and no later upgrader is consulted. *)
Theorem upgrade_failures (decls : Decls) (fuel : nat) (vt : VersionedType)
  (latest v : Version) (older : list Version) (idx : nat) (hi lo : Z)
  (body : bytes) :
  Versions vt = latest :: older ->
  descending (Versions vt) = true ->
  nth_error (Versions vt) (S idx) = Some v ->
  VersionNo v = hi * 256 + lo ->
  DecodeObj decls fuel vt (hi :: lo :: body) true
  = DecodeObj decls fuel vt (hi :: lo :: body) false
  /\ (forall target err toMap,
        upgradeTarget decls fuel v = Ok target ->
        SafeDecodeField decls fuel target (Spec v) body = Err err ->
        DecodeObj decls fuel vt (hi :: lo :: body) toMap
        = Err (ErrorDecodingInitialVersion (VersionNo v) err))
  /\ (forall target obj next upgrade msg toMap,
        upgradeTarget decls fuel v = Ok target ->
        SafeDecodeField decls fuel target (Spec v) body = Ok obj ->
        nth_error (Versions vt) idx = Some next ->
        Upgrader next = Some upgrade ->
        upgrade obj = UpgradeFailed msg ->
        DecodeObj decls fuel vt (hi :: lo :: body) toMap
        = Err (UpgraderError msg)).
Proof.
  intros Hvs Hd Hidx Hv.
  assert (Hlt : VersionNo v < VersionNo latest).
  { apply (descending_nth (Versions vt) 0 (S idx) latest v Hd); [lia| |exact Hidx].
    rewrite Hvs. reflexivity. }
  pose proof (fun toMap =>
    DecodeObj_older decls fuel vt latest v older (S idx) hi lo body toMap
                    Hvs Hd Hidx Hv Hlt) as Hdec.
  split; [rewrite !Hdec; reflexivity|]. split.
  - intros target err toMap Htarget Herr.
    rewrite Hdec, Htarget. cbn [bind]. rewrite Herr. reflexivity.
  - intros target obj next upgrade msg toMap Htarget Hobj Hnext Hup Hfail.
    rewrite Hdec, Htarget. cbn [bind]. rewrite Hobj.
    rewrite (firstn_S_nth_error _ _ _ Hnext), rev_unit.
    cbn [applyUpgraders]. rewrite Hup, Hfail. reflexivity.
Qed.

Lemma upgrade_failures_witness :
  DecodeObj TestUpgrade.decls TestUpgrade.fuel TestUpgrade.registry
            [0; 0; 9; 66] false
  = Err (ErrorDecodingInitialVersion 0 (DecodingFailed (RuneReadError EOF))).
Proof.
  destruct (upgrade_failures TestUpgrade.decls TestUpgrade.fuel
              TestUpgrade.registry (TestUpgrade.version 0)
              (TestUpgrade.version 2)
              [TestUpgrade.version 1; TestUpgrade.version 2] 1 0 0 [9; 66]
              eq_refl eq_refl eq_refl eq_refl) as (_ & Hbody & _).
  apply (Hbody (VAttrs ∅)); reflexivity.
Defined.

(** ** The type-spec builder *)

Lemma references_known_Forall (structs : structMap) (kind : Z)
  (elem : list fieldType) (label structName : string) :
  references_known structs (FieldType kind elem label structName)
  <-> (Reflect.of_uint8 kind = Reflect.STRUCT_REFERENCE ->
       is_Some (structs !! structName))
      /\ Forall (references_known structs) elem.
Proof.
  cbn [references_known]. split; intros [Href Hall]; (split; [exact Href|]).
  - induction elem as [|e elem IH]; [constructor|].
    destruct Hall as [He Hall]. constructor; [exact He | exact (IH Hall)].
  - induction Hall as [|e elem He _ IH]; [exact I | split; assumption].
Qed.


Lemma references_known_mono (s s' : structMap) :
  keys_le s s' ->
  forall ft, references_known s ft -> references_known s' ft.
Proof.
  intros Hle.
  refine (fix IH (ft : fieldType) : references_known s ft ->
                                    references_known s' ft := _).
  destruct ft as [kind elem label structName].
  cbn [references_known]. intros [Href Hall]. split.
  - intros Hk. apply Hle, Href, Hk.
  - clear Href. induction elem as [|e elem IHelem]; [exact I|].
    destruct Hall as [He Hall]. split; [apply IH, He | apply IHelem, Hall].
Qed.

Lemma keys_le_refl (s : structMap) : keys_le s s.
Proof. intros k H. exact H. Qed.

Lemma keys_le_trans (s1 s2 s3 : structMap) :
  keys_le s1 s2 -> keys_le s2 s3 -> keys_le s1 s3.
Proof. intros H12 H23 k H. apply H23, H12, H. Qed.

Lemma keys_le_insert (s : structMap) (k : string) (e : option fieldType) :
  keys_le s (<[k := e]> s).
Proof.
  intros k' H. destruct (decide (k' = k)) as [->|Hne].
  - rewrite lookup_insert_eq. eexists. reflexivity.
  - rewrite lookup_insert_ne by congruence. exact H.
Qed.

Lemma references_known_setLabel (s : structMap) (ft : fieldType) (name : string) :
  references_known s ft -> references_known s (setLabel ft name).
Proof. destruct ft. exact (fun H => H). Qed.

Lemma makeFieldType_inv (decls : Decls) (fuel : nat) :
  forall typ structs ft structs',
    bodies_known structs ->
    makeFieldType decls fuel typ structs = Ok (ft, structs') ->
    keys_le structs structs' /\ bodies_known structs'
    /\ sentinels_le structs' structs /\ references_known structs' ft.
Proof.
  induction fuel as [|n IH]; intros typ structs ft structs' Hbodies Hmake;
    [discriminate Hmake|].
  cbn [makeFieldType] in Hmake. destruct typ as [k|e|k e|e|name| |k].
  - (* basic *)
    destruct (Reflect.fixedSize k || bool_decide (k = Reflect.Bool)
              || bool_decide (k = Reflect.String)) eqn:Hk;
      [|discriminate Hmake].
    injection Hmake as <- <-.
    split; [apply keys_le_refl|]. split; [exact Hbodies|].
    split; [intros k' H; exact H|].
    unfold kind_node. apply references_known_Forall. split; [|constructor].
    intros Href. exfalso.
    destruct k; try discriminate Hk; discriminate Href.
  - (* slice *)
    destruct (makeFieldType decls n e structs) as [[elemType s1]| | |] eqn:He;
      try discriminate Hmake.
    cbn [bind] in Hmake. injection Hmake as <- <-.
    destruct (IH e structs elemType s1 Hbodies He) as (H1 & H2 & H3 & H4).
    split; [exact H1|]. split; [exact H2|]. split; [exact H3|].
    apply references_known_Forall. split; [discriminate|].
    constructor; [exact H4 | constructor].
  - (* map *)
    destruct (makeFieldType decls n k structs) as [[keyType s1]| | |] eqn:Hkey;
      try discriminate Hmake.
    cbn [bind] in Hmake.
    destruct (makeFieldType decls n e s1) as [[valType s2]| | |] eqn:Hval;
      try discriminate Hmake.
    cbn [bind] in Hmake. injection Hmake as <- <-.
    destruct (IH k structs keyType s1 Hbodies Hkey) as (H1 & H2 & H3 & H4).
    destruct (IH e s1 valType s2 H2 Hval) as (H1' & H2' & H3' & H4').
    split; [exact (keys_le_trans _ _ _ H1 H1')|]. split; [exact H2'|].
    split; [intros k' H; apply H3, H3', H|].
    apply references_known_Forall. split; [discriminate|].
    constructor; [exact (references_known_mono _ _ H1' _ H4)|].
    constructor; [exact H4' | constructor].
  - (* pointer *)
    destruct (makeFieldType decls n e structs) as [[elemType s1]| | |] eqn:He;
      try discriminate Hmake.
    cbn [bind] in Hmake. injection Hmake as <- <-.
    destruct (IH e structs elemType s1 Hbodies He) as (H1 & H2 & H3 & H4).
    split; [exact H1|]. split; [exact H2|]. split; [exact H3|].
    apply references_known_Forall. split; [discriminate|].
    constructor; [exact H4 | constructor].
  - (* struct *)
    destruct (structs !! name) as [entry|] eqn:Hseen.
    + injection Hmake as <- <-.
      split; [apply keys_le_refl|]. split; [exact Hbodies|].
      split; [intros k' H; exact H|].
      unfold structReference. apply references_known_Forall.
      split; [|constructor]. intros _. rewrite Hseen. eexists. reflexivity.
    + destruct (decls !! name) as [fields|]; [|discriminate Hmake].
      set (s1 := <[name := None]> structs) in Hmake.
      match type of Hmake with
      | context [foldM ?f fields ([], s1)] => set (step := f) in Hmake
      end.
      destruct (foldM step fields ([], s1)) as [[elems s2]| | |] eqn:Hfold;
        try discriminate Hmake.
      cbn [bind] in Hmake. injection Hmake as <- <-.
      assert (H01 : keys_le structs s1) by apply keys_le_insert.
      assert (Hb1 : bodies_known s1).
      { intros k b Hk. unfold s1 in Hk.
        destruct (decide (k = name)) as [->|Hne].
        - rewrite lookup_insert_eq in Hk. discriminate Hk.
        - rewrite lookup_insert_ne in Hk by congruence.
          destruct (Hbodies k b Hk) as [Hkind Hrefs]. split; [exact Hkind|].
          exact (references_known_mono _ _ H01 _ Hrefs). }
      pose (J := fun (st : list fieldType * structMap) (_ : list StructField) =>
        keys_le s1 st.2 /\ bodies_known st.2 /\ sentinels_le st.2 s1
        /\ Forall (references_known st.2) st.1).
      assert (HJ : J (elems, s2) []).
      { apply (foldM_inv J step) with (l := fields) (s := ([], s1)).
        - intros [els s] field l [els' s'] (Hk & Hb & Hs & Hr) Hstep.
          cbn [fst snd] in Hk, Hb, Hs, Hr. unfold step in Hstep.
          destruct (String.eqb (FieldTag field) "ignore").
          + injection Hstep as <- <-. unfold J. cbn [fst snd].
            split; [exact Hk|]. split; [exact Hb|]. split; [exact Hs|].
            apply Forall_app. split; [exact Hr|].
            constructor; [|constructor].
            apply references_known_Forall. split; [discriminate|constructor].
          + destruct (makeFieldType decls n (FieldType_ field) s)
              as [[fft s'']| | |] eqn:Hfield; try discriminate Hstep.
            cbn [bind] in Hstep. injection Hstep as <- <-.
            destruct (IH _ _ _ _ Hb Hfield) as (H1 & H2 & H3 & H4).
            unfold J. cbn [fst snd].
            split; [exact (keys_le_trans _ _ _ Hk H1)|].
            split; [exact H2|].
            split; [intros k' H; apply Hs, H3, H|].
            apply Forall_app. split.
            * eapply Forall_impl; [exact Hr|].
              intros x. apply references_known_mono. exact H1.
            * constructor; [|constructor].
              apply references_known_setLabel. exact H4.
        - unfold J. cbn [fst snd].
          split; [apply keys_le_refl|]. split; [exact Hb1|].
          split; [intros k' H; exact H | constructor].
        - exact Hfold. }
      destruct HJ as (Hk2 & Hb2 & Hs2 & Hr2). cbn [fst snd] in Hk2, Hb2, Hs2, Hr2.
      set (structFt := FieldType (Reflect.to_uint8 Reflect.Struct) elems "" "").
      assert (H23 : keys_le s2 (<[name := Some structFt]> s2))
        by apply keys_le_insert.
      split; [exact (keys_le_trans _ _ _ H01 (keys_le_trans _ _ _ Hk2 H23))|].
      split; [|split].
      * intros k b Hkb. destruct (decide (k = name)) as [->|Hne].
        -- rewrite lookup_insert_eq in Hkb. injection Hkb as <-.
           split; [reflexivity|].
           apply references_known_Forall. split; [discriminate|].
           eapply Forall_impl; [exact Hr2|].
           intros x. apply references_known_mono. exact H23.
        -- rewrite lookup_insert_ne in Hkb by congruence.
           destruct (Hb2 k b Hkb) as [Hkind Hrefs]. split; [exact Hkind|].
           exact (references_known_mono _ _ H23 _ Hrefs).
      * intros k Hk. destruct (decide (k = name)) as [->|Hne].
        -- rewrite lookup_insert_eq in Hk. discriminate Hk.
        -- rewrite lookup_insert_ne in Hk by congruence.
           apply Hs2 in Hk. unfold s1 in Hk.
           rewrite lookup_insert_ne in Hk by congruence. exact Hk.
      * unfold structReference. apply references_known_Forall.
        split; [|constructor]. intros _. rewrite lookup_insert_eq.
        eexists. reflexivity.
  - discriminate Hmake.
  - discriminate Hmake.
Qed.

(** X28. Every spec [MakeTypeSpec] returns is closed: each key of its
    struct table is bound to a struct body, none to the nil sentinel that
    guards against re-entrance, and each struct-reference in the top node
    or in a body names a key of the table. So the lookup of a referenced
    struct by the codec never meets a missing or nil entry in such a
    spec. *)
Theorem MakeTypeSpec_closed (decls : Decls) (fuel : nat) (exemplar : Value)
  (ts : TypeSpec) :
  MakeTypeSpec decls fuel exemplar = Ok ts ->
  spec_closed ts
  /\ forall ft,
       references_known (Structs ts) ft ->
       Reflect.of_uint8 (Kind ft) = Reflect.STRUCT_REFERENCE ->
       exists body, structElems (Structs ts) (StructName ft) = Ok (Elem body)
                    /\ Structs ts !! StructName ft = Some (Some body).
Proof.
  unfold MakeTypeSpec. destruct (TypeOf exemplar) as [typ|]; [|discriminate].
  destruct (makeFieldType decls fuel typ ∅) as [[top structs]| | |] eqn:Hmake;
    try discriminate.
  cbn [bind]. intros H. injection H as <-. cbn [Structs Top].
  destruct (makeFieldType_inv decls fuel typ ∅ top structs) as
    (_ & Hbodies & Hsent & Htop); [|exact Hmake|].
  { intros k b Hk. rewrite lookup_empty in Hk. discriminate Hk. }
  assert (Hentry : forall key entry, structs !! key = Some entry ->
                                     exists body, entry = Some body).
  { intros key [body|] Hk; [eexists; reflexivity|].
    apply Hsent in Hk. rewrite lookup_empty in Hk. discriminate Hk. }
  split; [split; [exact Htop|]|].
  - intros key entry Hk. destruct (Hentry key entry Hk) as [body ->].
    exists body. destruct (Hbodies key body Hk). repeat split; assumption.
  - intros [kind elem label structName] Hft Href.
    apply references_known_Forall in Hft as [Hknown _].
    cbn [Kind] in Href. destruct (Hknown Href) as [entry Hk].
    destruct (Hentry _ _ Hk) as [body ->]. exists body.
    cbn [StructName]. unfold structElems. rewrite Hk. split; reflexivity.
Qed.

Lemma MakeTypeSpec_closed_witness :
  exists ts, MakeTypeSpec Spack.decls 16 Spack.exemplar = Ok ts
             /\ spec_closed ts.
Proof.
  destruct (MakeTypeSpec Spack.decls 16 Spack.exemplar) as [ts| | |] eqn:Hts;
    try (vm_compute in Hts; discriminate Hts).
  exists ts. split; [reflexivity|].
  exact (proj1 (MakeTypeSpec_closed Spack.decls 16 Spack.exemplar ts Hts)).
Defined.
